(** * ArcGIS Server service manager: a shallow embedding of
    [arcgis_service_manager.py] and the properties of its three workflows
    (save, stop-all-but-one, restore).

    The manager's methods are functions in a state-and-exception monad over
    a [World]: the remote server (a function from the exchanges so far and a
    request to a response), the file system, the log of exchanges, the
    printed lines, and a trace of the per-service methods entered. What the
    program takes from [requests], [json] and [csv] is modelled as far as
    the program uses it: a response is a transport failure or a JSON object;
    JSON numbers are integers; [json.dumps] is kept symbolic; the csv writer
    and reader are those of the [excel] dialect.

    Text is ASCII text, a character being a code point below 128: there
    [int], [str.upper] and the csv reader's count of characters are as
    modelled below, and the UTF-8 encoding of the files is the identity.
    The properties that depend on these say so ([ascii_text]). [str] of an
    integer is modelled for integers of at most 4300 decimal digits, which
    [str] prints and [int] reads; the properties that print a bound carry
    that limit.

    [main] is modelled from the parsed arguments on. *)

From Stdlib Require Import List String Ascii ZArith Bool Lia.
From Stdlib Require Import DecimalString DecimalPos.
Import ListNotations.
Open Scope string_scope.
Open Scope Z_scope.

Set Implicit Arguments.
Set Warnings "-register-all".

(** ** Characters and text *)

Definition quote_char : ascii := "034"%char.
Definition apostrophe : ascii := "039"%char.
Definition CR : ascii := "013"%char.
Definition LF : ascii := "010"%char.
Definition TAB : ascii := "009"%char.
Definition backslash : ascii := "092"%char.

Definition CRLF : string := String CR (String LF EmptyString).

Fixpoint mem_char (c : ascii) (s : string) : bool :=
  match s with
  | EmptyString => false
  | String d r => Ascii.eqb c d || mem_char c r
  end.

Fixpoint join (sep : string) (l : list string) : string :=
  match l with
  | [] => ""
  | [x] => x
  | x :: r => x ++ sep ++ join sep r
  end.

(** ** JSON documents, as [response.json()] builds them.

    Numbers are the integers; a Python dict is an association list with
    unique keys in insertion order. *)

Inductive json : Type :=
| JNull
| JBool (b : bool)
| JInt (n : Z)
| JStr (s : string)
| JList (l : list json)
| JObj (o : list (string * json)).

Definition dict := list (string * json).

(** [key in d] *)
Fixpoint has_key {V} (k : string) (d : list (string * V)) : bool :=
  match d with
  | [] => false
  | (k', _) :: r => String.eqb k k' || has_key k r
  end.

(** [d.get(k)], [None] when absent *)
Fixpoint lookup {V} (k : string) (d : list (string * V)) : option V :=
  match d with
  | [] => None
  | (k', v) :: r => if String.eqb k k' then Some v else lookup k r
  end.

(** [d.get(k, dflt)] *)
Definition get_default {V} (k : string) (dflt : V) (d : list (string * V)) : V :=
  match lookup k d with Some v => v | None => dflt end.

(** [d[k] = v]: replaces in place, or appends a new key *)
Fixpoint set_item {V} (k : string) (v : V) (d : list (string * V)) : list (string * V) :=
  match d with
  | [] => [(k, v)]
  | (k', v') :: r =>
      if String.eqb k k' then (k', v) :: r else (k', v') :: set_item k v r
  end.

(** [d.pop(k, None)] *)
Fixpoint pop {V} (k : string) (d : list (string * V)) : list (string * V) :=
  match d with
  | [] => []
  | (k', v') :: r => if String.eqb k k' then r else (k', v') :: pop k r
  end.

(** Truth value of a Python object *)
Definition truthy (j : json) : bool :=
  match j with
  | JNull => false
  | JBool b => b
  | JInt n => negb (n =? 0)
  | JStr s => negb (String.eqb s "")
  | JList l => match l with [] => false | _ => true end
  | JObj o => match o with [] => false | _ => true end
  end.

(** ** [str()] and [repr()] of the values above *)

(** [str(n)] for an integer of at most 4300 decimal digits. Beyond that
    [str] raises [ValueError]; an integer that [int] has read, or that
    [response.json()] has read from an answer, is within the limit. *)
Definition str_of_Z (n : Z) : string := NilZero.string_of_int (Z.to_int n).

Definition hex_digit (n : N) : ascii :=
  match n with
  | 0%N => "0" | 1%N => "1" | 2%N => "2" | 3%N => "3" | 4%N => "4"
  | 5%N => "5" | 6%N => "6" | 7%N => "7" | 8%N => "8" | 9%N => "9"
  | 10%N => "a" | 11%N => "b" | 12%N => "c" | 13%N => "d" | 14%N => "e"
  | _ => "f"
  end%char.

(** one character of a string's [repr], inside the quote [q] *)
Definition repr_char (q c : ascii) : string :=
  if Ascii.eqb c backslash then String backslash (String backslash "")
  else if Ascii.eqb c q then String backslash (String q "")
  else if Ascii.eqb c LF then String backslash "n"
  else if Ascii.eqb c CR then String backslash "r"
  else if Ascii.eqb c TAB then String backslash "t"
  else
    let n := N_of_ascii c in
    if ((n <? 32) || (n =? 127))%N
    then String backslash
           (String "x" (String (hex_digit (n / 16)) (String (hex_digit (n mod 16)) "")))
    else String c "".

Fixpoint repr_chars (q : ascii) (s : string) : string :=
  match s with
  | EmptyString => ""
  | String c r => repr_char q c ++ repr_chars q r
  end.

(** [repr(s)]: apostrophes around, unless [s] has one and no double quote *)
Definition repr_str (s : string) : string :=
  let q := if mem_char apostrophe s && negb (mem_char quote_char s)
           then quote_char else apostrophe in
  String q (repr_chars q s ++ String q "").

Fixpoint py_repr (j : json) : string :=
  match j with
  | JNull => "None"
  | JBool true => "True"
  | JBool false => "False"
  | JInt n => str_of_Z n
  | JStr s => repr_str s
  | JList l => "[" ++ join ", " (map py_repr l) ++ "]"
  | JObj o =>
      "{" ++ join ", " (map (fun kv => repr_str (fst kv) ++ ": " ++ py_repr (snd kv)) o) ++ "}"
  end.

(** [str(j)], which is what an f-string and the csv writer apply *)
Definition py_str (j : json) : string :=
  match j with
  | JStr s => s
  | _ => py_repr j
  end.

(** ** Exceptions and the state of a run *)

Inductive exn : Type :=
| KeyError (k : string)
| TypeError
| ValueError
| AttributeError
| OSError
| FileNotFoundError
| CsvError.

Inductive res (A : Type) : Type :=
| Ok (a : A)
| Raise (e : exn).
Arguments Ok {A} a.
Arguments Raise {A} e.

Inductive method : Type := GET | POST.

(** A request parameter: plain text, or the text [json.dumps] gives for a
    document (kept as the document). *)
Inductive form_value : Type :=
| Text (s : string)
| JsonText (doc : dict).

Record request : Type := {
  r_method : method;
  r_url : string;
  r_params : list (string * form_value)
}.

(** What [session.get]/[session.post], [raise_for_status] and
    [response.json()] give together: a [requests.RequestException] with its
    text, or the decoded JSON object. *)
Inductive response : Type :=
| Failed (reason : string)
| Body (result : dict).

(** A service as the manager names it: the arguments of its four per-service
    methods. *)
Record service : Type := {
  folder : json;
  name : json;
  type : json
}.

(** The per-service methods a workflow has entered, in order (ghost state:
    nothing reads it). *)
Inductive call : Type :=
| CallDetails (s : service)
| CallStart (s : service)
| CallStop (s : service)
| CallUpdate (s : service) (min_instances max_instances : Z)
| CallWriteRow (cells : list json).

(** A printed line; a caught exception is printed through its [str]. *)
Inductive line : Type :=
| Say (s : string)
| SayExn (s : string) (e : exn).

(** The remote server answers a request as a function of the exchanges
    before it, which [log] keeps in order; the file system is a path-indexed
    list of texts. *)
Record World : Type := {
  transport : list (request * response) -> request -> response;
  can_write : string -> bool;
  files : list (string * string);
  log : list (request * response);
  calls : list call;
  out : list line
}.

Definition M (A : Type) : Type := World -> res A * World.

Definition ret {A} (a : A) : M A := fun w => (Ok a, w).
Definition raise {A} (e : exn) : M A := fun w => (Raise e, w).
Definition bind {A B} (m : M A) (k : A -> M B) : M B :=
  fun w => match m w with
           | (Ok a, w') => k a w'
           | (Raise e, w') => (Raise e, w')
           end.
(** [try: m except Exception as e: h e] *)
Definition try_except {A} (m : M A) (h : exn -> M A) : M A :=
  fun w => match m w with
           | (Ok a, w') => (Ok a, w')
           | (Raise e, w') => h e w'
           end.

Declare Scope monad_scope.
Delimit Scope monad_scope with monad.
Notation "x <- m ;; k" := (bind m (fun x => k))
  (at level 61, m at next level, right associativity) : monad_scope.
Notation "m ;; k" := (bind m (fun _ => k))
  (at level 61, right associativity) : monad_scope.
Open Scope monad_scope.

Definition print (s : string) : M unit :=
  fun w => (Ok tt, {| transport := transport w; can_write := can_write w;
                      files := files w; log := log w; calls := calls w;
                      out := out w ++ [Say s] |}).
Definition print_exn (s : string) (e : exn) : M unit :=
  fun w => (Ok tt, {| transport := transport w; can_write := can_write w;
                      files := files w; log := log w; calls := calls w;
                      out := out w ++ [SayExn s e] |}).
Definition enter (c : call) : M unit :=
  fun w => (Ok tt, {| transport := transport w; can_write := can_write w;
                      files := files w; log := log w; calls := calls w ++ [c];
                      out := out w |}).
Definition send (r : request) : M response :=
  fun w => (Ok (transport w (log w) r),
            {| transport := transport w; can_write := can_write w;
               files := files w; log := log w ++ [(r, transport w (log w) r)]; calls := calls w;
               out := out w |}).

Definition lift {A} (r : res A) : M A := fun w => (r, w).

(** [for x in j]: the items a [for] loop visits, or [TypeError] *)
Definition py_iter (j : json) : res (list json) :=
  match j with
  | JList l => Ok l
  | JStr s => Ok (map (fun c => JStr (String c "")) (list_ascii_of_string s))
  | JObj o => Ok (map (fun kv => JStr (fst kv)) o)
  | _ => Raise TypeError
  end.

(** [j[k]] for a string key [k] *)
Definition subscript (j : json) (k : string) : res json :=
  match j with
  | JObj o => match lookup k o with
              | Some v => Ok v
              | None => Raise (KeyError k)
              end
  | _ => Raise TypeError
  end.

(** ** The manager *)

Record ArcGISServerManager : Type := {
  server_url : string;
  username : string;
  password : string;
  token : option string;
  excluded_folders : list string
}.

Fixpoint rstrip_slash (s : string) : string :=
  match s with
  | EmptyString => ""
  | String c r =>
      match rstrip_slash r with
      | EmptyString => if Ascii.eqb c "/" then "" else String c ""
      | r' => String c r'
      end
  end.

(** [__init__] *)
Definition init (url user pw : string) : ArcGISServerManager :=
  {| server_url := rstrip_slash url;
     username := user;
     password := pw;
     token := None;
     excluded_folders := ["Hosted"; "System"; "Utilities"] |}.

(** [f in self.excluded_folders]: hashing a list or a dict raises; a value
    that is not a string equals none of the folder names. *)
Definition in_excluded (self : ArcGISServerManager) (f : json) : res bool :=
  match f with
  | JList _ | JObj _ => Raise TypeError
  | JStr s => Ok (existsb (String.eqb s) (excluded_folders self))
  | _ => Ok false
  end.

(** [_make_request]: [None] is a failed request. The message of an [error]
    payload is read with [.get], which only a dict has. *)
Definition _make_request (self : ArcGISServerManager) (endpoint : string)
    (data : list (string * form_value)) (meth : method) : M (option dict) :=
  match token self with
  | None | Some EmptyString =>
      print "Not authenticated. Call authenticate() first." ;;
      ret None
  | Some tok =>
      let url := server_url self ++ "/arcgis/admin/" ++ endpoint in
      let request_data := set_item "f" (Text "json") (set_item "token" (Text tok) data) in
      resp <- send {| r_method := meth; r_url := url; r_params := request_data |} ;;
      match resp with
      | Failed e => print ("Request failed: " ++ e) ;; ret None
      | Body result =>
          if has_key "error" result then
            msg <- lift (match lookup "error" result with
                         | Some (JObj o) => Ok (get_default "message" (JStr "Unknown error") o)
                         | _ => Raise AttributeError
                         end) ;;
            print ("API Error: " ++ py_str msg) ;;
            ret None
          else ret (Some result)
      end
  end.

(** The body of [for service in ...: services.append({...})] *)
Fixpoint tag_services (f : json) (entries : list json) : res (list service) :=
  match entries with
  | [] => Ok []
  | e :: r =>
      match subscript e "serviceName" with
      | Raise x => Raise x
      | Ok n =>
          match subscript e "type" with
          | Raise x => Raise x
          | Ok t =>
              match tag_services f r with
              | Raise x => Raise x
              | Ok l => Ok ({| folder := f; name := n; type := t |} :: l)
              end
          end
      end
  end.

(** The services a listing document reports, tagged with folder [f] *)
Definition listed (f : json) (result : option dict) : res (list service) :=
  match result with
  | Some d =>
      match lookup "services" d with
      | Some v => match py_iter v with
                  | Ok entries => tag_services f entries
                  | Raise x => Raise x
                  end
      | None => Ok []
      end
  | None => Ok []
  end.

Fixpoint get_folder_services (self : ArcGISServerManager) (folders : list json)
    (services : list service) : M (list service) :=
  match folders with
  | [] => ret services
  | f :: r =>
      folder_result <- _make_request self ("services/" ++ py_str f) [] GET ;;
      more <- lift (listed f folder_result) ;;
      get_folder_services self r (services ++ more)
  end.

Definition get_services (self : ArcGISServerManager) : M (list service) :=
  result <- _make_request self "services" [] GET ;;
  services <- lift (listed (JStr "") result) ;;
  match result with
  | Some d =>
      match lookup "folders" d with
      | Some v =>
          folders <- lift (py_iter v) ;;
          get_folder_services self folders services
      | None => ret services
      end
  | None => ret services
  end.

(** [services/{folder}/{name}.{type}{suffix}], without the folder segment
    when the folder is falsy *)
Definition endpoint_of (s : service) (suffix : string) : string :=
  if truthy (folder s)
  then "services/" ++ py_str (folder s) ++ "/" ++ py_str (name s) ++ "." ++ py_str (type s) ++ suffix
  else "services/" ++ py_str (name s) ++ "." ++ py_str (type s) ++ suffix.

(** [result is not None and result.get('status') == 'success'] *)
Definition reports_success (result : option dict) : bool :=
  match result with
  | Some d => match lookup "status" d with
              | Some (JStr s) => String.eqb s "success"
              | _ => false
              end
  | None => false
  end.

Definition get_service_details (self : ArcGISServerManager) (s : service)
  : M (option dict) :=
  enter (CallDetails s) ;;
  _make_request self (endpoint_of s "") [] GET.

Definition start_service (self : ArcGISServerManager) (s : service) : M bool :=
  enter (CallStart s) ;;
  result <- _make_request self (endpoint_of s "/start") [] POST ;;
  ret (reports_success result).

Definition stop_service (self : ArcGISServerManager) (s : service) : M bool :=
  enter (CallStop s) ;;
  result <- _make_request self (endpoint_of s "/stop") [] POST ;;
  ret (reports_success result).

Definition readonly_props : list string :=
  ["status"; "configuredState"; "realTimeState"; "extensions"].

(** The document [update_service_instances] puts in the edit request *)
Definition edit_payload (service_details : dict) (min_instances max_instances : Z) : dict :=
  fold_left (fun d prop => pop prop d) readonly_props
    (set_item "maxInstancesPerNode" (JInt max_instances)
       (set_item "minInstancesPerNode" (JInt min_instances) service_details)).

Definition update_service_instances (self : ArcGISServerManager) (s : service)
    (min_instances max_instances : Z) : M bool :=
  enter (CallUpdate s min_instances max_instances) ;;
  service_details <- get_service_details self s ;;
  match service_details with
  | None | Some [] => ret false
  | Some d =>
      let edit_data := [("service", JsonText (edit_payload d min_instances max_instances))] in
      result <- _make_request self (endpoint_of s "/edit") edit_data POST ;;
      ret (reports_success result)
  end.

(** ** Files *)

Definition set_files (w : World) (f : list (string * string)) : World :=
  {| transport := transport w; can_write := can_write w; files := f;
     log := log w; calls := calls w; out := out w |}.

(** [open(path, 'w', newline='', encoding='utf-8')]: truncates *)
Definition open_write (path : string) : M unit :=
  fun w => if can_write w path
           then (Ok tt, set_files w (set_item path "" (files w)))
           else (Raise OSError, w).

(** [csvfile.write(text)]; with [newline=''] the text goes out as it is *)
Definition write (path text : string) : M unit :=
  fun w => (Ok tt, set_files w (set_item path (get_default path "" (files w) ++ text) (files w))).

(** ** The [csv] module, dialect [excel]: delimiter [,], quote character
    the double quote, [doublequote], [QUOTE_MINIMAL], line terminator CR LF,
    no escape character, not strict. *)

Definition delimiter : ascii := ","%char.

(** A field is quoted when it holds the delimiter, the quote character or a
    character of the line terminator. *)
Fixpoint field_quoted (s : string) : bool :=
  match s with
  | EmptyString => false
  | String c r =>
      Ascii.eqb c delimiter || Ascii.eqb c quote_char || Ascii.eqb c CR || Ascii.eqb c LF
      || field_quoted r
  end.

Fixpoint double_quotes (s : string) : string :=
  match s with
  | EmptyString => ""
  | String c r =>
      if Ascii.eqb c quote_char then String c (String c (double_quotes r))
      else String c (double_quotes r)
  end.

Definition write_field (s : string) : string :=
  if field_quoted s
  then String quote_char (double_quotes s ++ String quote_char "")
  else s.

(** The text the writer gives a cell: nothing for [None], [str] otherwise *)
Definition csv_text (j : json) : string :=
  match j with
  | JNull => ""
  | _ => py_str j
  end.

(** [writer.writerow]: a record that is one empty field is written quoted *)
Definition record_text (cells : list json) : string :=
  match cells with
  | [c] => if String.eqb (csv_text c) ""
           then String quote_char (String quote_char CRLF)
           else write_field (csv_text c) ++ CRLF
  | _ => join "," (map (fun c => write_field (csv_text c)) cells) ++ CRLF
  end.

(** [DictWriter.writerow], with [restval=''] and [extrasaction='raise'] *)
Definition DictWriter_writerow (path : string) (fieldnames : list string)
    (rowdict : dict) : M unit :=
  if forallb (fun kv => existsb (String.eqb (fst kv)) fieldnames) rowdict
  then
    let cells := map (fun k => get_default k (JStr "") rowdict) fieldnames in
    enter (CallWriteRow cells) ;;
    write path (record_text cells)
  else raise ValueError.

Definition DictWriter_writeheader (path : string) (fieldnames : list string) : M unit :=
  write path (record_text (map JStr fieldnames)).

(** ** save *)

Definition fieldnames : list string :=
  ["folder"; "service_name"; "service_type"; "configured_state";
   "min_instances"; "max_instances"].

(** [f"{folder}/{name}.{type}"] *)
Definition slash_path (s : service) : string :=
  py_str (folder s) ++ "/" ++ py_str (name s) ++ "." ++ py_str (type s).

(** The row [save_services_state] hands to the writer *)
Definition snapshot_row (s : service) (details : dict) : dict :=
  [("folder", folder s);
   ("service_name", name s);
   ("service_type", type s);
   ("configured_state", get_default "configuredState" (JStr "STOPPED") details);
   ("min_instances", get_default "minInstancesPerNode" (JInt 1) details);
   ("max_instances", get_default "maxInstancesPerNode" (JInt 1) details)].

(** The [for service in services] loop of [save_services_state] *)
Fixpoint save_loop (self : ArcGISServerManager) (output_file : string)
    (services : list service) (skipped_count : Z) : M Z :=
  match services with
  | [] => ret skipped_count
  | s :: rest =>
      excluded <- lift (in_excluded self (folder s)) ;;
      if excluded then
        print ("Skipping excluded service: " ++ slash_path s) ;;
        save_loop self output_file rest (skipped_count + 1)
      else
        details <- get_service_details self s ;;
        match details with
        | None | Some [] => save_loop self output_file rest skipped_count
        | Some d =>
            DictWriter_writerow output_file fieldnames (snapshot_row s d) ;;
            print ("Saved: " ++ slash_path s) ;;
            save_loop self output_file rest skipped_count
        end
  end.

Definition save_services_state (self : ArcGISServerManager) (output_file : string)
  : M bool :=
  services <- get_services self ;;
  match services with
  | [] =>
      print "No services found or failed to retrieve services" ;;
      ret false
  | _ =>
      try_except
        (open_write output_file ;;
         DictWriter_writeheader output_file fieldnames ;;
         save_loop self output_file services 0 ;;
         print ("Service states saved to " ++ output_file) ;;
         ret true)
        (fun e =>
           print_exn "Failed to save services state: " e ;;
           ret false)
  end.

(** ** stop-all-but-one *)

(** [service_path] of [stop_all_except_one] and [restore_services_state] *)
Definition service_path (s : service) : string :=
  if truthy (folder s)
  then py_str (folder s) ++ "/" ++ py_str (name s) ++ "." ++ py_str (type s)
  else py_str (name s) ++ "." ++ py_str (type s).

(** [service['name'] == keep_service] *)
Definition name_is (s : service) (keep_service : string) : bool :=
  match name s with
  | JStr n => String.eqb n keep_service
  | _ => false
  end.

(** The [for service in services] loop of [stop_all_except_one]; its state
    is [(kept_service_found, skipped_count)]. *)
Fixpoint stop_loop (self : ArcGISServerManager) (keep_service : string)
    (services : list service) (kept_service_found : bool) (skipped_count : Z)
  : M (bool * Z) :=
  match services with
  | [] => ret (kept_service_found, skipped_count)
  | s :: rest =>
      excluded <- lift (in_excluded self (folder s)) ;;
      if excluded then
        print ("Skipping excluded service: " ++ slash_path s) ;;
        stop_loop self keep_service rest kept_service_found (skipped_count + 1)
      else if name_is s keep_service then
        print ("Keeping service running: " ++ service_path s) ;;
        updated <- update_service_instances self s 1 1 ;;
        (if updated
         then print ("Updated instances to 1/1 for " ++ service_path s)
         else print ("Failed to update instances for " ++ service_path s)) ;;
        started <- start_service self s ;;
        (if started
         then print ("Started service: " ++ service_path s)
         else print ("Failed to start service: " ++ service_path s)) ;;
        stop_loop self keep_service rest true skipped_count
      else
        stopped <- stop_service self s ;;
        (if stopped
         then print ("Stopped service: " ++ service_path s)
         else print ("Failed to stop service: " ++ service_path s)) ;;
        stop_loop self keep_service rest kept_service_found skipped_count
  end.

Definition stop_all_except_one (self : ArcGISServerManager) (keep_service : string)
  : M bool :=
  services <- get_services self ;;
  match services with
  | [] =>
      print "No services found or failed to retrieve services" ;;
      ret false
  | _ =>
      found <- stop_loop self keep_service services false 0 ;;
      if fst found then
        print "Service shutdown complete" ;;
        ret true
      else
        print ("Warning: Service '" ++ keep_service ++ "' not found!") ;;
        ret false
  end.

(** ** Reading the snapshot *)

(** [open(path, 'r', encoding='utf-8')] and reading the text: without
    [newline=''] the file is in universal-newlines mode, and CR LF and a
    lone CR both arrive as LF. *)
Fixpoint translate_newlines (s : string) : string :=
  match s with
  | EmptyString => ""
  | String c r =>
      if Ascii.eqb c CR then
        match r with
        | String d r' =>
            if Ascii.eqb d LF then String LF (translate_newlines r')
            else String LF (translate_newlines r)
        | EmptyString => String LF ""
        end
      else String c (translate_newlines r)
  end.

Definition open_read (path : string) : M string :=
  fun w => match lookup path (files w) with
           | Some text => (Ok (translate_newlines text), w)
           | None => (Raise FileNotFoundError, w)
           end.

(** The lines a text file iterates over, each with its LF (the last one
    may lack it) *)
Fixpoint file_lines (text : string) : list string :=
  match text with
  | EmptyString => []
  | String c r =>
      if Ascii.eqb c LF then String c "" :: file_lines r
      else match file_lines r with
           | [] => [String c ""]
           | l :: ls => String c l :: ls
           end
  end.

(** The parser of [csv.reader]. The states that follow an escape character
    are left out: the dialect has none. *)
Inductive parser_state : Type :=
| START_RECORD
| START_FIELD
| IN_FIELD
| IN_QUOTED_FIELD
| QUOTE_IN_QUOTED_FIELD
| EAT_CRNL.

(** [field] is the buffer of the field being read, last character first. *)
Record Reader : Type := {
  state : parser_state;
  fields : list string;
  field : list ascii;
  field_len : N
}.

Definition field_limit : N := 131072.

Definition parse_reset : Reader :=
  {| state := START_RECORD; fields := []; field := []; field_len := 0 |}.

Definition set_state (r : Reader) (st : parser_state) : Reader :=
  {| state := st; fields := fields r; field := field r; field_len := field_len r |}.

Definition parse_save_field (r : Reader) : Reader :=
  {| state := state r;
     fields := fields r ++ [string_of_list_ascii (rev_append (field r) [])];
     field := [];
     field_len := 0 |}.

(** The limit is on the characters of a field, one for each character of
    ASCII text. *)
Definition parse_add_char (r : Reader) (c : ascii) : res Reader :=
  if (field_limit <=? field_len r)%N then Raise CsvError
  else Ok {| state := state r; fields := fields r;
             field := c :: field r; field_len := field_len r + 1 |}.

Definition is_newline (c : ascii) : bool := Ascii.eqb c LF || Ascii.eqb c CR.

(** [parse_process_char]; [None] is the end of a line *)
Definition start_field (r : Reader) (c : option ascii) : res Reader :=
  match c with
  | None => Ok (set_state (parse_save_field r) START_RECORD)
  | Some ch =>
      if is_newline ch then Ok (set_state (parse_save_field r) EAT_CRNL)
      else if Ascii.eqb ch quote_char then Ok (set_state r IN_QUOTED_FIELD)
      else if Ascii.eqb ch delimiter then Ok (parse_save_field r)
      else match parse_add_char r ch with
           | Ok r' => Ok (set_state r' IN_FIELD)
           | Raise e => Raise e
           end
  end.

Definition parse_process_char (r : Reader) (c : option ascii) : res Reader :=
  match state r with
  | START_RECORD =>
      match c with
      | None => Ok r
      | Some ch =>
          if is_newline ch then Ok (set_state r EAT_CRNL)
          else start_field (set_state r START_FIELD) c
      end
  | START_FIELD => start_field r c
  | IN_FIELD =>
      match c with
      | None => Ok (set_state (parse_save_field r) START_RECORD)
      | Some ch =>
          if is_newline ch then Ok (set_state (parse_save_field r) EAT_CRNL)
          else if Ascii.eqb ch delimiter then Ok (set_state (parse_save_field r) START_FIELD)
          else parse_add_char r ch
      end
  | IN_QUOTED_FIELD =>
      match c with
      | None => Ok r
      | Some ch =>
          if Ascii.eqb ch quote_char then Ok (set_state r QUOTE_IN_QUOTED_FIELD)
          else parse_add_char r ch
      end
  | QUOTE_IN_QUOTED_FIELD =>
      match c with
      | None => Ok (set_state (parse_save_field r) START_RECORD)
      | Some ch =>
          if Ascii.eqb ch quote_char then
            match parse_add_char r ch with
            | Ok r' => Ok (set_state r' IN_QUOTED_FIELD)
            | Raise e => Raise e
            end
          else if Ascii.eqb ch delimiter then Ok (set_state (parse_save_field r) START_FIELD)
          else if is_newline ch then Ok (set_state (parse_save_field r) EAT_CRNL)
          else match parse_add_char r ch with
               | Ok r' => Ok (set_state r' IN_FIELD)
               | Raise e => Raise e
               end
      end
  | EAT_CRNL =>
      match c with
      | None => Ok (set_state r START_RECORD)
      | Some ch => if is_newline ch then Ok r else Raise CsvError
      end
  end.

(** One line: its characters, then the end of the line *)
Fixpoint process_line (r : Reader) (l : string) : res Reader :=
  match l with
  | EmptyString => parse_process_char r None
  | String c rest =>
      match parse_process_char r (Some c) with
      | Ok r' => process_line r' rest
      | Raise e => Raise e
      end
  end.

Definition at_start (r : Reader) : bool :=
  match state r with START_RECORD => true | _ => false end.

Definition in_quoted (r : Reader) : bool :=
  match state r with IN_QUOTED_FIELD => true | _ => false end.

(** The records successive [next(reader)] calls give, up to the end of the
    input or the first error. A record takes lines until the parser is back
    at [START_RECORD]; at the end of the input an unfinished record is
    given as it stands. *)
Fixpoint read_records (r : Reader) (lines : list string) : list (res (list string)) :=
  match lines with
  | [] =>
      if negb (field_len r =? 0)%N || in_quoted r
      then [Ok (fields (parse_save_field r))]
      else []
  | l :: rest =>
      match process_line r l with
      | Raise e => [Raise e]
      | Ok r' =>
          if at_start r' then Ok (fields r') :: read_records parse_reset rest
          else read_records r' rest
      end
  end.

Definition csv_reader (text : string) : list (res (list string)) :=
  read_records parse_reset (file_lines text).

(** [dict(zip(fieldnames, row))], then [restval = None] for the field names
    the row is too short for. (The surplus cells of a longer row go under
    the key [None], which no lookup below uses.) *)
Fixpoint zip_row (names : list string) (row : list string) (d : dict) : dict :=
  match names, row with
  | k :: names', v :: row' => zip_row names' row' (set_item k (JStr v) d)
  | _, [] => fold_left (fun d k => set_item k JNull d) names d
  | [], _ => d
  end.

Definition row_dict (names row : list string) : dict := zip_row names row [].

(** [row[k]] *)
Definition row_item (row : dict) (k : string) : res json :=
  match lookup k row with
  | Some v => Ok v
  | None => Raise (KeyError k)
  end.

(** ** [int(s)], base 10, on ASCII text: blanks around (the codes 9 to 13
    and 32), a sign, digits with single underscores between them, and no
    more than 4300 digits. *)

Definition is_space (c : ascii) : bool :=
  let n := N_of_ascii c in
  (((9 <=? n) && (n <=? 13)) || (n =? 32))%N.

Fixpoint lstrip (s : string) : string :=
  match s with
  | EmptyString => ""
  | String c r => if is_space c then lstrip r else s
  end.

Fixpoint rstrip (s : string) : string :=
  match s with
  | EmptyString => ""
  | String c r =>
      match rstrip r with
      | EmptyString => if is_space c then "" else String c ""
      | r' => String c r'
      end
  end.

Definition digit_value (c : ascii) : option Z :=
  let n := N_of_ascii c in
  if ((48 <=? n) && (n <=? 57))%N then Some (Z.of_N n - 48) else None.

Fixpoint parse_digits (acc : Z) (after_digit : bool) (s : string) : option Z :=
  match s with
  | EmptyString => if after_digit then Some acc else None
  | String c r =>
      match digit_value c with
      | Some d => parse_digits (10 * acc + d) true r
      | None =>
          if Ascii.eqb c "_" && after_digit then parse_digits acc false r
          else None
      end
  end.

(** [sys.int_info.default_max_str_digits] *)
Definition max_str_digits : N := 4300.

(** The digits of a text, leading zeros among them *)
Fixpoint count_digits (s : string) : N :=
  match s with
  | EmptyString => 0%N
  | String c r =>
      match digit_value c with
      | Some _ => (1 + count_digits r)%N
      | None => count_digits r
      end
  end.

Definition int_of_text (s : string) : option Z :=
  let t := rstrip (lstrip s) in
  if (max_str_digits <? count_digits t)%N then None
  else
    match t with
    | String "-" r => option_map Z.opp (parse_digits 0 false r)
    | String "+" r => parse_digits 0 false r
    | _ => parse_digits 0 false t
    end.

(** [int(v)] for a cell of a row: [None] is a [TypeError] *)
Definition py_int (v : json) : res Z :=
  match v with
  | JStr s => match int_of_text s with
              | Some n => Ok n
              | None => Raise ValueError
              end
  | JInt n => Ok n
  | JBool b => Ok (if b then 1 else 0)
  | _ => Raise TypeError
  end.

(** [str.upper()] of ASCII text *)
Definition upper_char (c : ascii) : ascii :=
  let n := N_of_ascii c in
  if ((97 <=? n) && (n <=? 122))%N then ascii_of_N (n - 32) else c.

Fixpoint upper (s : string) : string :=
  match s with
  | EmptyString => ""
  | String c r => String (upper_char c) (upper r)
  end.

(** [configured_state.upper() == 'STARTED'] (ASCII case mapping) *)
Definition is_started (configured_state : json) : res bool :=
  match configured_state with
  | JStr s => Ok (String.eqb (upper s) "STARTED")
  | _ => Raise AttributeError
  end.

(** ** restore *)

(** A row of the snapshot as [restore_services_state] reads it *)
Record SnapshotRecord : Type := {
  row_service : service;
  configured_state : json;
  min_instances : Z;
  max_instances : Z
}.

(** The first six statements of the loop body *)
Definition decode_row (row : dict) : res SnapshotRecord :=
  match row_item row "folder" with
  | Raise e => Raise e
  | Ok f =>
  match row_item row "service_name" with
  | Raise e => Raise e
  | Ok n =>
  match row_item row "service_type" with
  | Raise e => Raise e
  | Ok t =>
  match row_item row "configured_state" with
  | Raise e => Raise e
  | Ok cs =>
  match row_item row "min_instances" with
  | Raise e => Raise e
  | Ok mn =>
  match py_int mn with
  | Raise e => Raise e
  | Ok min_i =>
  match row_item row "max_instances" with
  | Raise e => Raise e
  | Ok mx =>
  match py_int mx with
  | Raise e => Raise e
  | Ok max_i =>
      Ok {| row_service := {| folder := f; name := n; type := t |};
            configured_state := cs;
            min_instances := min_i;
            max_instances := max_i |}
  end end end end end end end end.

(** The rest of the loop body, for a decoded row; the counters are
    [(restored_count, skipped_count)]. *)
Definition restore_row (self : ArcGISServerManager) (rec : SnapshotRecord)
    (counts : Z * Z) : M (Z * Z) :=
  let s := row_service rec in
  excluded <- lift (in_excluded self (folder s)) ;;
  if excluded then
    print ("Skipping excluded service: " ++ slash_path s) ;;
    ret (fst counts, snd counts + 1)
  else
    updated <- update_service_instances self s (min_instances rec) (max_instances rec) ;;
    if updated then
      print ("Updated instances for " ++ service_path s ++ ": "
             ++ str_of_Z (min_instances rec) ++ "/" ++ str_of_Z (max_instances rec)) ;;
      started <- lift (is_started (configured_state rec)) ;;
      if started then
        ok <- start_service self s ;;
        if ok then print ("Started service: " ++ service_path s) ;; ret (fst counts + 1, snd counts)
        else print ("Failed to start service: " ++ service_path s) ;; ret counts
      else
        ok <- stop_service self s ;;
        if ok then print ("Stopped service: " ++ service_path s) ;; ret (fst counts + 1, snd counts)
        else print ("Failed to stop service: " ++ service_path s) ;; ret counts
    else
      print ("Failed to update instances for " ++ service_path s) ;;
      ret counts.

(** [for row in reader]: the reader is read as the loop goes, so an error in
    a record is met after the rows before it were carried out. Empty records
    are passed over by [DictReader]. *)
Fixpoint restore_loop (self : ArcGISServerManager) (names : list string)
    (records : list (res (list string))) (counts : Z * Z) : M (Z * Z) :=
  match records with
  | [] => ret counts
  | Raise e :: _ => raise e
  | Ok [] :: rest => restore_loop self names rest counts
  | Ok row :: rest =>
      rec <- lift (decode_row (row_dict names row)) ;;
      counts' <- restore_row self rec counts ;;
      restore_loop self names rest counts'
  end.

(** [DictReader]: the first record is the field names *)
Definition restore_rows (self : ArcGISServerManager)
    (records : list (res (list string))) : M (Z * Z) :=
  match records with
  | [] => ret (0, 0)
  | Raise e :: _ => raise e
  | Ok names :: rest => restore_loop self names rest (0, 0)
  end.

(** [excluded_folders] is a Python set: the order in which the last line
    joins its members is that of the set's iteration, which the language
    leaves open; the line is printed here in the order of the list, and no
    property below depends on its text. *)
Definition restore_services_state (self : ArcGISServerManager) (input_file : string)
  : M bool :=
  try_except
    (text <- open_read input_file ;;
     counts <- restore_rows self (csv_reader text) ;;
     print ("Service restoration complete (" ++ str_of_Z (fst counts)
            ++ " services restored, " ++ str_of_Z (snd counts) ++ " services skipped)") ;;
     (if 0 <? snd counts
      then print ("Excluded folders: " ++ join ", " (excluded_folders self))
      else ret tt) ;;
     ret true)
    (fun e =>
       match e with
       | FileNotFoundError =>
           print ("Input file '" ++ input_file ++ "' not found") ;;
           ret false
       | _ =>
           print_exn "Failed to restore services state: " e ;;
           ret false
       end).

(** ** authenticate and main *)

(** [authenticate]: [Some tok] is the result [True] with [self.token = tok],
    [None] the result [False] with the token as it was. Only
    [requests.RequestException] is caught; the message of an [error] member
    is read with [.get], which only a dict has. *)
Definition authenticate (self : ArcGISServerManager) : M (option json) :=
  let auth_url := server_url self ++ "/arcgis/admin/generateToken" in
  let auth_data := [("username", Text (username self));
                    ("password", Text (password self));
                    ("client", Text "requestip");
                    ("f", Text "json")] in
  resp <- send {| r_method := POST; r_url := auth_url; r_params := auth_data |} ;;
  match resp with
  | Failed e => print ("Authentication request failed: " ++ e) ;; ret None
  | Body result =>
      if has_key "token" result then
        tok <- lift (subscript (JObj result) "token") ;;
        print "Authentication successful" ;;
        ret (Some tok)
      else
        msg <- lift (match get_default "error" (JObj []) result with
                     | JObj o => Ok (get_default "message" (JStr "Unknown error") o)
                     | _ => Raise AttributeError
                     end) ;;
        print ("Authentication failed: " ++ py_str msg) ;;
        ret None
  end.

(** The manager after [self.token = tok]. The record keeps a token as
    [_make_request] uses it: none for a value that [not self.token] rejects,
    else the text sent for it, which is the value itself for a text and its
    [str] for a number or [True]. (A non-empty array or object would be sent
    as a repeated parameter, which a request here does not hold; nothing
    below is stated for such a token.) *)
Definition set_token (self : ArcGISServerManager) (tok : json) : ArcGISServerManager :=
  {| server_url := server_url self;
     username := username self;
     password := password self;
     token := if truthy tok then Some (py_str tok) else None;
     excluded_folders := excluded_folders self |}.

(** The parsed command line: argparse admits the three subcommands, each
    with its required options. *)
Inductive command : Type :=
| Save (output : string)
| Stop (keep_service : string)
| Restore (input : string).

Record Args : Type := {
  arg_command : command;
  arg_server : string;
  arg_username : string;
  arg_password : string
}.

(** [success = manager.<workflow>(...)] for the command *)
Definition run_command (manager : ArcGISServerManager) (c : command) : M bool :=
  match c with
  | Save output => save_services_state manager output
  | Stop keep_service => stop_all_except_one manager keep_service
  | Restore input => restore_services_state manager input
  end.

(** [main] from the parsed arguments on, for a command line that names a
    command; the result is the exit status. *)
Definition main (args : Args) : M Z :=
  let manager := init (arg_server args) (arg_username args) (arg_password args) in
  issued <- authenticate manager ;;
  match issued with
  | None =>
      print "Authentication failed" ;;
      ret 1%Z
  | Some tok =>
      success <- run_command (set_token manager tok) (arg_command args) ;;
      ret (if success then 0%Z else 1%Z)
  end.

(** * Vocabulary of the properties, and the servers of the examples *)

Open Scope list_scope.
Unset Implicit Arguments.

(** What a step leaves alone: the server and the file permissions *)
Definition same_env (w w' : World) : Prop :=
  transport w' = transport w /\ can_write w' = can_write w.

(** A manager that holds a token *)
Definition authenticated (self : ArcGISServerManager) : Prop :=
  match token self with
  | Some (String _ _) => True
  | _ => False
  end.

Definition the_token (self : ArcGISServerManager) : string :=
  match token self with Some t => t | None => "" end.

(** The request [_make_request] sends, and what it makes of the response *)
Definition request_of (self : ArcGISServerManager) (endpoint : string)
    (data : list (string * form_value)) (meth : method) : request :=
  {| r_method := meth;
     r_url := (server_url self ++ "/arcgis/admin/" ++ endpoint)%string;
     r_params := set_item "f" (Text "json") (set_item "token" (Text (the_token self)) data) |}.

Definition result_of (resp : response) : res (option dict) :=
  match resp with
  | Failed _ => Ok None
  | Body d =>
      if has_key "error" d then
        match lookup "error" d with
        | Some (JObj _) => Ok None
        | _ => Raise AttributeError
        end
      else Ok (Some d)
  end.

(** [reports_success] of what [_make_request] makes of a response *)
Definition status_of (resp : response) : res bool :=
  match result_of resp with
  | Ok result => Ok (reports_success result)
  | Raise e => Raise e
  end.

(** The edit request for a record [d] read from the server *)
Definition edit_request (self : ArcGISServerManager) (s : service) (d : dict)
    (mn mx : Z) : request :=
  request_of self (endpoint_of s "/edit")
    [("service", JsonText (edit_payload d mn mx))] POST.

(** A server for the examples: it answers by URL, whatever came before. *)
Definition table_server (table : list (string * response))
  : list (request * response) -> request -> response :=
  fun _ r => get_default (r_url r) (Failed "404 Client Error") table.

Definition example_manager : ArcGISServerManager :=
  {| server_url := "https://gis:6443";
     username := "admin";
     password := "secret";
     token := Some "T0K3N";
     excluded_folders := ["Hosted"; "System"; "Utilities"] |}.

Definition listing_entry (n t : string) : json :=
  JObj [("serviceName", JStr n); ("type", JStr t)].

Definition success : response := Body [("status", JStr "success")].

(** root/Parcels.MapServer (STARTED, 2, 4) and Hosted/X.FeatureServer *)
Definition parcels_table : list (string * response) :=
  [("https://gis:6443/arcgis/admin/services",
    Body [("folders", JList [JStr "Hosted"]);
          ("services", JList [listing_entry "Parcels" "MapServer"])]);
   ("https://gis:6443/arcgis/admin/services/Hosted",
    Body [("services", JList [listing_entry "X" "FeatureServer"])]);
   ("https://gis:6443/arcgis/admin/services/Parcels.MapServer",
    Body [("serviceName", JStr "Parcels");
          ("type", JStr "MapServer");
          ("configuredState", JStr "STARTED");
          ("minInstancesPerNode", JInt 2);
          ("maxInstancesPerNode", JInt 4);
          ("status", JStr "ok");
          ("realTimeState", JStr "STARTED");
          ("extensions", JList [])]);
   ("https://gis:6443/arcgis/admin/services/Parcels.MapServer/edit", success);
   ("https://gis:6443/arcgis/admin/services/Parcels.MapServer/start", success);
   ("https://gis:6443/arcgis/admin/services/Parcels.MapServer/stop", success)].

Definition world_of (table : list (string * response))
    (fs : list (string * string)) : World :=
  {| transport := table_server table;
     can_write := fun _ => true;
     files := fs;
     log := [];
     calls := [];
     out := [] |}.

Definition parcels_world : World := world_of parcels_table [].

Definition parcels : service :=
  {| folder := JStr ""; name := JStr "Parcels"; type := JStr "MapServer" |}.

Definition roads : service :=
  {| folder := JStr ""; name := JStr "Roads"; type := JStr "MapServer" |}.

(** The request that reads a service's record *)
Definition details_request (self : ArcGISServerManager) (s : service) : request :=
  request_of self (endpoint_of s "") [] GET.

Definition parcels_record : dict :=
  [("serviceName", JStr "Parcels");
   ("type", JStr "MapServer");
   ("configuredState", JStr "STARTED");
   ("minInstancesPerNode", JInt 2);
   ("maxInstancesPerNode", JInt 4);
   ("status", JStr "ok");
   ("realTimeState", JStr "STARTED");
   ("extensions", JList [])].

(** The answers the server gives to consecutive requests, from history
    [hist] on *)
Fixpoint replies (t : list (request * response) -> request -> response)
    (hist : list (request * response)) (reqs : list request) : list response :=
  match reqs with
  | [] => []
  | q :: rest => t hist q :: replies t (hist ++ [(q, t hist q)]) rest
  end.

Definition root_request (self : ArcGISServerManager) : request :=
  request_of self "services" [] GET.

Definition folder_request (self : ArcGISServerManager) (f : json) : request :=
  request_of self ("services/" ++ py_str f)%string [] GET.

(** The child folders a listing response reports *)
Definition folders_of (resp : response) : res (list json) :=
  match result_of resp with
  | Ok (Some d) => match lookup "folders" d with
                   | Some v => py_iter v
                   | None => Ok []
                   end
  | Ok None => Ok []
  | Raise e => Raise e
  end.

(** The services a listing response reports, tagged with folder [f] *)
Definition services_of (f : json) (resp : response) : res (list service) :=
  match result_of resp with
  | Ok result => listed f result
  | Raise e => Raise e
  end.

(** The services of a run of folder listings, in order *)
Fixpoint gather (listings : list (json * response)) : res (list service) :=
  match listings with
  | [] => Ok []
  | (f, resp) :: rest =>
      match services_of f resp with
      | Raise e => Raise e
      | Ok l => match gather rest with
                | Raise e => Raise e
                | Ok more => Ok (l ++ more)
                end
      end
  end.

(** A response that reads as a listing *)
Definition listing_ok (resp : response) : Prop :=
  (exists l, services_of (JStr "") resp = Ok l) /\ (exists fs, folders_of resp = Ok fs).

Definition hosted_x : service :=
  {| folder := JStr "Hosted"; name := JStr "X"; type := JStr "FeatureServer" |}.

(** Every answer is a transport failure, an error payload whose [error] is
    an object, or a document without [error]. *)
Definition envelope_ok (t : list (request * response) -> request -> response) : Prop :=
  forall hist req, exists x, result_of (t hist req) = Ok x.

Definition hashable (j : json) : Prop :=
  match j with
  | JList _ | JObj _ => False
  | _ => True
  end.

(** Every answer reads as a listing, and the child folders it names can be
    looked up in a set. *)
Definition well_behaved (t : list (request * response) -> request -> response) : Prop :=
  forall hist req,
    listing_ok (t hist req) /\
    forall fs, folders_of (t hist req) = Ok fs -> Forall hashable fs.

(** [s] is in an excluded folder (a folder that is not hashable raises
    instead) *)
Definition excluded_b (self : ArcGISServerManager) (s : service) : bool :=
  match in_excluded self (folder s) with
  | Ok true => true
  | _ => false
  end.

(** The services a workflow acts on *)
Definition kept (self : ArcGISServerManager) (svcs : list service) : list service :=
  filter (fun s => negb (excluded_b self s)) svcs.

(** [s] is acted on and carries the keeper's name *)
Definition is_keeper (self : ArcGISServerManager) (keep_service : string)
    (s : service) : bool :=
  negb (excluded_b self s) && name_is s keep_service.

Definition stop_request (self : ArcGISServerManager) (s : service) : request :=
  request_of self (endpoint_of s "/stop") [] POST.

(** The cells of the row written for service [s] with record [d] *)
Definition snapshot_cells (s : service) (d : dict) : list json :=
  [folder s; name s; type s;
   get_default "configuredState" (JStr "STOPPED") d;
   get_default "minInstancesPerNode" (JInt 1) d;
   get_default "maxInstancesPerNode" (JInt 1) d].

(** The rows for a run of detail fetches: one for each fetch that gave a
    record, none for the others *)
Fixpoint fetched_rows (fetched : list (service * response)) : list (list json) :=
  match fetched with
  | [] => []
  | (s, resp) :: rest =>
      match result_of resp with
      | Ok (Some (kv :: d)) => snapshot_cells s (kv :: d) :: fetched_rows rest
      | _ => fetched_rows rest
      end
  end.

Definition header_text : string := record_text (map JStr fieldnames).

Definition rows_text (rows : list (list json)) : string :=
  String.concat "" (map record_text rows).

(** A server with Parcels and the unknown Roads in the root folder: the
    detail fetch of Roads fails. *)
Definition two_services_table : list (string * response) :=
  ("https://gis:6443/arcgis/admin/services",
   Body [("folders", JList []);
         ("services", JList [listing_entry "Roads" "MapServer";
                             listing_entry "Parcels" "MapServer"])])
  :: tl parcels_table.

Definition two_services_world : World := world_of two_services_table [].

(** C5 as stated fails: the enumeration succeeds and the
    snapshot file cannot be opened, or the enumeration succeeds and finds no
    service; [save_services_state] returns [False]. *)
Definition read_only_world : World :=
  {| transport := table_server parcels_table;
     can_write := fun _ => false;
     files := [];
     log := [];
     calls := [];
     out := [] |}.

Definition empty_server_world : World :=
  world_of [("https://gis:6443/arcgis/admin/services",
             Body [("folders", JList []); ("services", JList [])])] [].




(** The cells save writes for a record *)
Definition cells_of (r : SnapshotRecord) : list json :=
  [folder (row_service r); name (row_service r); type (row_service r);
   configured_state r; JInt (min_instances r); JInt (max_instances r)].

(** The text of a snapshot: what [save_services_state] leaves in the file *)
Definition encode (records : list SnapshotRecord) : string :=
  (header_text ++ rows_text (map cells_of records))%string.



Definition snapshot_record (f n t cs : string) (mn mx : Z) : SnapshotRecord :=
  {| row_service := {| folder := JStr f; name := JStr n; type := JStr t |};
     configured_state := JStr cs;
     min_instances := mn;
     max_instances := mx |}.


(** Snapshots with the well-formed row of Parcels, alone and after a row
    whose instance count is not an integer or that lacks columns *)
Definition parcels_row : string := (",Parcels,MapServer,STARTED,2,4" ++ CRLF)%string.

Definition good_snapshot : string := (header_text ++ parcels_row)%string.



(** A snapshot that names the excluded Hosted/X.FeatureServer, then Parcels *)
Definition hosted_snapshot : string :=
  (header_text ++ "Hosted,X,FeatureServer,STARTED,1,1" ++ CRLF ++ parcels_row)%string.

Fixpoint digits_value (acc : Z) (d : Decimal.uint) : Z :=
  match d with
  | Decimal.Nil => acc
  | Decimal.D0 l => digits_value (10 * acc + 0) l
  | Decimal.D1 l => digits_value (10 * acc + 1) l
  | Decimal.D2 l => digits_value (10 * acc + 2) l
  | Decimal.D3 l => digits_value (10 * acc + 3) l
  | Decimal.D4 l => digits_value (10 * acc + 4) l
  | Decimal.D5 l => digits_value (10 * acc + 5) l
  | Decimal.D6 l => digits_value (10 * acc + 6) l
  | Decimal.D7 l => digits_value (10 * acc + 7) l
  | Decimal.D8 l => digits_value (10 * acc + 8) l
  | Decimal.D9 l => digits_value (10 * acc + 9) l
  end.

Definition is_digit (c : ascii) : bool :=
  match digit_value c with Some _ => true | None => false end.

Fixpoint all_chars (p : ascii -> bool) (s : string) : bool :=
  match s with
  | EmptyString => true
  | String c r => p c && all_chars p r
  end.

Definition end_of_input (r : Reader) : list (res (list string)) :=
  if negb (field_len r =? 0)%N || in_quoted r
  then [Ok (fields (parse_save_field r))]
  else [].

(** [read_records] over a text whose last line ends with LF: each LF is
    followed by the end-of-line step. *)
Fixpoint stream (r : Reader) (s : string) : list (res (list string)) :=
  match s with
  | EmptyString => end_of_input r
  | String c s' =>
      match parse_process_char r (Some c) with
      | Raise e => [Raise e]
      | Ok r1 =>
          if Ascii.eqb c LF then
            match parse_process_char r1 None with
            | Raise e => [Raise e]
            | Ok r2 =>
                if at_start r2 then Ok (fields r2) :: stream parse_reset s'
                else stream r2 s'
            end
          else stream r1 s'
      end
  end.

(** The text is empty or ends with LF. *)
Fixpoint terminated (s : string) : bool :=
  match s with
  | EmptyString => true
  | String c r =>
      match r with
      | EmptyString => Ascii.eqb c LF
      | _ => terminated r
      end
  end.

Definition mk_reader (st : parser_state) (fs : list string) (buf : list ascii) (n : N)
  : Reader :=
  {| state := st; fields := fs; field := buf; field_len := n |}.

(** The length of a text, as the reader counts it *)
Definition len (s : string) : N := N.of_nat (String.length s).

Definition no_cr (s : string) : bool := negb (mem_char CR s).

(** A text field that goes through the file unchanged: no carriage return,
    and within the reader's field limit *)
Definition field_ok (s : string) : Prop :=
  no_cr s = true /\ (len s <= field_limit)%N.

(** The states a field's text leaves the reader in, before the delimiter or
    the end of the line *)
Definition field_end (st : parser_state) : Prop :=
  st = START_FIELD \/ st = IN_FIELD \/ st = QUOTE_IN_QUOTED_FIELD.

(** The cells of a row, as text *)
Definition row_fields (f n t cs : string) (mn mx : Z) : list string :=
  [f; n; t; cs; str_of_Z mn; str_of_Z mx].

(** A record that goes through the file unchanged *)
Definition snapshot_ok (r : SnapshotRecord) : Prop :=
  exists f n t cs,
    r = snapshot_record f n t cs (min_instances r) (max_instances r) /\
    field_ok f /\ field_ok n /\ field_ok t /\ field_ok cs /\
    0 <= min_instances r <= max_instances r /\
    (len (str_of_Z (min_instances r)) <= field_limit)%N /\
    (len (str_of_Z (max_instances r)) <= field_limit)%N.

(** The translated text of the rows *)
Fixpoint rows_read (rows : list (list string)) : string :=
  match rows with
  | [] => ""
  | fs :: rest => (join "," (map write_field fs) ++ String LF (rows_read rest))%string
  end.

Definition fields_of_record (r : SnapshotRecord) : list string :=
  map csv_text (cells_of r).



(** ** Vocabulary for what a method sends and writes *)

(** The requests of the manager's methods *)
Inductive request_kind : Type :=
| KRoot
| KFolder
| KDetails
| KEdit
| KStart
| KStop.

Definition start_request (self : ArcGISServerManager) (s : service) : request :=
  request_of self (endpoint_of s "/start") [] POST.

Inductive sent_as (self : ArcGISServerManager) : request_kind -> request -> Prop :=
| sent_root : sent_as self KRoot (root_request self)
| sent_folder f : sent_as self KFolder (folder_request self f)
| sent_details s : sent_as self KDetails (details_request self s)
| sent_edit s d mn mx : sent_as self KEdit (edit_request self s d mn mx)
| sent_start s : sent_as self KStart (start_request self s)
| sent_stop s : sent_as self KStop (stop_request self s).

(** [r] is a request of one of [kinds], sent by a manager that holds a
    token *)
Definition allowed (self : ArcGISServerManager) (kinds : list request_kind)
    (r : request) : Prop :=
  authenticated self /\ exists k, In k kinds /\ sent_as self k r.

(** Every run of [m] takes a world to one related to it by [R]. *)
Definition respects (R : World -> World -> Prop) {A} (m : M A) : Prop :=
  forall w, R w (snd (m w)).

(** The log only grows, by exchanges whose requests satisfy [P]. *)
Definition log_grows (P : request -> Prop) (w w' : World) : Prop :=
  exists new, log w' = log w ++ new /\ Forall (fun x => P (fst x)) new.

(** The files look the same through [g]. *)
Definition files_agree {X} (g : list (string * string) -> X) (w w' : World) : Prop :=
  g (files w') = g (files w).

(** A request as [_make_request] builds it: the token and the format marker
    among its parameters, the URL under the server's admin services *)
Definition admin_request (self : ArcGISServerManager) (r : request) : Prop :=
  lookup "token" (r_params r) = Some (Text (the_token self)) /\
  lookup "f" (r_params r) = Some (Text "json") /\
  String.prefix (server_url self ++ "/arcgis/admin/services")%string (r_url r) = true.

(** A manager just built by [__init__]: it holds no token. *)
Definition fresh_manager : ArcGISServerManager :=
  init "https://gis:6443/" "admin" "secret".

(** The calls stop-all-but-one makes for a service it acts on: the keeper
    is set to one instance and started, any other service is stopped. *)
Definition keeper_calls (keep_service : string) (s : service) : list call :=
  if name_is s keep_service
  then [CallUpdate s 1 1; CallDetails s; CallStart s]
  else [CallStop s].

Definition vault : service :=
  {| folder := JStr "Archive"; name := JStr "Parcels"; type := JStr "FeatureServer" |}.

(** Parcels in the root folder and in the folder Archive, and Roads *)
Definition twin_table : list (string * response) :=
  [("https://gis:6443/arcgis/admin/services",
    Body [("folders", JList [JStr "Archive"]);
          ("services", JList [listing_entry "Roads" "MapServer";
                              listing_entry "Parcels" "MapServer"])]);
   ("https://gis:6443/arcgis/admin/services/Archive",
    Body [("services", JList [listing_entry "Parcels" "FeatureServer"])])].

Definition twin_world : World := world_of twin_table [].

(** [configured_state.upper() == 'STARTED'] of a record *)
Definition recorded_started (r : SnapshotRecord) : bool :=
  match configured_state r with
  | JStr s => String.eqb (upper s) "STARTED"
  | _ => false
  end.

(** *** What restore is to do with the records of a snapshot

    Written from the words of the workflow, for records whose fields are
    text: per record, nothing if its folder is excluded; else the record of
    the service is read and, if that gave one, sent back with the recorded
    bounds; only if that edit is answered with success, the service is
    started when the recorded state is STARTED and stopped otherwise. *)

Definition text_of (j : json) : string :=
  match j with
  | JStr s => s
  | _ => ""
  end.

(** [{server_url}/arcgis/admin/services/{folder}/{name}.{type}], without the
    folder part for a service of the root folder *)
Definition service_url (self : ArcGISServerManager) (s : service) : string :=
  (server_url self ++ "/arcgis/admin/services/"
   ++ (if String.eqb (text_of (folder s)) "" then "" else text_of (folder s) ++ "/")
   ++ text_of (name s) ++ "." ++ text_of (type s))%string.

(** A request with the token and the format marker after its own
    parameters *)
Definition signed_request (self : ArcGISServerManager) (meth : method)
    (url : string) (data : list (string * form_value)) : request :=
  {| r_method := meth;
     r_url := url;
     r_params := data ++ [("token", Text (the_token self)); ("f", Text "json")] |}.

(** The record an answer gives: a document that is not empty and has no
    member [error] *)
Definition fetched_record (resp : response) : option dict :=
  match resp with
  | Body (kv :: d) => if has_key "error" (kv :: d) then None else Some (kv :: d)
  | _ => None
  end.

(** The answer reports success: a document without [error] whose [status]
    is the text success *)
Definition succeeded (resp : response) : bool :=
  match resp with
  | Body d =>
      negb (has_key "error" d) &&
      match lookup "status" d with
      | Some (JStr st) => String.eqb st "success"
      | _ => false
      end
  | Failed _ => false
  end.

(** The methods entered and the exchanges made for one record, with the
    server [t] after the exchanges [hist] *)
Definition replay_record (self : ArcGISServerManager)
    (t : list (request * response) -> request -> response)
    (hist : list (request * response)) (r : SnapshotRecord)
  : list call * list (request * response) :=
  let s := row_service r in
  let mn := min_instances r in
  let mx := max_instances r in
  if excluded_b self s then ([], [])
  else
    let get := signed_request self GET (service_url self s) [] in
    let got := t hist get in
    match fetched_record got with
    | None => ([CallUpdate s mn mx; CallDetails s], [(get, got)])
    | Some d =>
        let edit := signed_request self POST (service_url self s ++ "/edit")
                      [("service", JsonText (edit_payload d mn mx))] in
        let edited := t (hist ++ [(get, got)]) edit in
        if succeeded edited then
          let act := signed_request self POST
                       (service_url self s
                        ++ (if recorded_started r then "/start" else "/stop"))
                       [] in
          ([CallUpdate s mn mx; CallDetails s;
            if recorded_started r then CallStart s else CallStop s],
           [(get, got); (edit, edited);
            (act, t (hist ++ [(get, got); (edit, edited)]) act)])
        else ([CallUpdate s mn mx; CallDetails s], [(get, got); (edit, edited)])
    end.

Fixpoint replay (self : ArcGISServerManager)
    (t : list (request * response) -> request -> response)
    (hist : list (request * response)) (records : list SnapshotRecord)
  : list call * list (request * response) :=
  match records with
  | [] => ([], [])
  | r :: rest =>
      let now := replay_record self t hist r in
      let later := replay self t (hist ++ snd now) rest in
      (fst now ++ fst later, snd now ++ snd later)
  end.

(** Roads and Parcels in the root folder; the stop of Roads is answered with
    an [error] member that is a text *)
Definition busy_table : list (string * response) :=
  [("https://gis:6443/arcgis/admin/services",
    Body [("services", JList [listing_entry "Roads" "MapServer";
                              listing_entry "Parcels" "MapServer"])]);
   ("https://gis:6443/arcgis/admin/services/Roads.MapServer/stop",
    Body [("error", JStr "busy")])].

Definition busy_world : World := world_of busy_table [].

(** ** Vocabulary for authenticate and main *)

(** The request [authenticate] sends *)
Definition auth_request (self : ArcGISServerManager) : request :=
  {| r_method := POST;
     r_url := (server_url self ++ "/arcgis/admin/generateToken")%string;
     r_params := [("username", Text (username self));
                  ("password", Text (password self));
                  ("client", Text "requestip");
                  ("f", Text "json")] |}.

(** What [authenticate] makes of the answer: the token, if the document has
    a member [token]. *)
Definition issued (resp : response) : res (option json) :=
  match resp with
  | Failed _ => Ok None
  | Body d =>
      match lookup "token" d with
      | Some tok => Ok (Some tok)
      | None =>
          match lookup "error" d with
          | None | Some (JObj _) => Ok None
          | _ => Raise AttributeError
          end
      end
  end.

(** The manager [main] builds from the arguments *)
Definition manager_of (args : Args) : ArcGISServerManager :=
  init (arg_server args) (arg_username args) (arg_password args).

(** [sys.exit(main())] of a workflow's result *)
Definition exit_status (r : res bool) : res Z :=
  match r with
  | Ok true => Ok 0
  | Ok false => Ok 1
  | Raise e => Raise e
  end.

(** The server of [parcels_table] that also issues the token T0K3N *)
Definition token_table : list (string * response) :=
  ("https://gis:6443/arcgis/admin/generateToken", Body [("token", JStr "T0K3N")])
  :: parcels_table.

(** The same with an empty token *)
Definition empty_token_table : list (string * response) :=
  ("https://gis:6443/arcgis/admin/generateToken", Body [("token", JStr "")])
  :: parcels_table.

Definition save_args : Args :=
  {| arg_command := Save "services.csv";
     arg_server := "https://gis:6443/";
     arg_username := "admin";
     arg_password := "secret" |}.

(** [n] slashes *)
Fixpoint slashes (n : nat) : string :=
  match n with
  | O => ""
  | S m => String "/" (slashes m)
  end.

Fixpoint ends_with_slash (s : string) : bool :=
  match s with
  | EmptyString => false
  | String c r =>
      match r with
      | EmptyString => Ascii.eqb c "/"
      | _ => ends_with_slash r
      end
  end.

(** A server that answers no URL *)
Definition unreachable_world : World := world_of [] [("services.csv", good_snapshot)].

(** The row of Parcels under the header save writes, and under a header with
    the columns in another order and one more column *)
Definition parcels_cells : list string :=
  [""; "Parcels"; "MapServer"; "STARTED"; "2"; "4"].

Definition shuffled_names : list string :=
  ["max_instances"; "min_instances"; "note"; "service_name"; "folder";
   "configured_state"; "service_type"].

Definition shuffled_cells : list string :=
  ["4"; "2"; "checked"; "Parcels"; ""; "STARTED"; "MapServer"].

(** A service of the root folder whose name holds a slash *)
Definition hosted_alias : service :=
  {| folder := JStr ""; name := JStr "Hosted/X"; type := JStr "FeatureServer" |}.

(** The records of an excluded folder, and the others *)
Definition skipped_of (self : ArcGISServerManager) (records : list SnapshotRecord)
  : list SnapshotRecord :=
  filter (fun r => excluded_b self (row_service r)) records.

Definition handled_of (self : ArcGISServerManager) (records : list SnapshotRecord)
  : list SnapshotRecord :=
  filter (fun r => negb (excluded_b self (row_service r))) records.

(** The line restore prints at its end *)
Definition restore_summary (restored skipped : Z) : line :=
  Say ("Service restoration complete (" ++ str_of_Z restored
       ++ " services restored, " ++ str_of_Z skipped ++ " services skipped)")%string.

(** A snapshot with a record of the excluded folder Hosted between two others *)
Definition mixed_records : list SnapshotRecord :=
  [snapshot_record "" "Parcels" "MapServer" "STARTED" 2 4;
   snapshot_record "Hosted" "X" "FeatureServer" "STARTED" 1 1;
   snapshot_record "Transport" "Roads, main" "MapServer" "STOPPED" 0 1].

(** ** ASCII text, and the integers that [str] prints *)

Definition is_ascii (c : ascii) : bool := (N_of_ascii c <? 128)%N.

Definition ascii_text (s : string) : bool := all_chars is_ascii s.

(** [str(n)] has at most 4300 digits *)
Definition printable (n : Z) : Prop := (len (str_of_Z n) <= max_str_digits)%N.

(** A record whose text is ASCII and goes through the file unchanged, with
    bounds that [str] prints and [int] reads *)
Definition snapshot_safe (r : SnapshotRecord) : Prop :=
  exists f n t cs,
    r = snapshot_record f n t cs (min_instances r) (max_instances r) /\
    (field_ok f /\ ascii_text f = true) /\
    (field_ok n /\ ascii_text n = true) /\
    (field_ok t /\ ascii_text t = true) /\
    (field_ok cs /\ ascii_text cs = true) /\
    0 <= min_instances r <= max_instances r /\
    printable (min_instances r) /\
    printable (max_instances r).

(** The server of [parcels_table] with the record of Hosted/X and of
    Transport/Roads, main, each with its edit, start and stop *)
Definition restore_table : list (string * response) :=
  parcels_table ++
  [("https://gis:6443/arcgis/admin/services/Hosted/X.FeatureServer",
    Body [("serviceName", JStr "X"); ("type", JStr "FeatureServer");
          ("configuredState", JStr "STARTED");
          ("minInstancesPerNode", JInt 1); ("maxInstancesPerNode", JInt 1)]);
   ("https://gis:6443/arcgis/admin/services/Hosted/X.FeatureServer/edit", success);
   ("https://gis:6443/arcgis/admin/services/Hosted/X.FeatureServer/start", success);
   ("https://gis:6443/arcgis/admin/services/Hosted/X.FeatureServer/stop", success);
   ("https://gis:6443/arcgis/admin/services/Transport/Roads, main.MapServer",
    Body [("serviceName", JStr "Roads, main"); ("type", JStr "MapServer");
          ("configuredState", JStr "STARTED");
          ("minInstancesPerNode", JInt 3); ("maxInstancesPerNode", JInt 5)]);
   ("https://gis:6443/arcgis/admin/services/Transport/Roads, main.MapServer/edit", success);
   ("https://gis:6443/arcgis/admin/services/Transport/Roads, main.MapServer/stop", success)].

Definition main_roads : service :=
  {| folder := JStr "Transport"; name := JStr "Roads, main"; type := JStr "MapServer" |}.

(** The method and the URL of the requests of a log *)
Definition wire (l : list (request * response)) : list (method * string) :=
  map (fun x => (r_method (fst x), r_url (fst x))) l.


(** C7 as stated fails: the fetch of the record of Parcels succeeds and
    gives an object without members; save writes no row for it. *)
Definition empty_record_table : list (string * response) :=
  [("https://gis:6443/arcgis/admin/services",
    Body [("folders", JList []);
          ("services", JList [listing_entry "Parcels" "MapServer"])]);
   ("https://gis:6443/arcgis/admin/services/Parcels.MapServer", Body [])].

Definition empty_record_world : World := world_of empty_record_table [].

(** *** What a listing reports

    Written from the words of the API: a listing is a document with a
    member [services], an array of objects that each name a service and its
    type, and a member [folders], an array of folder names; either may be
    missing. A failed request or an error object reports nothing. *)

Definition names_service (e : json) (nt : json * json) : Prop :=
  exists o, e = JObj o /\
            lookup "serviceName" o = Some (fst nt) /\
            lookup "type" o = Some (snd nt).

Definition member_list (k : string) (d : dict) (l : list json) : Prop :=
  lookup k d = Some (JList l) \/ (lookup k d = None /\ l = []).

(** The answer reports the services [entries], as (name, type), in order *)
Definition lists_services (resp : response) (entries : list (json * json)) : Prop :=
  match resp with
  | Failed _ => entries = []
  | Body d =>
      match lookup "error" d with
      | Some (JObj _) => entries = []
      | Some _ => False
      | None => exists es, member_list "services" d es /\ Forall2 names_service es entries
      end
  end.

(** The answer reports the child folders [folders], in order *)
Definition lists_folders (resp : response) (folders : list json) : Prop :=
  match resp with
  | Failed _ => folders = []
  | Body d =>
      match lookup "error" d with
      | Some (JObj _) => folders = []
      | Some _ => False
      | None => member_list "folders" d folders
      end
  end.

(** The GET that asks for the listing of the root, and of the child folder
    [f] *)
Definition root_listing (self : ArcGISServerManager) : request :=
  signed_request self GET (server_url self ++ "/arcgis/admin/services")%string [].

Definition folder_listing (self : ArcGISServerManager) (f : json) : request :=
  signed_request self GET
    (server_url self ++ "/arcgis/admin/services/" ++ py_str f)%string [].

(** The services [entries] of the folder [f] *)
Definition tagged (f : json) (entries : list (json * json)) : list service :=
  map (fun nt => {| folder := f; name := fst nt; type := snd nt |}) entries.

(** The services of the folders, folder by folder *)
Definition folder_services (folders : list json)
    (folder_entries : list (list (json * json))) : list service :=
  flat_map (fun fe => tagged (fst fe) (snd fe)) (combine folders folder_entries).

(** *** A request that fails

    [_make_request] takes an answer for a failed request when the transport
    fails or the document has a member [error] (the test of line 108). *)
Definition request_failed (resp : response) : Prop :=
  match resp with
  | Failed _ => True
  | Body d => lookup "error" d <> None
  end.

(** The failure is one of the API's: a transport failure or an error
    object *)
Definition api_failure (resp : response) : bool :=
  match resp with
  | Failed _ => true
  | Body d => match lookup "error" d with
              | Some (JObj _) => true
              | _ => false
              end
  end.

(** The record of Parcels cannot be read: the server answers with an
    [error] member that is a text *)
Definition unreadable_table : list (string * response) :=
  [("https://gis:6443/arcgis/admin/services/Parcels.MapServer",
    Body [("error", JStr "busy")])].

Definition unreadable_world : World := world_of unreadable_table [].

(** *** The requests of the calls

    Where a per-service method sends its request once it is entered: by
    method and address, the address of a service being
    [{server_url}/arcgis/admin/services/{folder}/{name}.{type}], without
    the folder part when the folder field is empty. The requests of a
    workflow are the listings of the discovery and those of the calls it
    makes. *)

Definition address_of (self : ArcGISServerManager) (s : service) : string :=
  (server_url self ++ "/arcgis/admin/services/"
   ++ (if truthy (folder s) then py_str (folder s) ++ "/" else "")
   ++ py_str (name s) ++ "." ++ py_str (type s))%string.

(** The GET that reads the record of a service *)
Definition record_request (self : ArcGISServerManager) (s : service) : request :=
  signed_request self GET (address_of self s) [].







(** * Properties *)

(** ** Dictionaries *)

Section Dictionaries.
Context {V : Type}.
Implicit Types (d : list (string * V)) (k : string).

Lemma lookup_set_item_same d k v : lookup k (set_item k v d) = Some v.
Proof.
  induction d as [|[k' v'] d IH]; simpl.
  - now rewrite String.eqb_refl.
  - destruct (String.eqb k k') eqn:E; simpl; rewrite E; auto.
Qed.

Lemma lookup_set_item_other d k k' v :
  k <> k' -> lookup k (set_item k' v d) = lookup k d.
Proof.
  intros Hne. apply String.eqb_neq in Hne.
  induction d as [|[k0 v0] d IH]; simpl.
  - now rewrite Hne.
  - destruct (String.eqb k' k0) eqn:E; simpl.
    + apply String.eqb_eq in E; subst k0. now rewrite Hne.
    + now rewrite IH.
Qed.

Lemma lookup_pop_other d k k' :
  k <> k' -> lookup k (pop k' d) = lookup k d.
Proof.
  intros Hne. apply String.eqb_neq in Hne.
  induction d as [|[k0 v0] d IH]; simpl; auto.
  destruct (String.eqb k' k0) eqn:E; simpl.
  - apply String.eqb_eq in E; subst k0. now rewrite Hne.
  - now rewrite IH.
Qed.

Lemma lookup_absent d k : ~ In k (map fst d) -> lookup k d = None.
Proof.
  induction d as [|[k0 v0] d IH]; simpl; auto.
  intros Hn. destruct (String.eqb k k0) eqn:E.
  - apply String.eqb_eq in E. subst. tauto.
  - apply IH. tauto.
Qed.

Lemma keys_pop_incl d k x : In x (map fst (pop k d)) -> In x (map fst d).
Proof.
  induction d as [|[k0 v0] d IH]; simpl; auto.
  destruct (String.eqb k k0); simpl; tauto.
Qed.

Lemma lookup_pop_same d k : NoDup (map fst d) -> lookup k (pop k d) = None.
Proof.
  induction d as [|[k0 v0] d IH]; simpl; auto.
  intros Hnd. inversion Hnd as [|? ? Hnotin Hnd']; subst.
  destruct (String.eqb k k0) eqn:E; simpl.
  - apply String.eqb_eq in E; subst k0. now apply lookup_absent.
  - rewrite E. auto.
Qed.

Lemma NoDup_pop d k : NoDup (map fst d) -> NoDup (map fst (pop k d)).
Proof.
  induction d as [|[k0 v0] d IH]; simpl; auto.
  intros Hnd. inversion Hnd as [|? ? Hnotin Hnd']; subst.
  destruct (String.eqb k k0); simpl; auto.
  constructor; auto. intros Hin. apply Hnotin. eapply keys_pop_incl; eauto.
Qed.

Lemma keys_set_item d k v x :
  In x (map fst (set_item k v d)) -> x = k \/ In x (map fst d).
Proof.
  induction d as [|[k0 v0] d IH]; simpl.
  - intros [H|[]]; auto.
  - destruct (String.eqb k k0) eqn:E; simpl; intros [H|H]; auto.
    destruct (IH H); auto.
Qed.

Lemma NoDup_set_item d k v : NoDup (map fst d) -> NoDup (map fst (set_item k v d)).
Proof.
  induction d as [|[k0 v0] d IH]; simpl.
  - intros _. constructor; auto. constructor.
  - intros Hnd. inversion Hnd as [|? ? Hnotin Hnd']; subst.
    destruct (String.eqb k k0) eqn:E; simpl.
    + constructor; auto.
    + constructor; auto. intros Hin.
      destruct (keys_set_item _ _ _ _ Hin) as [->|]; auto.
      now rewrite String.eqb_refl in E.
Qed.

Lemma has_key_lookup d k : has_key k d = false <-> lookup k d = None.
Proof.
  induction d as [|[k0 v0] d IH]; simpl; [tauto|].
  destruct (String.eqb k k0); simpl; auto. split; discriminate.
Qed.
End Dictionaries.

(** The payload of the edit request, key by key *)
Lemma edit_payload_lookup (d : dict) (mn mx : Z) :
  NoDup (map fst d) ->
  (forall k, In k readonly_props -> lookup k (edit_payload d mn mx) = None) /\
  lookup "minInstancesPerNode" (edit_payload d mn mx) = Some (JInt mn) /\
  lookup "maxInstancesPerNode" (edit_payload d mn mx) = Some (JInt mx) /\
  (forall k, ~ In k readonly_props ->
             k <> "minInstancesPerNode" -> k <> "maxInstancesPerNode" ->
             lookup k (edit_payload d mn mx) = lookup k d).
Proof.
  intros Hnd. unfold edit_payload, readonly_props. simpl.
  set (d2 := set_item "maxInstancesPerNode" (JInt mx)
               (set_item "minInstancesPerNode" (JInt mn) d)).
  assert (Hnd2 : NoDup (map fst d2)) by (subst d2; auto using NoDup_set_item).
  repeat split.
  - intros k [<-|[<-|[<-|[<-|[]]]]].
    + rewrite !lookup_pop_other by discriminate. now apply lookup_pop_same.
    + rewrite !lookup_pop_other by discriminate.
      apply lookup_pop_same. auto using NoDup_pop.
    + rewrite lookup_pop_other by discriminate.
      apply lookup_pop_same. auto using NoDup_pop.
    + apply lookup_pop_same. auto using NoDup_pop.
  - rewrite !lookup_pop_other by discriminate. subst d2.
    rewrite lookup_set_item_other by discriminate. apply lookup_set_item_same.
  - rewrite !lookup_pop_other by discriminate. subst d2. apply lookup_set_item_same.
  - intros k Hk Hmin Hmax.
    rewrite !lookup_pop_other by (intros ->; apply Hk; simpl; tauto).
    subst d2. now rewrite !lookup_set_item_other.
Qed.

(** ** Running the monad *)

Lemma bind_inv {A B} (m : M A) (k : A -> M B) w r w' :
  bind m k w = (r, w') ->
  (exists a w1, m w = (Ok a, w1) /\ k a w1 = (r, w')) \/
  (exists e, m w = (Raise e, w') /\ r = Raise e).
Proof.
  unfold bind. destruct (m w) as [[a|e] w1]; intros H.
  - left. eauto.
  - right. inversion H; subst. eauto.
Qed.

Lemma bind_ok {A B} (m : M A) (k : A -> M B) w a w1 :
  m w = (Ok a, w1) -> bind m k w = k a w1.
Proof. unfold bind. now intros ->. Qed.

Lemma bind_raise {A B} (m : M A) (k : A -> M B) w e w1 :
  m w = (Raise e, w1) -> bind m k w = (Raise e, w1).
Proof. unfold bind. now intros ->. Qed.

Lemma same_env_refl w : same_env w w.
Proof. split; reflexivity. Qed.

Lemma same_env_trans w1 w2 w3 : same_env w1 w2 -> same_env w2 w3 -> same_env w1 w3.
Proof. intros [A B] [C D]. split; congruence. Qed.

Lemma make_request_spec self endpoint data meth w r w' :
  authenticated self ->
  _make_request self endpoint data meth w = (r, w') ->
  let req := request_of self endpoint data meth in
  let resp := transport w (log w) req in
  same_env w w' /\ files w' = files w /\ calls w' = calls w /\
  log w' = log w ++ [(req, resp)] /\ r = result_of resp.
Proof.
  unfold authenticated, _make_request, request_of, the_token.
  destruct (token self) as [[|c tok]|]; try tauto. intros _.
  unfold bind, send, print, lift, ret, result_of; simpl.
  destruct (transport w (log w) _) as [e|d]; simpl.
  - intros H; inversion H; subst; simpl. repeat split.
  - destruct (has_key "error" d); simpl.
    + destruct (lookup "error" d) as [[]|]; simpl;
        intros H; inversion H; subst; simpl; repeat split.
    + intros H; inversion H; subst; simpl. repeat split.
Qed.

Lemma make_request_unauthenticated self endpoint data meth w r w' :
  ~ authenticated self ->
  _make_request self endpoint data meth w = (r, w') ->
  same_env w w' /\ files w' = files w /\ calls w' = calls w /\
  log w' = log w /\ r = Ok None.
Proof.
  unfold authenticated, _make_request.
  destruct (token self) as [[|c tok]|]; try tauto; intros _;
    unfold bind, print, ret; simpl; intros H; inversion H; subst; simpl;
    repeat split.
Qed.

(** Printing changes nothing but the output. *)
Lemma print_spec s w r w' :
  print s w = (r, w') ->
  r = Ok tt /\ same_env w w' /\ files w' = files w /\ calls w' = calls w /\ log w' = log w.
Proof. unfold print. intros H; inversion H; subst; simpl. repeat split. Qed.

Lemma print_exn_spec s e w r w' :
  print_exn s e w = (r, w') ->
  r = Ok tt /\ same_env w w' /\ files w' = files w /\ calls w' = calls w /\ log w' = log w.
Proof. unfold print_exn. intros H; inversion H; subst; simpl. repeat split. Qed.

Lemma enter_spec c w r w' :
  enter c w = (r, w') ->
  r = Ok tt /\ same_env w w' /\ files w' = files w /\ calls w' = calls w ++ [c] /\ log w' = log w.
Proof. unfold enter. intros H; inversion H; subst; simpl. repeat split. Qed.

Lemma lift_spec {A} (x : res A) w r w' : lift x w = (r, w') -> r = x /\ w' = w.
Proof. unfold lift. intros H; inversion H; auto. Qed.

Lemma ret_spec {A} (x : A) w r w' : ret x w = (r, w') -> r = Ok x /\ w' = w.
Proof. unfold ret. intros H; inversion H; auto. Qed.

Ltac split5 := split; [|split; [|split; [|split]]].

Tactic Notation "spec" constr(L) "in" hyp(H) :=
  eapply L in H; [|eassumption].

Tactic Notation "inv_bind" hyp(H) "as" ident(H1) :=
  let a := fresh "a" in
  let w1 := fresh "w1" in
  let e := fresh "e" in
  apply bind_inv in H;
  destruct H as [(a & w1 & H1 & H) | (e & H & ->)].

(** ** The per-service methods *)

Lemma get_service_details_spec self s w r w' :
  authenticated self ->
  get_service_details self s w = (r, w') ->
  let req := request_of self (endpoint_of s "") [] GET in
  let resp := transport w (log w) req in
  same_env w w' /\ files w' = files w /\ calls w' = calls w ++ [CallDetails s] /\
  log w' = log w ++ [(req, resp)] /\ r = result_of resp.
Proof.
  intros Hauth H. unfold get_service_details in H.
  inv_bind H as H0.
  - apply enter_spec in H0 as (_ & [Et Ec] & Ef & Ecalls & El).
    spec make_request_spec in H. destruct H as ([Et' Ec'] & Ef' & Ecalls' & El' & ->).
    simpl. rewrite El', Et, El, Ef', Ecalls'. repeat split; congruence.
  - apply enter_spec in H as (H & _). discriminate.
Qed.

Lemma post_action_spec self s suffix c w r w' :
  authenticated self ->
  (enter c ;;
   result <- _make_request self (endpoint_of s suffix) [] POST ;;
   ret (reports_success result)) w = (r, w') ->
  let req := request_of self (endpoint_of s suffix) [] POST in
  let resp := transport w (log w) req in
  same_env w w' /\ files w' = files w /\ calls w' = calls w ++ [c] /\
  log w' = log w ++ [(req, resp)] /\ r = status_of resp.
Proof.
  intros Hauth H. inv_bind H as H0.
  - apply enter_spec in H0 as (_ & [Et Ec] & Ef & Ecalls & El).
    unfold status_of. inv_bind H as H1.
    + spec make_request_spec in H1. destruct H1 as ([Et' Ec'] & Ef' & Ecalls' & El' & Er).
      apply ret_spec in H as [-> ->]. simpl.
      rewrite Et, El in Er. rewrite <- Er. rewrite El', Et, El.
      repeat split; congruence.
    + spec make_request_spec in H. destruct H as ([Et' Ec'] & Ef' & Ecalls' & El' & Er).
      simpl. rewrite Et, El in Er. rewrite <- Er. rewrite El', Et, El.
      repeat split; congruence.
  - apply enter_spec in H as (H & _). discriminate.
Qed.

Lemma start_service_spec self s w r w' :
  authenticated self ->
  start_service self s w = (r, w') ->
  let req := request_of self (endpoint_of s "/start") [] POST in
  let resp := transport w (log w) req in
  same_env w w' /\ files w' = files w /\ calls w' = calls w ++ [CallStart s] /\
  log w' = log w ++ [(req, resp)] /\ r = status_of resp.
Proof. apply post_action_spec. Qed.

Lemma stop_service_spec self s w r w' :
  authenticated self ->
  stop_service self s w = (r, w') ->
  let req := request_of self (endpoint_of s "/stop") [] POST in
  let resp := transport w (log w) req in
  same_env w w' /\ files w' = files w /\ calls w' = calls w ++ [CallStop s] /\
  log w' = log w ++ [(req, resp)] /\ r = status_of resp.
Proof. apply post_action_spec. Qed.

Lemma update_service_instances_spec self s mn mx w r w' :
  authenticated self ->
  update_service_instances self s mn mx w = (r, w') ->
  let get := request_of self (endpoint_of s "") [] GET in
  let got := transport w (log w) get in
  same_env w w' /\ files w' = files w /\
  calls w' = calls w ++ [CallUpdate s mn mx; CallDetails s] /\
  match result_of got with
  | Raise e => log w' = log w ++ [(get, got)] /\ r = Raise e
  | Ok None | Ok (Some []) => log w' = log w ++ [(get, got)] /\ r = Ok false
  | Ok (Some d) =>
      let resp := transport w (log w ++ [(get, got)]) (edit_request self s d mn mx) in
      log w' = log w ++ [(get, got); (edit_request self s d mn mx, resp)] /\
      r = status_of resp
  end.
Proof.
  intros Hauth H. unfold update_service_instances in H.
  inv_bind H as H0.
  2:{ apply enter_spec in H as (H & _). discriminate. }
  apply enter_spec in H0 as (_ & [Et Ec] & Ef & Ecalls & El).
  inv_bind H as H1.
  - spec get_service_details_spec in H1. destruct H1 as ([Et' Ec'] & Ef' & Ecalls' & El' & Er).
    rewrite Et, El in *. simpl. rewrite <- Er.
    destruct a0 as [[|kv d]|].
    + apply ret_spec in H as [-> ->].
      rewrite Ecalls', Ecalls, <- app_assoc. repeat split; congruence.
    + inv_bind H as H2.
      * spec make_request_spec in H2. destruct H2 as ([Et2 Ec2] & Ef2 & Ecalls2 & El2 & Er2).
        apply ret_spec in H as [-> ->].
        unfold status_of, edit_request. rewrite Et', El' in *. rewrite <- Er2.
        rewrite Ecalls2, Ecalls', Ecalls, El2, <- !app_assoc.
        repeat split; congruence.
      * spec make_request_spec in H. destruct H as ([Et2 Ec2] & Ef2 & Ecalls2 & El2 & Er2).
        unfold status_of, edit_request. rewrite Et', El' in *. rewrite <- Er2.
        rewrite Ecalls2, Ecalls', Ecalls, El2, <- !app_assoc.
        repeat split; congruence.
    + apply ret_spec in H as [-> ->].
      rewrite Ecalls', Ecalls, <- app_assoc. repeat split; congruence.
  - spec get_service_details_spec in H. destruct H as ([Et' Ec'] & Ef' & Ecalls' & El' & Er).
    rewrite Et, El in *. simpl. rewrite <- Er.
    rewrite Ecalls', Ecalls, <- app_assoc. repeat split; congruence.
Qed.

(** ** setInstanceBounds *)

Lemma details_request_signed self s :
  details_request self s = record_request self s.
Proof.
  assert (Hnil : forall a : string, (a ++ "")%string = a)
    by (induction a; cbn; congruence).
  assert (Hassoc : forall a b c : string, ((a ++ b) ++ c = a ++ (b ++ c))%string)
    by (induction a; intros; cbn; congruence).
  unfold details_request, record_request, request_of, signed_request.
  f_equal. unfold endpoint_of, address_of.
  destruct (truthy (folder s)); rewrite ?Hassoc, ?Hnil; reflexivity.
Qed.

Lemma result_of_failed resp :
  request_failed resp ->
  result_of resp = if api_failure resp then Ok None else Raise AttributeError.
Proof.
  unfold request_failed, result_of, api_failure. destruct resp as [e|d]; [reflexivity|].
  intros H. destruct (has_key "error" d) eqn:E.
  - destruct (lookup "error" d) as [[]|]; reflexivity.
  - apply has_key_lookup in E. contradiction.
Qed.

(** C9, where the code departs from it. When the GET of the current record
    (of [{server_url}/arcgis/admin/services/{folder}/{name}.{type}]) fails
    (the transport fails, or the answer has a member [error]),
    [update_service_instances] issues no edit POST: its only exchange is
    that GET. It returns [False] when the failure is a transport failure or
    an error object, and raises [AttributeError] when the [error] member is
    anything else, where C9 has it return failure. *)
Theorem update_without_record_sends_no_edit :
  forall self s mn mx w,
    authenticated self ->
    request_failed (transport w (log w) (record_request self s)) ->
    exists w',
      update_service_instances self s mn mx w =
        ((if api_failure (transport w (log w) (record_request self s))
          then Ok false else Raise AttributeError), w') /\
      log w' = log w ++ [(record_request self s,
                          transport w (log w) (record_request self s))].
Proof.
  intros self s mn mx w Hauth. rewrite <- details_request_signed. intros Hfail.
  destruct (update_service_instances self s mn mx w) as [r w'] eqn:E.
  exists w'.
  spec update_service_instances_spec in E.
  destruct E as (_ & _ & _ & E). unfold details_request in *.
  rewrite (result_of_failed _ Hfail) in E.
  destruct (api_failure _); destruct E as [El ->]; repeat split; auto.
Qed.

Lemma update_without_record_sends_no_edit_witness :
  exists w',
    update_service_instances example_manager parcels 1 1 unreadable_world
      = (Raise AttributeError, w') /\
    wire (log w') = [(GET, "https://gis:6443/arcgis/admin/services/Parcels.MapServer")].
Proof.
  destruct (update_without_record_sends_no_edit example_manager parcels 1 1
              unreadable_world) as (w' & H & Hl).
  - exact I.
  - discriminate.
  - exists w'. split; [exact H|]. rewrite Hl. reflexivity.
Defined.

(** C4. When the GET gives a record [d], the edit POST carries, as its
    [service] parameter, a document without [status], [configuredState],
    [realTimeState] and [extensions], with the two instance bounds set to
    the requested values and every other field of [d] as it was. *)
Theorem edit_payload_strips_readonly_fields :
  forall self s mn mx w d,
    authenticated self ->
    transport w (log w) (details_request self s) = Body d ->
    has_key "error" d = false ->
    d <> [] ->
    NoDup (map fst d) ->
    exists w' r payload,
      update_service_instances self s mn mx w = (r, w') /\
      log w' = log w ++ [(details_request self s, Body d);
                         (edit_request self s d mn mx,
                          transport w (log w ++ [(details_request self s, Body d)])
                            (edit_request self s d mn mx))] /\
      r_method (edit_request self s d mn mx) = POST /\
      r_params (edit_request self s d mn mx) =
        [("service", JsonText payload); ("token", Text (the_token self)); ("f", Text "json")] /\
      (forall k, In k ["status"; "configuredState"; "realTimeState"; "extensions"] ->
                 lookup k payload = None) /\
      lookup "minInstancesPerNode" payload = Some (JInt mn) /\
      lookup "maxInstancesPerNode" payload = Some (JInt mx) /\
      (forall k, ~ In k ["status"; "configuredState"; "realTimeState"; "extensions"] ->
                 k <> "minInstancesPerNode" -> k <> "maxInstancesPerNode" ->
                 lookup k payload = lookup k d).
Proof.
  intros self s mn mx w d Hauth Hget Herr Hne Hnd.
  destruct (update_service_instances self s mn mx w) as [r w'] eqn:E.
  exists w', r, (edit_payload d mn mx).
  spec update_service_instances_spec in E.
  destruct E as (_ & _ & _ & E). unfold details_request in *.
  rewrite Hget in E. simpl in E. rewrite Herr in E.
  destruct d as [|kv d]; [congruence|]. destruct E as [El Er].
  split; [reflexivity|]. split; [exact El|]. split; [reflexivity|].
  split; [reflexivity|]. now apply edit_payload_lookup.
Qed.

Lemma edit_payload_strips_readonly_fields_witness :
  exists w' r payload,
    update_service_instances example_manager parcels 1 1 parcels_world = (r, w') /\
    r_params (edit_request example_manager parcels parcels_record 1 1) =
      [("service", JsonText payload); ("token", Text "T0K3N"); ("f", Text "json")] /\
    lookup "status" payload = None /\
    lookup "configuredState" payload = None /\
    lookup "minInstancesPerNode" payload = Some (JInt 1) /\
    lookup "serviceName" payload = Some (JStr "Parcels").
Proof.
  destruct (edit_payload_strips_readonly_fields example_manager parcels 1 1
              parcels_world parcels_record)
    as (w' & r & payload & Hrun & _ & _ & Hparams & Hro & Hmin & _ & Hrest).
  - exact I.
  - reflexivity.
  - reflexivity.
  - discriminate.
  - repeat constructor; simpl; intuition discriminate.
  - exists w', r, payload. repeat split; auto.
    + apply Hro. simpl. auto.
    + apply Hro. simpl. auto.
    + rewrite Hrest; [reflexivity| | discriminate | discriminate].
      simpl. intuition discriminate.
Defined.

(** ** Enumeration *)

Lemma replies_length t hist reqs :
  List.length (replies t hist reqs) = List.length reqs.
Proof. revert hist. induction reqs; simpl; auto. Qed.

Lemma tag_services_any_folder f g entries l :
  tag_services f entries = Ok l -> exists l', tag_services g entries = Ok l'.
Proof.
  revert l. induction entries as [|e entries IH]; simpl; intros l.
  - eauto.
  - destruct (subscript e "serviceName"); [|discriminate].
    destruct (subscript e "type"); [|discriminate].
    destruct (tag_services f entries) eqn:E; [|discriminate].
    destruct (IH _ eq_refl) as [l' ->]. eauto.
Qed.

Lemma services_of_any_folder f g resp l :
  services_of f resp = Ok l -> exists l', services_of g resp = Ok l'.
Proof.
  unfold services_of, listed. destruct (result_of resp) as [[d|]|]; eauto; try discriminate.
  destruct (lookup "services" d); eauto.
  destruct (py_iter j); try discriminate. apply tag_services_any_folder.
Qed.

Ltac fold_folder_request H :=
  match type of H with
  | context [request_of ?self ?ep [] GET] =>
      match goal with
      | f : json |- _ =>
          change (request_of self ep [] GET) with (folder_request self f) in H
      end
  end.

Lemma get_folder_services_spec self folders :
  authenticated self ->
  forall acc w r w',
    get_folder_services self folders acc w = (r, w') ->
    same_env w w' /\ files w' = files w /\ calls w' = calls w /\
    (forall svcs, r = Ok svcs ->
       let reqs := map (folder_request self) folders in
       let resps := replies (transport w) (log w) reqs in
       log w' = log w ++ combine reqs resps /\
       exists more, gather (combine folders resps) = Ok more /\ svcs = acc ++ more) /\
    ((forall hist req, listing_ok (transport w hist req)) -> exists svcs, r = Ok svcs).
Proof.
  intros Hauth. induction folders as [|f folders IH]; intros acc w r w' H; simpl in H.
  - apply ret_spec in H as [-> ->].
    split5; auto using same_env_refl; [|eauto].
    intros svcs0 [= <-]. simpl. rewrite !app_nil_r. split; [reflexivity|].
    exists []. now rewrite app_nil_r.
  - inv_bind H as H0.
    2:{ spec make_request_spec in H. destruct H as (Henv & Ef & Ec & El & Er).
        fold_folder_request Er.
        split5; auto; [discriminate|].
        intros Hwf. destruct (Hwf (log w) (folder_request self f)) as [[l Hl] _].
        unfold services_of in Hl. rewrite <- Er in Hl. discriminate. }
    spec make_request_spec in H0.
    destruct H0 as ([Et Ecw] & Ef & Ec & El & Er).
    fold_folder_request Er. fold_folder_request El.
    inv_bind H as H1.
    2:{ apply lift_spec in H as [Hl ->].
        split5; auto; [split; auto|discriminate|].
        intros Hwf. destruct (Hwf (log w) (folder_request self f)) as [[l Hl'] _].
        destruct (services_of_any_folder (JStr "") f _ _ Hl') as [l' Hl''].
        unfold services_of in Hl''. rewrite <- Er in Hl''. congruence. }
    apply lift_spec in H1 as [Hl ->].
    apply IH in H as ([Et' Ecw'] & Ef' & Ec' & Hok & Htot).
    split5; try congruence.
    + split; congruence.
    + intros svcs0 ->. destruct (Hok _ eq_refl) as (Hlog & more & Hg & ->).
      simpl. rewrite Et, El in Hlog, Hg. split.
      * rewrite Hlog, <- app_assoc. reflexivity.
      * unfold services_of at 1. rewrite <- Er. cbv beta iota. rewrite <- Hl, Hg.
        eexists; split; [reflexivity|]. now rewrite app_assoc.
    + intros Hwf. apply Htot. intros hist req. rewrite Et. apply Hwf.
Qed.

Lemma get_services_spec self w r w' :
  authenticated self ->
  get_services self w = (r, w') ->
  let root := transport w (log w) (root_request self) in
  same_env w w' /\ files w' = files w /\ calls w' = calls w /\
  (forall svcs, r = Ok svcs ->
     exists folders l0 more,
       folders_of root = Ok folders /\
       services_of (JStr "") root = Ok l0 /\
       log w' = log w ++ (root_request self, root)
                  :: combine (map (folder_request self) folders)
                       (replies (transport w) (log w ++ [(root_request self, root)])
                          (map (folder_request self) folders)) /\
       gather (combine folders
                 (replies (transport w) (log w ++ [(root_request self, root)])
                    (map (folder_request self) folders))) = Ok more /\
       svcs = l0 ++ more) /\
  ((forall hist req, listing_ok (transport w hist req)) -> exists svcs, r = Ok svcs).
Proof.
  intros Hauth H root. unfold get_services in H.
  pose proof (fun hyp : forall hist req, listing_ok (transport w hist req) =>
                hyp (log w) (root_request self)) as Hroot.
  fold root in Hroot. unfold listing_ok, services_of, folders_of in Hroot.
  inv_bind H as H0.
  2:{ spec make_request_spec in H. destruct H as (Henv & Ef & Ec & El & Er).
      change (Raise e = result_of root) in Er.
      split5; auto; [discriminate|].
      intros Hwf. destruct (Hroot Hwf) as [[l Hl] _]. rewrite <- Er in Hl. discriminate. }
  spec make_request_spec in H0. destruct H0 as ([Et Ecw] & Ef & Ec & El & Er).
  change (Ok a = result_of root) in Er.
  change (log w1 = log w ++ [(root_request self, root)]) in El.
  rewrite <- Er in Hroot.
  inv_bind H as H1.
  2:{ apply lift_spec in H as [Hl ->].
      split5; auto; [split; auto|discriminate|].
      intros Hwf. destruct (Hroot Hwf) as [[l Hl'] _]. congruence. }
  apply lift_spec in H1 as [Hl ->].
  assert (Hdone : forall fs, folders_of root = Ok fs -> fs = [] ->
            ret a0 w1 = (r, w') ->
            same_env w w' /\ files w' = files w /\ calls w' = calls w /\
            (forall svcs, r = Ok svcs ->
               exists folders l0 more,
                 folders_of root = Ok folders /\
                 services_of (JStr "") root = Ok l0 /\
                 log w' = log w ++ (root_request self, root)
                            :: combine (map (folder_request self) folders)
                                 (replies (transport w) (log w ++ [(root_request self, root)])
                                    (map (folder_request self) folders)) /\
                 gather (combine folders
                           (replies (transport w) (log w ++ [(root_request self, root)])
                              (map (folder_request self) folders))) = Ok more /\
                 svcs = l0 ++ more) /\
            ((forall hist req, listing_ok (transport w hist req)) -> exists svcs, r = Ok svcs)).
  { intros fs Hfs -> Hret. apply ret_spec in Hret as [-> ->].
    split5; auto; [split; auto| |eauto].
    intros svcs [= <-]. exists [], a0, []. simpl.
    unfold services_of. rewrite <- Er. rewrite app_nil_r. auto. }
  destruct a as [d|].
  2:{ apply (Hdone []); auto. unfold folders_of. now rewrite <- Er. }
  destruct (lookup "folders" d) as [v|] eqn:Ev.
  2:{ apply (Hdone []); auto. unfold folders_of. now rewrite <- Er, Ev. }
  clear Hdone.
  inv_bind H as H2.
  2:{ apply lift_spec in H as [Hv ->].
      split5; auto; [split; auto|discriminate|].
      intros Hwf. destruct (Hroot Hwf) as [_ [fs Hfs]]. congruence. }
  apply lift_spec in H2 as [Hv ->].
  apply (get_folder_services_spec _ _ Hauth) in H
    as ([Et' Ecw'] & Ef' & Ec' & Hok & Htot).
  split5; try congruence.
  - split; congruence.
  - intros svcs ->. destruct (Hok _ eq_refl) as (Hlog & more & Hg & ->).
    rewrite Et, El in Hlog, Hg.
    exists a, a0, more. unfold folders_of, services_of. rewrite <- Er, Ev.
    repeat split; auto.
    rewrite Hlog, <- app_assoc. reflexivity.
  - intros Hwf. apply Htot. intros hist req. rewrite Et. apply Hwf.
Qed.

Lemma parcels_listings_ok :
  forall hist req, listing_ok (transport parcels_world hist req).
Proof.
  intros hist req. simpl. unfold table_server, get_default, parcels_table. simpl.
  repeat match goal with
         | |- context [String.eqb ?a ?b] => destruct (String.eqb a b)
         end;
    (split; eexists; reflexivity).
Qed.

Lemma tag_services_tagged f es entries :
  Forall2 names_service es entries -> tag_services f es = Ok (tagged f entries).
Proof.
  induction 1 as [|e nt es entries (o & -> & Hn & Ht) _ IH]; [reflexivity|].
  cbn [tag_services subscript]. rewrite Hn, Ht, IH. reflexivity.
Qed.

Lemma lists_services_listed f resp entries :
  lists_services resp entries ->
  exists x, result_of resp = Ok x /\ listed f x = Ok (tagged f entries).
Proof.
  unfold lists_services, result_of. destruct resp as [e|d].
  - intros ->. exists None. auto.
  - destruct (lookup "error" d) as [v|] eqn:E.
    + assert (Hk : has_key "error" d = true).
      { destruct (has_key "error" d) eqn:Hk; auto.
        apply has_key_lookup in Hk. congruence. }
      rewrite Hk. destruct v; try tauto. intros ->. exists None. auto.
    + apply has_key_lookup in E. rewrite E.
      intros (es & [Hs|[Hs ->]] & Hes); exists (Some d); (split; [reflexivity|]);
        unfold listed; rewrite Hs.
      * cbn [py_iter]. now apply tag_services_tagged.
      * inversion Hes. reflexivity.
Qed.

Lemma lists_folders_of resp folders :
  lists_folders resp folders -> folders_of resp = Ok folders.
Proof.
  unfold lists_folders, folders_of, result_of. destruct resp as [e|d].
  - now intros ->.
  - destruct (lookup "error" d) as [v|] eqn:E.
    + assert (Hk : has_key "error" d = true).
      { destruct (has_key "error" d) eqn:Hk; auto.
        apply has_key_lookup in Hk. congruence. }
      rewrite Hk. destruct v; try tauto; now intros ->.
    + apply has_key_lookup in E. rewrite E.
      intros [Hf|[Hf ->]]; rewrite Hf; reflexivity.
Qed.

Lemma get_folder_services_run self :
  authenticated self ->
  forall folders acc w folder_entries,
    Forall2 lists_services
      (replies (transport w) (log w) (map (folder_request self) folders))
      folder_entries ->
    exists w',
      get_folder_services self folders acc w =
        (Ok (acc ++ folder_services folders folder_entries), w') /\
      same_env w w' /\
      log w' = log w ++ combine (map (folder_request self) folders)
                          (replies (transport w) (log w)
                             (map (folder_request self) folders)).
Proof.
  intros Hauth. induction folders as [|f folders IH]; intros acc w folder_entries H.
  - inversion H; subst. exists w. cbn. rewrite !app_nil_r.
    split; [reflexivity|]. split; [apply same_env_refl|reflexivity].
  - cbn [map replies] in H. inversion H as [|resp e1 resps es H1 Hrest]; subst.
    cbn [get_folder_services].
    destruct (_make_request self ("services/" ++ py_str f) [] GET w) as [r w1] eqn:E.
    pose proof (make_request_spec _ _ _ _ _ _ _ Hauth E) as ([T1 W1] & _ & _ & L1 & R1).
    cbv zeta in L1, R1.
    change (request_of self ("services/" ++ py_str f) [] GET)
      with (folder_request self f) in L1, R1.
    destruct (lists_services_listed f _ _ H1) as (x & Hx & Hlisted).
    rewrite Hx in R1. subst r. rewrite (bind_ok _ _ _ _ _ E).
    unfold bind at 1, lift. rewrite Hlisted.
    rewrite <- L1, <- T1 in Hrest.
    destruct (IH (acc ++ tagged f e1) w1 es Hrest) as (w' & E' & S' & L').
    exists w'. split.
    + rewrite E'. unfold folder_services. cbn [combine flat_map fst snd].
      now rewrite app_assoc.
    + split; [eapply same_env_trans; [split; eassumption|exact S']|].
      rewrite L', T1, L1. cbn [map replies combine]. rewrite <- app_assoc. reflexivity.
Qed.

(** C8. When the root listing reports the services [root_entries] and the
    child folders [folders], and the listing of each of these folders, asked
    for in that order, reports the services [folder_entries], [get_services]
    returns the root's services tagged with the empty folder followed by
    each folder's services tagged with that folder, in the reported order
    and none left out or filtered; its exchanges are the root listing (a
    GET of [{server_url}/arcgis/admin/services]) and one listing per child
    folder (a GET of that address followed by the folder's name) and no
    other, whatever folders those listings report themselves. *)
Theorem get_services_root_then_folders :
  forall self w root_entries folders folder_entries,
    authenticated self ->
    let root := transport w (log w) (root_listing self) in
    let reqs := map (folder_listing self) folders in
    let answers := replies (transport w) (log w ++ [(root_listing self, root)]) reqs in
    lists_services root root_entries ->
    lists_folders root folders ->
    Forall2 lists_services answers folder_entries ->
    exists w',
      get_services self w =
        (Ok (tagged (JStr "") root_entries ++ folder_services folders folder_entries), w') /\
      log w' = log w ++ (root_listing self, root) :: combine reqs answers.
Proof.
  intros self w root_entries folders folder_entries Hauth.
  change (root_listing self) with (root_request self).
  change (folder_listing self) with (folder_request self).
  intros root reqs answers Hroot Hfolders Hanswers.
  unfold get_services.
  destruct (_make_request self "services" [] GET w) as [r w1] eqn:E.
  pose proof (make_request_spec _ _ _ _ _ _ _ Hauth E) as ([T1 W1] & _ & _ & L1 & R1).
  cbv zeta in L1, R1.
  change (request_of self "services" [] GET) with (root_request self) in L1, R1.
  fold root in L1, R1.
  destruct (lists_services_listed (JStr "") _ _ Hroot) as (x & Hx & Hlisted).
  pose proof (lists_folders_of _ _ Hfolders) as Hf. unfold folders_of in Hf.
  rewrite Hx in R1, Hf. subst r. rewrite (bind_ok _ _ _ _ _ E).
  unfold bind at 1, lift. rewrite Hlisted.
  assert (Hnone : folders = [] ->
            exists w', ret (tagged (JStr "") root_entries) w1 =
              (Ok (tagged (JStr "") root_entries
                   ++ folder_services folders folder_entries), w') /\
            log w' = log w ++ (root_request self, root) :: combine reqs answers).
  { intros ->. exists w1. unfold folder_services. cbn. rewrite app_nil_r.
    split; [reflexivity|exact L1]. }
  destruct x as [d|]; [|injection Hf as <-; now apply Hnone].
  destruct (lookup "folders" d) as [v|]; [|injection Hf as <-; now apply Hnone].
  clear Hnone. unfold bind at 1, lift. rewrite Hf.
  subst answers reqs. rewrite <- L1, <- T1 in Hanswers.
  destruct (get_folder_services_run self Hauth folders (tagged (JStr "") root_entries)
              w1 folder_entries Hanswers) as (w' & E' & _ & L').
  exists w'. split; [exact E'|].
  rewrite L', T1, L1, <- app_assoc. reflexivity.
Qed.

Lemma get_services_root_then_folders_witness :
  exists w',
    get_services example_manager parcels_world = (Ok [parcels; hosted_x], w') /\
    wire (log w') = [(GET, "https://gis:6443/arcgis/admin/services");
                     (GET, "https://gis:6443/arcgis/admin/services/Hosted")].
Proof.
  destruct (get_services_root_then_folders example_manager parcels_world
              [(JStr "Parcels", JStr "MapServer")] [JStr "Hosted"]
              [[(JStr "X", JStr "FeatureServer")]]) as (w' & H & Hl).
  - exact I.
  - exists [listing_entry "Parcels" "MapServer"]. split; [now left|].
    repeat constructor. eexists. repeat split.
  - now left.
  - repeat constructor.
    exists [listing_entry "X" "FeatureServer"]. split; [now left|].
    repeat constructor. eexists. repeat split.
  - exists w'. split; [exact H|]. rewrite Hl. vm_compute. reflexivity.
Defined.

(** ** Servers that keep to the shape of the API *)

Lemma well_behaved_listing t : well_behaved t -> forall hist req, listing_ok (t hist req).
Proof. intros H hist req. apply H. Qed.

Lemma well_behaved_envelope t : well_behaved t -> envelope_ok t.
Proof.
  intros H hist req. destruct (H hist req) as [[[l Hl] _] _].
  unfold services_of in Hl. destruct (result_of (t hist req)); eauto. discriminate.
Qed.

(** *** Servers given by a table *)

Lemma table_server_cases table hist req :
  table_server table hist req = Failed "404 Client Error" \/
  exists k, In (k, table_server table hist req) table.
Proof.
  unfold table_server, get_default.
  induction table as [|[k v] table IH]; [now left|].
  cbn [lookup]. destruct (String.eqb (r_url req) k).
  - right. exists k. now left.
  - destruct IH as [IH|[k' IH]]; [now left|]. right. exists k'. now right.
Qed.

Lemma table_envelope table :
  Forall (fun kv => exists x, result_of (snd kv) = Ok x) table ->
  envelope_ok (table_server table).
Proof.
  intros H hist req. destruct (table_server_cases table hist req) as [->|[k Hin]].
  - eexists. reflexivity.
  - rewrite Forall_forall in H. exact (H _ Hin).
Qed.

Lemma table_well_behaved table :
  Forall (fun kv => listing_ok (snd kv) /\
                    forall fs, folders_of (snd kv) = Ok fs -> Forall hashable fs) table ->
  well_behaved (table_server table).
Proof.
  intros H hist req. destruct (table_server_cases table hist req) as [->|[k Hin]].
  - split; [split; eexists; reflexivity|]. intros fs [= <-]. constructor.
  - rewrite Forall_forall in H. exact (H _ Hin).
Qed.

Lemma restore_table_well_behaved : well_behaved (table_server restore_table).
Proof.
  apply table_well_behaved.
  repeat constructor; try (eexists; reflexivity);
    intros fs [= <-]; repeat constructor.
Qed.

Lemma restore_table_envelope : envelope_ok (table_server restore_table).
Proof. apply table_envelope. repeat constructor; eexists; reflexivity. Qed.

Lemma status_of_envelope t hist req :
  envelope_ok t -> exists b, status_of (t hist req) = Ok b.
Proof.
  intros H. destruct (H hist req) as [x Hx]. unfold status_of. rewrite Hx. eauto.
Qed.

Tactic Notation "inv_ok" hyp(H) "as" ident(H1) :=
  let a := fresh "a" in
  let w1 := fresh "w1" in
  let e := fresh "e" in
  let Habs := fresh "Habs" in
  apply bind_inv in H;
  destruct H as [(a & w1 & H1 & H) | (e & _ & Habs)]; [|discriminate Habs].

Tactic Notation "inv_ok" hyp(H) "as" ident(H1) ident(wn) :=
  let a := fresh "a" in
  let e := fresh "e" in
  let Habs := fresh "Habs" in
  apply bind_inv in H;
  destruct H as [(a & wn & H1 & H) | (e & _ & Habs)]; [|discriminate Habs].

Lemma get_service_details_total self s w :
  authenticated self ->
  envelope_ok (transport w) ->
  exists d w', get_service_details self s w = (Ok d, w') /\ same_env w w'.
Proof.
  intros Hauth Henv. destruct (get_service_details self s w) as [r w'] eqn:E.
  pose proof E as E'. spec get_service_details_spec in E'.
  destruct E' as (Hs & _ & _ & _ & ->).
  destruct (Henv (log w) (request_of self (endpoint_of s "") [] GET)) as [x ->]. eauto.
Qed.

Lemma start_service_total self s w :
  authenticated self ->
  envelope_ok (transport w) ->
  exists b w', start_service self s w = (Ok b, w') /\ same_env w w'.
Proof.
  intros Hauth Henv. destruct (start_service self s w) as [r w'] eqn:E.
  pose proof E as E'. spec start_service_spec in E'.
  destruct E' as (Hs & _ & _ & _ & ->).
  destruct (status_of_envelope _ (log w) (request_of self (endpoint_of s "/start") [] POST) Henv)
    as [b ->]. eauto.
Qed.

Lemma stop_service_total self s w :
  authenticated self ->
  envelope_ok (transport w) ->
  exists b w', stop_service self s w = (Ok b, w') /\ same_env w w'.
Proof.
  intros Hauth Henv. destruct (stop_service self s w) as [r w'] eqn:E.
  pose proof E as E'. spec stop_service_spec in E'.
  destruct E' as (Hs & _ & _ & _ & ->).
  destruct (status_of_envelope _ (log w) (request_of self (endpoint_of s "/stop") [] POST) Henv)
    as [b ->]. eauto.
Qed.

Lemma update_service_instances_total self s mn mx w :
  authenticated self ->
  envelope_ok (transport w) ->
  exists b w', update_service_instances self s mn mx w = (Ok b, w') /\ same_env w w'.
Proof.
  intros Hauth Henv. destruct (update_service_instances self s mn mx w) as [r w'] eqn:E.
  pose proof E as E'. spec update_service_instances_spec in E'.
  destruct E' as (Hs & _ & _ & E').
  destruct (Henv (log w) (request_of self (endpoint_of s "") [] GET)) as [x Hx].
  rewrite Hx in E'. destruct x as [[|kv d]|].
  - destruct E' as [_ ->]. eauto.
  - destruct E' as [_ ->].
    match goal with
    | |- context [status_of (transport w ?h ?q)] =>
        destruct (status_of_envelope _ h q Henv) as [b ->]
    end. eauto.
  - destruct E' as [_ ->]. eauto.
Qed.

Lemma envelope_same_env w w' :
  same_env w w' -> envelope_ok (transport w) -> envelope_ok (transport w').
Proof. intros [-> _]. auto. Qed.

Lemma print_run s w : exists w', print s w = (Ok tt, w') /\ same_env w w'.
Proof. unfold print. eexists; split; [reflexivity|]. split; reflexivity. Qed.

Lemma print_either_run (b : bool) s1 s2 w :
  exists w', (if b then print s1 else print s2) w = (Ok tt, w') /\ same_env w w'.
Proof. destruct b; apply print_run. Qed.

Lemma print_either_spec (b : bool) s1 s2 w r w' :
  (if b then print s1 else print s2) w = (r, w') ->
  r = Ok tt /\ same_env w w' /\ files w' = files w /\ calls w' = calls w /\ log w' = log w.
Proof. destruct b; apply print_spec. Qed.

(** ** stop-all-but-one *)

Lemma in_excluded_hashable self f : hashable f -> exists b, in_excluded self f = Ok b.
Proof. destruct f; simpl; try tauto; eauto. Qed.

Lemma excluded_b_of self s b : in_excluded self (folder s) = Ok b -> excluded_b self s = b.
Proof. unfold excluded_b. intros ->. now destruct b. Qed.

Lemma kept_cons self s svcs :
  kept self (s :: svcs) = if excluded_b self s then kept self svcs else s :: kept self svcs.
Proof. unfold kept. simpl. now destruct (excluded_b self s). Qed.

Lemma stop_loop_found self keep :
  authenticated self ->
  forall svcs found k w x w',
    stop_loop self keep svcs found k w = (Ok x, w') ->
    fst x = found || existsb (is_keeper self keep) svcs.
Proof.
  intros Hauth. induction svcs as [|s svcs IH]; intros found k w x w' H; simpl in H.
  - apply ret_spec in H as [[= ->] _]. simpl. now rewrite orb_false_r.
  - inv_ok H as H0. apply lift_spec in H0 as [Hex ->]. symmetry in Hex.
    simpl. unfold is_keeper at 1. rewrite (excluded_b_of _ _ _ Hex).
    destruct a; simpl.
    + inv_ok H as H0. apply IH in H. rewrite H. reflexivity.
    + destruct (name_is s keep).
      * inv_ok H as H0. inv_ok H as H1. inv_ok H as H2. inv_ok H as H3. inv_ok H as H4.
        apply IH in H. rewrite H. simpl. now rewrite orb_true_r.
      * inv_ok H as H0. inv_ok H as H1. apply IH in H. now rewrite H.
Qed.

Lemma stop_loop_no_match self keep :
  authenticated self ->
  forall svcs found k w x w',
    stop_loop self keep svcs found k w = (Ok x, w') ->
    (forall s, In s svcs -> name_is s keep = false) ->
    same_env w w' /\
    calls w' = calls w ++ map CallStop (kept self svcs) /\
    log w' = log w ++ combine (map (stop_request self) (kept self svcs))
                        (replies (transport w) (log w)
                           (map (stop_request self) (kept self svcs))).
Proof.
  intros Hauth. induction svcs as [|s svcs IH]; intros found k w x w' H Hno; simpl in H.
  - apply ret_spec in H as [_ ->]. simpl. rewrite !app_nil_r. auto using same_env_refl.
  - inv_ok H as H0. apply lift_spec in H0 as [Hex ->]. symmetry in Hex.
    rewrite kept_cons, (excluded_b_of _ _ _ Hex).
    assert (Hno' : forall s0, In s0 svcs -> name_is s0 keep = false)
      by (intros; apply Hno; simpl; auto).
    destruct a; simpl.
    + inv_ok H as H0. apply print_spec in H0 as (_ & [Et Ecw] & _ & Ec & El).
      destruct (IH _ _ _ _ _ H Hno') as ([Et' Ecw'] & Ec' & El').
      rewrite Et, Ec, El in *. repeat split; congruence.
    + rewrite (Hno s) in H by (simpl; auto).
      inv_ok H as H0. spec stop_service_spec in H0.
      destruct H0 as ([Et Ecw] & _ & Ec & El & _).
      inv_ok H as H1. apply print_either_spec in H1 as (_ & [Et1 Ecw1] & _ & Ec1 & El1).
      destruct (IH _ _ _ _ _ H Hno') as ([Et' Ecw'] & Ec' & El').
      rewrite Et1, Ec1, El1, Et, Ec, El in *.
      split; [split; congruence|]. split.
      * rewrite Ec', <- app_assoc. reflexivity.
      * rewrite El', <- app_assoc. reflexivity.
Qed.

Ltac run_print :=
  match goal with
  | |- context [bind (print ?s) ?k ?w] =>
      let w1 := fresh "w" in
      let E := fresh "E" in
      let S := fresh "S" in
      destruct (print_run s w) as (w1 & E & S);
      rewrite (bind_ok _ k _ _ _ E); clear E
  | |- context [bind (if ?b then print ?s1 else print ?s2) ?k ?w] =>
      let w1 := fresh "w" in
      let E := fresh "E" in
      let S := fresh "S" in
      destruct (print_either_run b s1 s2 w) as (w1 & E & S);
      rewrite (bind_ok _ k _ _ _ E); clear E
  end.

Lemma stop_loop_total self keep :
  authenticated self ->
  forall svcs found k w,
    envelope_ok (transport w) ->
    Forall (fun s => hashable (folder s)) svcs ->
    exists x w', stop_loop self keep svcs found k w = (Ok x, w').
Proof.
  intros Hauth. induction svcs as [|s svcs IH]; intros found k w Henv Hh;
    cbn [stop_loop].
  - unfold ret. eauto.
  - inversion Hh as [|? ? Hs Hrest]; subst.
    destruct (in_excluded_hashable self _ Hs) as [b Hb].
    unfold bind at 1, lift. rewrite Hb. destruct b.
    + run_print. apply IH; eauto using envelope_same_env.
    + destruct (name_is s keep).
      * run_print.
        destruct (update_service_instances_total self s 1 1 w0 Hauth)
          as (b2 & w2 & E2 & S2); eauto using envelope_same_env.
        rewrite (bind_ok _ _ _ _ _ E2). run_print.
        destruct (start_service_total self s w1 Hauth) as (b4 & w4 & E4 & S4);
          eauto 6 using envelope_same_env.
        rewrite (bind_ok _ _ _ _ _ E4). run_print.
        apply IH; eauto 8 using envelope_same_env.
      * destruct (stop_service_total self s w Hauth) as (b1 & w1 & E1 & S1); auto.
        rewrite (bind_ok _ _ _ _ _ E1). run_print.
        apply IH; eauto using envelope_same_env.
Qed.

Lemma tag_services_folder f entries l :
  tag_services f entries = Ok l -> Forall (fun s => folder s = f) l.
Proof.
  revert l. induction entries as [|e entries IH]; simpl; intros l.
  - intros [= <-]. constructor.
  - destruct (subscript e "serviceName"); [|discriminate].
    destruct (subscript e "type"); [|discriminate].
    destruct (tag_services f entries); [|discriminate].
    intros [= <-]. constructor; auto.
Qed.

Lemma services_of_folder f resp l :
  services_of f resp = Ok l -> Forall (fun s => folder s = f) l.
Proof.
  unfold services_of, listed. destruct (result_of resp) as [[d|]|]; try discriminate.
  - destruct (lookup "services" d).
    + destruct (py_iter j); try discriminate. apply tag_services_folder.
    + intros [= <-]. constructor.
  - intros [= <-]. constructor.
Qed.

Lemma gather_folders listings more :
  gather listings = Ok more ->
  Forall (fun s => In (folder s) (map fst listings)) more.
Proof.
  revert more. induction listings as [|[f resp] listings IH]; simpl; intros more.
  - intros [= <-]. constructor.
  - destruct (services_of f resp) as [l|] eqn:El; [|discriminate].
    destruct (gather listings) as [more'|]; [|discriminate].
    intros [= <-]. apply Forall_app. split.
    + apply services_of_folder in El. eapply Forall_impl; [|exact El].
      simpl. intros s ->. auto.
    + eapply Forall_impl; [|apply IH; reflexivity]. simpl. auto.
Qed.

Lemma in_map_fst_combine {A B} (l : list A) (l' : list B) x :
  In x (map fst (combine l l')) -> In x l.
Proof.
  revert l'. induction l as [|a l IH]; intros [|b l']; simpl; try tauto.
  intros [H|H]; eauto.
Qed.

Lemma get_services_hashable self w svcs w' :
  authenticated self ->
  well_behaved (transport w) ->
  get_services self w = (Ok svcs, w') ->
  Forall (fun s => hashable (folder s)) svcs.
Proof.
  intros Hauth Hwb H. spec get_services_spec in H.
  destruct H as (_ & _ & _ & Hok & _).
  destruct (Hok _ eq_refl) as (folders & l0 & more & Hf & Hl0 & _ & Hg & ->).
  apply Forall_app. split.
  - apply services_of_folder in Hl0. eapply Forall_impl; [|exact Hl0].
    simpl. intros s ->. exact I.
  - apply gather_folders in Hg. apply Hwb in Hf.
    eapply Forall_impl; [|exact Hg]. simpl. intros s Hin.
    apply in_map_fst_combine in Hin. rewrite Forall_forall in Hf. auto.
Qed.

Lemma stop_all_except_one_total self keep w :
  authenticated self ->
  well_behaved (transport w) ->
  exists b w', stop_all_except_one self keep w = (Ok b, w').
Proof.
  intros Hauth Hwb. unfold stop_all_except_one.
  destruct (get_services self w) as [r w1] eqn:E.
  pose proof E as E'. spec get_services_spec in E'.
  destruct E' as ([Et _] & _ & _ & _ & Htot).
  destruct (Htot (well_behaved_listing _ Hwb)) as [svcs ->].
  rewrite (bind_ok _ _ _ _ _ E).
  destruct svcs as [|s svcs].
  - run_print. unfold ret. eauto.
  - destruct (stop_loop_total self keep Hauth (s :: svcs) false 0 w1) as (x & w2 & E2).
    + rewrite Et. now apply well_behaved_envelope.
    + eapply get_services_hashable; eauto.
    + rewrite (bind_ok _ _ _ _ _ E2). destruct (fst x); run_print; unfold ret; eauto.
Qed.

(** C3, as the code has it. [stop_all_except_one] returns [False] exactly
    when no service outside the excluded folders carries the keeper's name,
    whatever the server answers to the start, stop and edit requests; it
    returns whenever the server keeps to the shape of the API. *)
Theorem stop_fails_iff_no_keeper :
  forall self keep w,
    authenticated self ->
    (well_behaved (transport w) ->
     exists b w', stop_all_except_one self keep w = (Ok b, w')) /\
    (forall svcs w1 b w',
       get_services self w = (Ok svcs, w1) ->
       stop_all_except_one self keep w = (Ok b, w') ->
       (b = false <-> existsb (is_keeper self keep) svcs = false)).
Proof.
  intros self keep w Hauth. split.
  - now apply stop_all_except_one_total.
  - intros svcs w1 b w' Hget H. unfold stop_all_except_one in H.
    rewrite (bind_ok _ _ _ _ _ Hget) in H.
    destruct svcs as [|s svcs].
    + inv_ok H as H0. apply ret_spec in H as [[= ->] _]. simpl. tauto.
    + inv_ok H as H0. apply (stop_loop_found _ _ Hauth) in H0.
      change (fst a = existsb (is_keeper self keep) (s :: svcs)) in H0.
      rewrite <- H0. destruct (fst a).
      * inv_ok H as H1. apply ret_spec in H as [[= ->] _]. split; discriminate.
      * inv_ok H as H1. apply ret_spec in H as [[= ->] _]. tauto.
Qed.

Lemma stop_fails_iff_no_keeper_witness :
  (exists b w', stop_all_except_one example_manager "Parcels" parcels_world = (Ok b, w')) /\
  (true = false <-> existsb (is_keeper example_manager "Parcels") [parcels; hosted_x] = false).
Proof.
  destruct (stop_fails_iff_no_keeper example_manager "Parcels" parcels_world I)
    as [Htot Hiff].
  split.
  - apply Htot. intros hist req. split; [apply parcels_listings_ok|].
    simpl. unfold table_server, get_default, parcels_table. simpl.
    repeat match goal with
           | |- context [String.eqb ?a ?b] => destruct (String.eqb a b)
           end;
      intros fs [= <-]; repeat constructor.
  - apply (Hiff [parcels; hosted_x]
             (snd (get_services example_manager parcels_world))
             true
             (snd (stop_all_except_one example_manager "Parcels" parcels_world)));
      vm_compute; reflexivity.
Defined.

(** C3 as stated fails: the keeper's name matches the
    discovered service Hosted/X, and the workflow still returns [False]. *)
Lemma stop_fails_though_name_discovered :
  fst (get_services example_manager parcels_world) = Ok [parcels; hosted_x] /\
  ~ (fst (stop_all_except_one example_manager "X" parcels_world) = Ok false <->
     existsb (fun s => name_is s "X") [parcels; hosted_x] = false).
Proof.
  split; [reflexivity|].
  intros [H _]. specialize (H eq_refl). discriminate H.
Qed.

(** A stop that fails is reported and changes nothing in the result: Roads
    cannot be stopped, Parcels is the keeper, and the workflow returns
    [True]. *)
Example stop_failure_is_soft :
  let run := stop_all_except_one example_manager "Parcels" two_services_world in
  fst run = Ok true /\
  calls (snd run) =
    [CallStop roads; CallUpdate parcels 1 1; CallDetails parcels; CallStart parcels] /\
  In (Say "Failed to stop service: Roads.MapServer") (out (snd run)).
Proof.
  cbv zeta. split; [vm_compute; reflexivity|]. split; [vm_compute; reflexivity|].
  vm_compute. repeat (first [left; reflexivity | right]).
Qed.

(** When no discovered service carries the keeper's name and the workflow
    returns, [stop_all_except_one] has entered [stop_service] for every
    discovered service outside the excluded folders, in order, sending each
    its stop request, and returns [False]; it returns when the server keeps
    to the shape of the API. *)
Theorem keeper_not_found_still_stops_all :
  forall self keep w svcs w1,
    authenticated self ->
    get_services self w = (Ok svcs, w1) ->
    (forall s, In s svcs -> name_is s keep = false) ->
    (well_behaved (transport w) ->
     exists w', stop_all_except_one self keep w = (Ok false, w')) /\
    (forall b w',
       stop_all_except_one self keep w = (Ok b, w') ->
       b = false /\
       calls w' = calls w1 ++ map CallStop (kept self svcs) /\
       log w' = log w1 ++ combine (map (stop_request self) (kept self svcs))
                            (replies (transport w) (log w1)
                               (map (stop_request self) (kept self svcs)))).
Proof.
  intros self keep w svcs w1 Hauth Hget Hno.
  assert (Hspec : forall b w',
             stop_all_except_one self keep w = (Ok b, w') ->
             b = false /\
             calls w' = calls w1 ++ map CallStop (kept self svcs) /\
             log w' = log w1 ++ combine (map (stop_request self) (kept self svcs))
                                  (replies (transport w) (log w1)
                                     (map (stop_request self) (kept self svcs)))).
  { intros b w' H. unfold stop_all_except_one in H.
    rewrite (bind_ok _ _ _ _ _ Hget) in H.
    pose proof Hget as Hg. spec get_services_spec in Hg. destruct Hg as ([Et _] & _).
    destruct svcs as [|s svcs].
    - inv_ok H as H0. apply print_spec in H0 as (_ & _ & _ & Ec & El).
      apply ret_spec in H as [[= ->] ->]. simpl. rewrite !app_nil_r. auto.
    - inv_ok H as H0.
      pose proof (stop_loop_found _ _ Hauth _ _ _ _ _ _ H0) as Hfound.
      apply (stop_loop_no_match _ _ Hauth) in H0; auto.
      destruct H0 as (_ & Ec & El).
      assert (Hnone : existsb (is_keeper self keep) (s :: svcs) = false).
      { apply not_true_is_false. intros Hex. apply existsb_exists in Hex.
        destruct Hex as (s0 & Hin & Hk). unfold is_keeper in Hk.
        rewrite (Hno _ Hin), andb_false_r in Hk. discriminate. }
      rewrite Hnone in Hfound. simpl in Hfound. rewrite Hfound in H.
      inv_ok H as H1. apply print_spec in H1 as (_ & _ & _ & Ec1 & El1).
      apply ret_spec in H as [[= ->] ->].
      rewrite Ec1, El1, Ec, El, Et. auto. }
  split; [|exact Hspec].
  intros Hwb. destruct (stop_all_except_one_total self keep w Hauth Hwb) as (b & w' & H).
  destruct (Hspec _ _ H) as [-> _]. eauto.
Qed.

Lemma parcels_well_behaved : well_behaved (transport parcels_world).
Proof.
  intros hist req. split; [apply parcels_listings_ok|].
  simpl. unfold table_server, get_default, parcels_table. simpl.
  repeat match goal with
         | |- context [String.eqb ?a ?b] => destruct (String.eqb a b)
         end;
    intros fs [= <-]; repeat constructor.
Qed.

Lemma keeper_not_found_still_stops_all_witness :
  exists w',
    stop_all_except_one example_manager "Roads" parcels_world = (Ok false, w') /\
    calls w' = [CallStop parcels].
Proof.
  destruct (keeper_not_found_still_stops_all example_manager "Roads" parcels_world
              [parcels; hosted_x] (snd (get_services example_manager parcels_world)))
    as [Htot Hspec].
  - exact I.
  - vm_compute. reflexivity.
  - intros s [<-|[<-|[]]]; reflexivity.
  - destruct (Htot parcels_well_behaved) as [w' H]. exists w'. split; [exact H|].
    destruct (Hspec _ _ H) as (_ & Hc & _). exact Hc.
Defined.

(** C10, where the code departs from it. The keeper's name matches neither
    of the two discovered services, Roads and Parcels, both outside the
    excluded folders; the server answers the stop of Roads with an [error]
    member that is a text. [_make_request] raises [AttributeError] on it,
    nothing in [stop_all_except_one] catches it, and the workflow ends
    there: Parcels is never sent a stop and no aggregate failure is
    returned. *)
Theorem keeper_not_found_stops_short :
  fst (get_services example_manager busy_world) = Ok [roads; parcels] /\
  existsb (fun s => name_is s "Nobody") [roads; parcels] = false /\
  kept example_manager [roads; parcels] = [roads; parcels] /\
  fst (stop_all_except_one example_manager "Nobody" busy_world) = Raise AttributeError /\
  calls (snd (stop_all_except_one example_manager "Nobody" busy_world))
    = [CallStop roads] /\
  wire (log (snd (stop_all_except_one example_manager "Nobody" busy_world)))
    = [(GET, "https://gis:6443/arcgis/admin/services");
       (POST, "https://gis:6443/arcgis/admin/services/Roads.MapServer/stop")].
Proof.
  split; [reflexivity|]. split; [reflexivity|]. split; [reflexivity|].
  split; [vm_compute; reflexivity|]. split; vm_compute; reflexivity.
Qed.

(** ** save *)

Lemma writerow_run path s d w :
  exists w',
    DictWriter_writerow path fieldnames (snapshot_row s d) w = (Ok tt, w') /\
    same_env w w' /\ log w' = log w /\
    calls w' = calls w ++ [CallWriteRow (snapshot_cells s d)] /\
    files w' = set_item path
                 (get_default path "" (files w) ++ record_text (snapshot_cells s d))%string
                 (files w).
Proof.
  unfold DictWriter_writerow.
  replace (forallb (fun kv => existsb (String.eqb (fst kv)) fieldnames) (snapshot_row s d))
    with true by reflexivity.
  change (map (fun k => get_default k (JStr "") (snapshot_row s d)) fieldnames)
    with (snapshot_cells s d).
  cbv zeta. unfold bind, enter, write, set_files. simpl log. simpl files.
  eexists. split; [reflexivity|]. simpl. repeat split.
Qed.

Lemma append_empty_r (s : string) : (s ++ "")%string = s.
Proof. induction s; simpl; congruence. Qed.

Lemma append_assoc (a b c : string) : ((a ++ b) ++ c = a ++ (b ++ c))%string.
Proof. induction a; simpl; congruence. Qed.

Lemma concat_nil_sep_cons x l :
  String.concat "" (x :: l) = (x ++ String.concat "" l)%string.
Proof.
  destruct l; simpl; auto.
  now rewrite append_empty_r.
Qed.

Lemma rows_text_cons r rows :
  rows_text (r :: rows) = (record_text r ++ rows_text rows)%string.
Proof. unfold rows_text. simpl map. apply concat_nil_sep_cons. Qed.

Lemma save_loop_ok self path :
  authenticated self ->
  forall svcs k w x w' old,
    save_loop self path svcs k w = (Ok x, w') ->
    lookup path (files w) = Some old ->
    same_env w w' /\
    log w' = log w ++ combine (map (details_request self) (kept self svcs))
                        (replies (transport w) (log w)
                           (map (details_request self) (kept self svcs))) /\
    lookup path (files w') =
      Some (old ++ rows_text
                     (fetched_rows
                        (combine (kept self svcs)
                           (replies (transport w) (log w)
                              (map (details_request self) (kept self svcs))))))%string.
Proof.
  intros Hauth. induction svcs as [|s svcs IH]; intros k w x w' old H Hold;
    cbn [save_loop] in H.
  - apply ret_spec in H as [_ ->]. simpl. unfold rows_text. simpl.
    rewrite app_nil_r, append_empty_r. auto using same_env_refl.
  - inv_ok H as H0. apply lift_spec in H0 as [Hex ->]. symmetry in Hex.
    rewrite kept_cons, (excluded_b_of _ _ _ Hex).
    destruct a.
    + inv_ok H as H0. apply print_spec in H0 as (_ & [Et Ecw] & Ef & _ & El).
      rewrite <- Ef in Hold.
      destruct (IH _ _ _ _ _ H Hold) as ([Et' Ecw'] & El' & Ef').
      rewrite Et, El in *. repeat split; congruence.
    + inv_ok H as H0. spec get_service_details_spec in H0.
      destruct H0 as ([Et Ecw] & Ef & _ & El & Er).
      fold (details_request self s) in El, Er.
      cbn [map replies combine fetched_rows]. rewrite <- Er.
      destruct a as [[|kv d]|].
      * rewrite <- Ef in Hold.
        destruct (IH _ _ _ _ _ H Hold) as ([Et' Ecw'] & El' & Ef').
        rewrite Et, El in *. split; [split; congruence|].
        split; [|exact Ef']. rewrite El', <- app_assoc. reflexivity.
      * inv_ok H as H1 w2.
        destruct (writerow_run path s (kv :: d) w1) as (w2' & E & [Et2 Ecw2] & El2 & _ & Ef2).
        rewrite E in H1. inversion H1; subst w2'; clear H1.
        inv_ok H as H3 w3. apply print_spec in H3 as (_ & [Et3 Ecw3] & Ef3 & _ & El3).
        assert (Hold3 : lookup path (files w3) =
                        Some (old ++ record_text (snapshot_cells s (kv :: d)))%string).
        { rewrite Ef3, Ef2, lookup_set_item_same. unfold get_default.
          rewrite Ef, Hold. reflexivity. }
        destruct (IH _ _ _ _ _ H Hold3) as ([Et' Ecw'] & El' & Ef').
        rewrite Et3, El3, Et2, El2, Et, El in *. split; [split; congruence|].
        split.
        -- rewrite El', <- app_assoc. reflexivity.
        -- rewrite Ef', rows_text_cons, append_assoc. reflexivity.
      * rewrite <- Ef in Hold.
        destruct (IH _ _ _ _ _ H Hold) as ([Et' Ecw'] & El' & Ef').
        rewrite Et, El in *. split; [split; congruence|].
        split; [|exact Ef']. rewrite El', <- app_assoc. reflexivity.
Qed.

Lemma save_loop_total self path :
  authenticated self ->
  forall svcs k w,
    envelope_ok (transport w) ->
    Forall (fun s => hashable (folder s)) svcs ->
    exists x w', save_loop self path svcs k w = (Ok x, w').
Proof.
  intros Hauth. induction svcs as [|s svcs IH]; intros k w Henv Hh; cbn [save_loop].
  - unfold ret. eauto.
  - inversion Hh as [|? ? Hs Hrest]; subst.
    destruct (in_excluded_hashable self _ Hs) as [b Hb].
    unfold bind at 1, lift. rewrite Hb. destruct b.
    + run_print. apply IH; eauto using envelope_same_env.
    + destruct (get_service_details_total self s w Hauth Henv) as (d & w1 & E1 & S1).
      rewrite (bind_ok _ _ _ _ _ E1).
      destruct d as [[|kv d]|]; apply IH; eauto using envelope_same_env.
Qed.

Lemma open_write_spec path w r w' :
  open_write path w = (r, w') ->
  same_env w w' /\ log w' = log w /\ calls w' = calls w /\
  (if can_write w path
   then r = Ok tt /\ files w' = set_item path "" (files w)
   else r = Raise OSError /\ files w' = files w).
Proof.
  unfold open_write. destruct (can_write w path); intros [= <- <-]; simpl;
    repeat split.
Qed.

Lemma writeheader_spec path w r w' :
  DictWriter_writeheader path fieldnames w = (r, w') ->
  r = Ok tt /\ same_env w w' /\ log w' = log w /\ calls w' = calls w /\
  files w' = set_item path (get_default path "" (files w) ++ header_text)%string (files w).
Proof.
  unfold DictWriter_writeheader, write. intros [= <- <-]. simpl. repeat split.
Qed.

Lemma save_services_state_ok self path w svcs w1 w' :
  authenticated self ->
  get_services self w = (Ok svcs, w1) ->
  save_services_state self path w = (Ok true, w') ->
  log w' = log w1 ++ combine (map (details_request self) (kept self svcs))
                       (replies (transport w) (log w1)
                          (map (details_request self) (kept self svcs))) /\
  lookup path (files w') =
    Some (header_text ++ rows_text
                           (fetched_rows
                              (combine (kept self svcs)
                                 (replies (transport w) (log w1)
                                    (map (details_request self) (kept self svcs))))))%string.
Proof.
  intros Hauth Hget H. unfold save_services_state in H.
  rewrite (bind_ok _ _ _ _ _ Hget) in H.
  pose proof Hget as Hg. spec get_services_spec in Hg. destruct Hg as ([Et _] & _).
  destruct svcs as [|s svcs].
  { inv_ok H as H0. apply ret_spec in H as [[=] _]. }
  unfold try_except in H.
  match type of H with
  | match ?body with _ => _ end = _ => destruct body as [[b|e] w2] eqn:E
  end.
  2:{ destruct e; inv_ok H as H0; apply ret_spec in H as [[=] _]. }
  inversion H; subst b w2; clear H.
  inv_ok E as H1 wa. apply open_write_spec in H1 as ([Eta _] & Ela & _ & Hfa).
  destruct (can_write w1 path); destruct Hfa as [[=] Hfa].
  inv_ok E as H2 wb. apply writeheader_spec in H2 as (_ & [Etb _] & Elb & _ & Hfb).
  inv_ok E as H3 wc.
  assert (Hold : lookup path (files wb) = Some header_text).
  { rewrite Hfb, lookup_set_item_same. unfold get_default.
    rewrite Hfa, lookup_set_item_same. reflexivity. }
  destruct (save_loop_ok self path Hauth _ _ _ _ _ _ H3 Hold) as (_ & Elc & Hfc).
  inv_ok E as H4 wd. apply print_spec in H4 as (_ & _ & Efd & _ & Eld).
  apply ret_spec in E as [_ ->].
  rewrite Eld, Efd, Elc, Hfc, Etb, Elb, Eta, Ela, Et. auto.
Qed.

Lemma save_services_state_total self path w svcs w1 :
  authenticated self ->
  get_services self w = (Ok svcs, w1) ->
  svcs <> [] ->
  can_write w path = true ->
  well_behaved (transport w) ->
  exists w', save_services_state self path w = (Ok true, w').
Proof.
  intros Hauth Hget Hne Hcw Hwb. unfold save_services_state.
  rewrite (bind_ok _ _ _ _ _ Hget).
  pose proof Hget as Hg. spec get_services_spec in Hg. destruct Hg as ([Et Ecw] & _).
  pose proof (get_services_hashable _ _ _ _ Hauth Hwb Hget) as Hh.
  destruct svcs as [|s svcs]; [congruence|].
  unfold try_except, bind at 1, open_write. rewrite Ecw, Hcw.
  unfold bind at 1, DictWriter_writeheader, write.
  match goal with
  | |- context [bind (save_loop self path ?l ?k) ?f ?w0] =>
      destruct (save_loop_total self path Hauth l k w0) as (x & w2 & E2);
        [simpl; rewrite Et; now apply well_behaved_envelope | exact Hh |];
        rewrite (bind_ok _ f _ _ _ E2)
  end.
  unfold bind, print, ret. eauto.
Qed.

(** The row of a record that holds the three keys is the row of the
    snapshot record it projects to. *)
Lemma snapshot_cells_cells_of s d cs mn mx :
  lookup "configuredState" d = Some cs ->
  lookup "minInstancesPerNode" d = Some (JInt mn) ->
  lookup "maxInstancesPerNode" d = Some (JInt mx) ->
  snapshot_cells s d =
  cells_of {| row_service := s; configured_state := cs;
              min_instances := mn; max_instances := mx |}.
Proof.
  intros Hcs Hmn Hmx. unfold snapshot_cells, cells_of, get_default.
  rewrite Hcs, Hmn, Hmx. now destruct s.
Qed.

(** C7, as the code has it. When [save_services_state] returns [True], the
    file holds the header and then, for each discovered service outside the
    excluded folders, in order, one row if the detail fetch (the GET of
    [{server_url}/arcgis/admin/services/{folder}/{name}.{type}]) gave a
    record that is not empty and none otherwise; the row is the service's
    folder, name and type followed by the record's [configuredState],
    [minInstancesPerNode] and [maxInstancesPerNode], with STOPPED, 1 and 1
    standing in for a key the record lacks. It returns [True] when the
    discovery gives a service, the file can be opened for writing and the
    server keeps to the shape of the API. *)
Theorem save_writes_one_row_per_fetched_service :
  forall self path w svcs w1,
    authenticated self ->
    get_services self w = (Ok svcs, w1) ->
    (svcs <> [] -> can_write w path = true -> well_behaved (transport w) ->
     exists w', save_services_state self path w = (Ok true, w')) /\
    (forall w',
       save_services_state self path w = (Ok true, w') ->
       lookup path (files w') =
         Some (header_text ++ rows_text
                 (fetched_rows
                    (combine (kept self svcs)
                       (replies (transport w) (log w1)
                          (map (record_request self) (kept self svcs))))))%string).
Proof.
  intros self path w svcs w1 Hauth Hget. split.
  - intros. eapply save_services_state_total; eauto.
  - intros w' H.
    replace (map (record_request self) (kept self svcs))
      with (map (details_request self) (kept self svcs))
      by (apply map_ext; intros s; apply details_request_signed).
    eapply save_services_state_ok; eauto.
Qed.

Lemma save_writes_one_row_per_fetched_service_witness :
  exists w',
    save_services_state example_manager "services.csv" (world_of restore_table [])
      = (Ok true, w') /\
    fetched_record (table_server restore_table [] (record_request example_manager hosted_x))
      <> None /\
    lookup "services.csv" (files w') =
      Some ("folder,service_name,service_type,configured_state,min_instances,max_instances"
            ++ CRLF ++ ",Parcels,MapServer,STARTED,2,4" ++ CRLF)%string.
Proof.
  destruct (save_writes_one_row_per_fetched_service example_manager "services.csv"
              (world_of restore_table []) [parcels; hosted_x]
              (snd (get_services example_manager (world_of restore_table []))))
    as [Htot Hspec].
  - exact I.
  - vm_compute. reflexivity.
  - destruct Htot as [w' H].
    + discriminate.
    + reflexivity.
    + exact restore_table_well_behaved.
    + exists w'. split; [exact H|]. split; [vm_compute; discriminate|].
      rewrite (Hspec _ H). vm_compute. reflexivity.
Defined.

(** C7 as stated fails: the fetch of the record of Parcels
    succeeds with an object that has none of the three members, and save
    writes the header alone, not the row with STOPPED, 1 and 1. *)
Lemma save_skips_empty_record :
  result_of (transport empty_record_world [] (details_request example_manager parcels))
    = Ok (Some []) /\
  fst (save_services_state example_manager "services.csv" empty_record_world) = Ok true /\
  lookup "services.csv"
    (files (snd (save_services_state example_manager "services.csv" empty_record_world)))
    = Some header_text /\
  header_text <> (header_text ++ ",Parcels,MapServer,STOPPED,1,1" ++ CRLF)%string.
Proof.
  split; [reflexivity|]. split; [vm_compute; reflexivity|].
  split; [vm_compute; reflexivity|]. vm_compute. discriminate.
Qed.

(** C5, as the code has it. When the enumeration gives at least one service,
    the snapshot file can be opened for writing and the server keeps to the
    shape of the API, [save_services_state] returns [True] however many
    detail fetches fail: each service outside the excluded folders is asked
    for its record once, and the file holds a row for those that gave one
    and none for the others. *)
Theorem save_succeeds_despite_failed_fetches :
  forall self path w svcs w1,
    authenticated self ->
    get_services self w = (Ok svcs, w1) ->
    svcs <> [] ->
    can_write w path = true ->
    well_behaved (transport w) ->
    exists w',
      save_services_state self path w = (Ok true, w') /\
      log w' = log w1 ++ combine (map (details_request self) (kept self svcs))
                           (replies (transport w) (log w1)
                              (map (details_request self) (kept self svcs))) /\
      lookup path (files w') =
        Some (header_text ++ rows_text
                (fetched_rows
                   (combine (kept self svcs)
                      (replies (transport w) (log w1)
                         (map (details_request self) (kept self svcs))))))%string.
Proof.
  intros self path w svcs w1 Hauth Hget Hne Hcw Hwb.
  destruct (save_services_state_total self path w svcs w1) as [w' H]; auto.
  exists w'. split; [exact H|]. eapply save_services_state_ok; eauto.
Qed.

Lemma two_services_well_behaved : well_behaved (transport two_services_world).
Proof.
  intros hist req. simpl. unfold table_server, get_default, two_services_table. simpl.
  repeat match goal with
         | |- context [String.eqb ?a ?b] => destruct (String.eqb a b)
         end;
    (split; [split; eexists; reflexivity | intros fs [= <-]; repeat constructor]).
Qed.

Lemma save_succeeds_despite_failed_fetches_witness :
  exists w',
    save_services_state example_manager "services.csv" two_services_world = (Ok true, w') /\
    map (fun x => r_url (fst x)) (log w') =
      ["https://gis:6443/arcgis/admin/services";
       "https://gis:6443/arcgis/admin/services/Roads.MapServer";
       "https://gis:6443/arcgis/admin/services/Parcels.MapServer"] /\
    lookup "services.csv" (files w') =
      Some ("folder,service_name,service_type,configured_state,min_instances,max_instances"
            ++ CRLF ++ ",Parcels,MapServer,STARTED,2,4" ++ CRLF)%string.
Proof.
  destruct (save_succeeds_despite_failed_fetches example_manager "services.csv"
              two_services_world [roads; parcels]
              (snd (get_services example_manager two_services_world)))
    as (w' & H & Hlog & Hfile).
  - exact I.
  - vm_compute. reflexivity.
  - discriminate.
  - reflexivity.
  - exact two_services_well_behaved.
  - exists w'. split; [exact H|]. split.
    + rewrite Hlog. vm_compute. reflexivity.
    + rewrite Hfile. vm_compute. reflexivity.
Defined.

Lemma save_fails_after_enumeration :
  (fst (get_services example_manager read_only_world) = Ok [parcels; hosted_x] /\
   fst (save_services_state example_manager "services.csv" read_only_world) = Ok false) /\
  (fst (get_services example_manager empty_server_world) = Ok [] /\
   result_of (transport empty_server_world [] (root_request example_manager))
     = Ok (Some [("folders", JList []); ("services", JList [])]) /\
   fst (save_services_state example_manager "services.csv" empty_server_world) = Ok false).
Proof. repeat split; vm_compute; reflexivity. Qed.

(** ** The excluded folders *)

Section CallsWithin.
Variable P : call -> Prop.


















End CallsWithin.










(** A snapshot row that names Hosted/X is passed over; the row of Parcels
    after it is carried out. *)
Example restore_skips_named_excluded_service :
  let run := restore_services_state example_manager "services.csv"
               (world_of parcels_table [("services.csv", hosted_snapshot)]) in
  fst run = Ok true /\
  calls (snd run) = [CallUpdate parcels 2 4; CallDetails parcels; CallStart parcels] /\
  In (Say "Skipping excluded service: Hosted/X.FeatureServer") (out (snd run)).
Proof.
  cbv zeta. split; [vm_compute; reflexivity|]. split; [vm_compute; reflexivity|].
  vm_compute. repeat (first [left; reflexivity | right]).
Qed.

(** ** restore *)


(** The two kinds of malformed row, under the header save writes *)
Lemma decode_row_non_integer f n t cs mn mx :
  int_of_text mn = None ->
  decode_row (row_dict fieldnames [f; n; t; cs; mn; mx]) = Raise ValueError.
Proof.
  intros H. unfold decode_row, row_dict, fieldnames.
  cbn [zip_row set_item String.eqb Ascii.eqb Bool.eqb row_item lookup fold_left py_int].
  now rewrite H.
Qed.

Lemma decode_row_short row :
  row <> [] ->
  (List.length row < 6)%nat ->
  exists e, decode_row (row_dict fieldnames row) = Raise e.
Proof.
  intros Hne Hlen.
  destruct row as [|c1 [|c2 [|c3 [|c4 [|c5 [|c6 row]]]]]];
    try congruence; try (simpl in Hlen; lia);
    unfold decode_row, row_dict, fieldnames;
    cbn [zip_row set_item String.eqb Ascii.eqb Bool.eqb row_item lookup fold_left py_int];
    eauto.
  destruct (int_of_text c5); eauto.
Qed.




(** ** Decimal text of an integer, read back by [int] *)

Lemma parse_digits_uint d :
  forall acc b,
    d <> Decimal.Nil \/ b = true ->
    parse_digits acc b (NilEmpty.string_of_uint d) = Some (digits_value acc d).
Proof.
  induction d; intros acc b Hb; simpl;
    try (apply IHd; auto).
  destruct Hb as [Hb| ->]; congruence.
Qed.

Lemma digits_value_acc d :
  forall acc, Zpos (Pos.of_uint_acc d acc) = digits_value (Zpos acc) d.
Proof.
  induction d; intros acc; cbn [Pos.of_uint_acc digits_value]; auto;
    rewrite IHd; f_equal; lia.
Qed.

Lemma digits_value_of_uint d : digits_value 0 d = Z.of_N (Pos.of_uint d).
Proof.
  induction d; simpl; auto;
    rewrite digits_value_acc; reflexivity.
Qed.

Lemma uint_all_digits d : all_chars is_digit (NilEmpty.string_of_uint d) = true.
Proof. induction d; simpl; auto. Qed.

Lemma digit_not_space c : is_digit c = true -> is_space c = false.
Proof.
  unfold is_digit, digit_value, is_space.
  destruct ((48 <=? N_of_ascii c) && (N_of_ascii c <=? 57))%N eqn:E; [|discriminate].
  intros _. apply andb_true_iff in E as [E1 E2].
  apply N.leb_le in E1. apply N.leb_le in E2. apply orb_false_iff. split.
  - apply andb_false_iff. right. apply N.leb_gt. lia.
  - apply N.eqb_neq. lia.
Qed.

Lemma rstrip_digits s : all_chars is_digit s = true -> rstrip s = s.
Proof.
  induction s as [|c s IH]; simpl; auto.
  intros H. apply andb_true_iff in H as [Hc Hs]. rewrite (IH Hs).
  destruct s; auto. now rewrite (digit_not_space _ Hc).
Qed.

Lemma lstrip_digits s : all_chars is_digit s = true -> lstrip s = s.
Proof.
  destruct s as [|c s]; simpl; auto.
  intros H. apply andb_true_iff in H as [Hc _]. now rewrite (digit_not_space _ Hc).
Qed.

Lemma count_digits_all s : all_chars is_digit s = true -> count_digits s = len s.
Proof.
  induction s as [|c s IH]; [reflexivity|].
  cbn [all_chars count_digits]. intros H. apply andb_true_iff in H as [Hc Hs].
  unfold is_digit in Hc. destruct (digit_value c); [|discriminate Hc].
  rewrite (IH Hs). unfold len. cbn [String.length]. lia.
Qed.

Lemma int_of_text_digits s :
  all_chars is_digit s = true ->
  int_of_text s =
    if (max_str_digits <? len s)%N then None else parse_digits 0 false s.
Proof.
  intros H. unfold int_of_text. cbv zeta.
  rewrite (lstrip_digits _ H), (rstrip_digits _ H), (count_digits_all _ H).
  destruct (max_str_digits <? len s)%N; [reflexivity|].
  destruct s as [|c s]; auto.
  simpl in H. apply andb_true_iff in H as [Hc _].
  destruct c as [[|] [|] [|] [|] [|] [|] [|] [|]]; try reflexivity; discriminate Hc.
Qed.

Lemma int_of_text_decimal n :
  0 <= n ->
  int_of_text (str_of_Z n) =
    if (max_str_digits <? len (str_of_Z n))%N then None else Some n.
Proof.
  intros Hn. destruct n as [|p|p]; [reflexivity| |lia].
  unfold str_of_Z. simpl Z.to_int.
  change (NilZero.string_of_int (Decimal.Pos (Pos.to_uint p)))
    with (NilZero.string_of_uint (Pos.to_uint p)).
  unfold NilZero.string_of_uint.
  pose proof (DecimalPos.Unsigned.to_uint_nonnil p) as Hnil.
  destruct (Pos.to_uint p) eqn:E; try congruence; rewrite <- E;
    rewrite int_of_text_digits by apply uint_all_digits;
    (destruct (max_str_digits <? _)%N; [reflexivity|]);
    rewrite parse_digits_uint by (left; congruence);
    rewrite digits_value_of_uint, DecimalPos.Unsigned.of_to; reflexivity.
Qed.

Lemma int_of_text_str_of_Z n :
  0 <= n -> printable n -> int_of_text (str_of_Z n) = Some n.
Proof.
  intros Hn Hp. rewrite int_of_text_decimal by exact Hn.
  unfold printable in Hp. apply N.ltb_ge in Hp. now rewrite Hp.
Qed.

(** ** The reader, character by character *)

Lemma file_lines_nil s : file_lines s = [] -> s = "".
Proof.
  destruct s as [|c s]; simpl; auto.
  destruct (Ascii.eqb c LF); [discriminate|].
  destruct (file_lines s); discriminate.
Qed.

Lemma read_records_stream s :
  terminated s = true ->
  forall r, read_records r (file_lines s) = stream r s.
Proof.
  induction s as [|c s IH]; intros Ht r; [reflexivity|].
  cbn [file_lines stream]. destruct (Ascii.eqb c LF) eqn:Ec.
  - assert (Ht' : terminated s = true) by (destruct s; auto).
    cbn [read_records process_line].
    destruct (parse_process_char r (Some c)) as [r1|e]; [|reflexivity].
    destruct (parse_process_char r1 None) as [r2|e]; [|reflexivity].
    destruct (at_start r2); rewrite IH; auto.
  - destruct s as [|c' s']; [simpl in Ht; congruence|].
    assert (Ht' : terminated (String c' s') = true) by exact Ht.
    specialize (IH Ht').
    destruct (file_lines (String c' s')) as [|l ls] eqn:El.
    { apply file_lines_nil in El. discriminate. }
    cbn [read_records process_line].
    destruct (parse_process_char r (Some c)) as [r1|e]; [|reflexivity].
    rewrite <- IH. reflexivity.
Qed.

Lemma terminated_app s t : t <> "" -> terminated (s ++ t) = terminated t.
Proof.
  intros Ht. induction s as [|c s IH]; [reflexivity|].
  cbn [append terminated]. destruct (s ++ t)%string eqn:E; [|exact IH].
  destruct s; simpl in E; congruence.
Qed.

Lemma len_cons c s : len (String c s) = (len s + 1)%N.
Proof. unfold len. simpl String.length. lia. Qed.

Lemma add_char_ok st fs buf n c :
  (n < field_limit)%N ->
  parse_add_char (mk_reader st fs buf n) c = Ok (mk_reader st fs (c :: buf) (n + 1)).
Proof.
  intros H. unfold parse_add_char, mk_reader. simpl.
  destruct (field_limit <=? n)%N eqn:E; [apply N.leb_le in E; lia|reflexivity].
Qed.

Lemma field_quoted_cons c s :
  field_quoted (String c s) = false ->
  Ascii.eqb c delimiter = false /\ Ascii.eqb c quote_char = false /\
  Ascii.eqb c CR = false /\ Ascii.eqb c LF = false /\ field_quoted s = false.
Proof.
  simpl. intros H. repeat (apply orb_false_iff in H as [H ?]). auto.
Qed.

Lemma stream_plain f :
  forall fs buf n rest,
    field_quoted f = false ->
    (n + len f <= field_limit)%N ->
    stream (mk_reader IN_FIELD fs buf n) (f ++ rest) =
    stream (mk_reader IN_FIELD fs (rev (list_ascii_of_string f) ++ buf) (n + len f)) rest.
Proof.
  induction f as [|c f IH]; intros fs buf n rest Hq Hn.
  - simpl. unfold len. simpl. now rewrite N.add_0_r.
  - apply field_quoted_cons in Hq as (Hd & Hqc & Hcr & Hlf & Hq).
    rewrite len_cons in Hn.
    cbn [append stream]. unfold parse_process_char. cbn [state mk_reader].
    unfold is_newline. rewrite Hlf, Hcr, Hd. cbn [orb].
    rewrite add_char_ok by lia.
    rewrite IH by (auto; lia).
    cbn [list_ascii_of_string rev]. rewrite <- app_assoc. cbn [app].
    rewrite len_cons. do 2 f_equal. lia.
Qed.

Lemma stream_quoted f :
  forall fs buf n rest,
    (n + len f <= field_limit)%N ->
    stream (mk_reader IN_QUOTED_FIELD fs buf n) (double_quotes f ++ rest) =
    stream (mk_reader IN_QUOTED_FIELD fs (rev (list_ascii_of_string f) ++ buf) (n + len f))
      rest.
Proof.
  induction f as [|c f IH]; intros fs buf n rest Hn.
  - simpl. unfold len. simpl. now rewrite N.add_0_r.
  - rewrite len_cons in Hn.
    assert (Hgoal : stream (mk_reader IN_QUOTED_FIELD fs (c :: buf) (n + 1))
                      (double_quotes f ++ rest) =
                    stream (mk_reader IN_QUOTED_FIELD fs
                              (rev (list_ascii_of_string (String c f)) ++ buf)
                              (n + len (String c f))) rest).
    { rewrite IH by lia. cbn [list_ascii_of_string rev]. rewrite <- app_assoc. cbn [app].
      rewrite len_cons. do 2 f_equal. lia. }
    cbn [double_quotes]. destruct (Ascii.eqb c quote_char) eqn:Eq.
    + apply Ascii.eqb_eq in Eq. subst c.
      cbn [append stream]. unfold parse_process_char at 1. cbn [state mk_reader].
      rewrite Ascii.eqb_refl.
      replace (Ascii.eqb quote_char LF) with false by reflexivity.
      unfold set_state. cbn [state fields field field_len mk_reader].
      unfold parse_process_char. cbn [state].
      rewrite Ascii.eqb_refl.
      change {| state := QUOTE_IN_QUOTED_FIELD; fields := fs; field := buf; field_len := n |}
        with (mk_reader QUOTE_IN_QUOTED_FIELD fs buf n).
      rewrite add_char_ok by lia.
      unfold set_state. cbn [state fields field field_len mk_reader].
      exact Hgoal.
    + cbn [append stream]. unfold parse_process_char at 1. cbn [state mk_reader].
      rewrite Eq.
      change {| state := IN_QUOTED_FIELD; fields := fs; field := buf; field_len := n |}
        with (mk_reader IN_QUOTED_FIELD fs buf n).
      rewrite add_char_ok by lia.
      destruct (Ascii.eqb c LF); [|exact Hgoal].
      unfold parse_process_char. cbn [state mk_reader at_start]. exact Hgoal.
Qed.

Lemma saved_field f :
  string_of_list_ascii (rev_append (rev (list_ascii_of_string f)) []) = f.
Proof.
  rewrite rev_append_rev, app_nil_r, rev_involutive.
  apply string_of_list_ascii_of_string.
Qed.

Lemma stream_field_body fs f :
  (len f <= field_limit)%N ->
  exists st,
    field_end st /\
    forall rest,
      stream (mk_reader START_FIELD fs [] 0) (write_field f ++ rest) =
      stream (mk_reader st fs (rev (list_ascii_of_string f)) (len f)) rest.
Proof.
  intros Hn. unfold write_field. destruct (field_quoted f) eqn:Hq.
  - exists QUOTE_IN_QUOTED_FIELD. split; [unfold field_end; auto|]. intros rest.
    cbn [append stream]. unfold parse_process_char at 1. cbn [state mk_reader].
    unfold start_field.
    replace (is_newline quote_char) with false by reflexivity.
    rewrite Ascii.eqb_refl.
    replace (Ascii.eqb quote_char LF) with false by reflexivity.
    unfold set_state. cbn [fields field field_len].
    change {| state := IN_QUOTED_FIELD; fields := fs; field := []; field_len := 0 |}
      with (mk_reader IN_QUOTED_FIELD fs [] 0).
    rewrite append_assoc, stream_quoted by (rewrite N.add_0_l; exact Hn).
    rewrite app_nil_r, N.add_0_l.
    cbn [append stream]. unfold parse_process_char at 1. cbn [state mk_reader].
    rewrite Ascii.eqb_refl.
    replace (Ascii.eqb quote_char LF) with false by reflexivity.
    reflexivity.
  - destruct f as [|c f].
    + exists START_FIELD. split; [unfold field_end; auto|]. reflexivity.
    + exists IN_FIELD. split; [unfold field_end; auto|]. intros rest.
      apply field_quoted_cons in Hq as (Hd & Hqc & Hcr & Hlf & Hq).
      rewrite len_cons in Hn.
      cbn [append stream]. unfold parse_process_char at 1. cbn [state mk_reader].
      unfold start_field, is_newline. rewrite Hlf, Hcr, Hqc, Hd. cbn [orb].
      change {| state := START_FIELD; fields := fs; field := []; field_len := 0 |}
        with (mk_reader START_FIELD fs [] 0).
      rewrite add_char_ok by (unfold field_limit in *; lia).
      unfold set_state. cbn [fields field field_len mk_reader].
      change {| state := IN_FIELD; fields := fs; field := [c]; field_len := 0 + 1 |}
        with (mk_reader IN_FIELD fs [c] (0 + 1)).
      rewrite stream_plain by (auto; lia).
      cbn [list_ascii_of_string rev]. rewrite len_cons.
      do 2 f_equal. lia.
Qed.

Lemma step_delimiter st fs buf n :
  field_end st ->
  parse_process_char (mk_reader st fs buf n) (Some delimiter) =
  Ok (mk_reader START_FIELD (fs ++ [string_of_list_ascii (rev_append buf [])]) [] 0).
Proof. intros [->|[->| ->]]; reflexivity. Qed.

Lemma step_line_end st fs buf n :
  field_end st ->
  parse_process_char (mk_reader st fs buf n) (Some LF) =
  Ok (mk_reader EAT_CRNL (fs ++ [string_of_list_ascii (rev_append buf [])]) [] 0).
Proof. intros [->|[->| ->]]; reflexivity. Qed.

Lemma stream_field_comma fs f rest :
  (len f <= field_limit)%N ->
  stream (mk_reader START_FIELD fs [] 0) (write_field f ++ String delimiter rest) =
  stream (mk_reader START_FIELD (fs ++ [f]) [] 0) rest.
Proof.
  intros Hn. destruct (stream_field_body fs f Hn) as (st & Hst & ->).
  cbn [stream]. rewrite (step_delimiter _ _ _ _ Hst), saved_field. reflexivity.
Qed.

Lemma stream_field_lf fs f rest :
  (len f <= field_limit)%N ->
  stream (mk_reader START_FIELD fs [] 0) (write_field f ++ String LF rest) =
  Ok (fs ++ [f]) :: stream parse_reset rest.
Proof.
  intros Hn. destruct (stream_field_body fs f Hn) as (st & Hst & ->).
  cbn [stream]. rewrite (step_line_end _ _ _ _ Hst), saved_field. reflexivity.
Qed.

Lemma stream_row fs :
  forall done rest,
    fs <> [] ->
    Forall (fun f => (len f <= field_limit)%N) fs ->
    stream (mk_reader START_FIELD done [] 0)
      (join "," (map write_field fs) ++ String LF rest) =
    Ok (done ++ fs) :: stream parse_reset rest.
Proof.
  induction fs as [|f fs IH]; intros done rest Hne Hok; [congruence|].
  inversion Hok as [|? ? Hf Hfs]; subst.
  destruct fs as [|f' fs].
  - cbn [map join]. now apply stream_field_lf.
  - change (join "," (map write_field (f :: f' :: fs)))
      with (write_field f ++ "," ++ join "," (map write_field (f' :: fs)))%string.
    rewrite append_assoc.
    change (("," ++ join "," (map write_field (f' :: fs))) ++ String LF rest)%string
      with (String delimiter (join "," (map write_field (f' :: fs)) ++ String LF rest)).
    rewrite stream_field_comma by exact Hf.
    rewrite IH by (auto; discriminate).
    rewrite <- app_assoc. reflexivity.
Qed.

Lemma stream_start c s :
  is_newline c = false ->
  stream parse_reset (String c s) = stream (mk_reader START_FIELD [] [] 0) (String c s).
Proof.
  intros H. cbn [stream]. unfold parse_process_char. cbn [state parse_reset mk_reader].
  rewrite H. reflexivity.
Qed.

Lemma field_first_char f rest :
  exists c s,
    (write_field f ++ String delimiter rest)%string = String c s /\ is_newline c = false.
Proof.
  unfold write_field. destruct (field_quoted f) eqn:Hq.
  - eexists _, _. split; reflexivity.
  - destruct f as [|c f].
    + eexists _, _. split; reflexivity.
    + apply field_quoted_cons in Hq as (_ & _ & Hcr & Hlf & _).
      exists c, (f ++ String delimiter rest)%string. split; [reflexivity|].
      unfold is_newline. now rewrite Hlf, Hcr.
Qed.

(** A row of two fields or more, read from the start of a record *)
Lemma stream_record f f' fs rest :
  Forall (fun x => (len x <= field_limit)%N) (f :: f' :: fs) ->
  stream parse_reset (join "," (map write_field (f :: f' :: fs)) ++ String LF rest) =
  Ok (f :: f' :: fs) :: stream parse_reset rest.
Proof.
  intros Hok.
  assert (Hstart : stream parse_reset
                     (join "," (map write_field (f :: f' :: fs)) ++ String LF rest) =
                   stream (mk_reader START_FIELD [] [] 0)
                     (join "," (map write_field (f :: f' :: fs)) ++ String LF rest)).
  { change (join "," (map write_field (f :: f' :: fs)))
      with (write_field f ++ "," ++ join "," (map write_field (f' :: fs)))%string.
    rewrite append_assoc.
    change (("," ++ join "," (map write_field (f' :: fs))) ++ String LF rest)%string
      with (String delimiter (join "," (map write_field (f' :: fs)) ++ String LF rest)).
    destruct (field_first_char f
                (join "," (map write_field (f' :: fs)) ++ String LF rest))
      as (c & s & -> & Hc).
    now apply stream_start. }
  rewrite Hstart. now rewrite stream_row by (auto; discriminate).
Qed.

(** ** Newline translation of a written snapshot *)

Lemma no_cr_cons c s : no_cr (String c s) = negb (Ascii.eqb CR c) && no_cr s.
Proof. unfold no_cr. simpl. now rewrite negb_orb. Qed.

Lemma no_cr_app a b : no_cr (a ++ b) = no_cr a && no_cr b.
Proof.
  induction a as [|c a IH]; [reflexivity|].
  cbn [append]. rewrite !no_cr_cons, IH. now rewrite andb_assoc.
Qed.

Lemma no_cr_double_quotes s : no_cr s = true -> no_cr (double_quotes s) = true.
Proof.
  induction s as [|c s IH]; [reflexivity|].
  rewrite no_cr_cons. intros H. apply andb_true_iff in H as [Hc Hs].
  cbn [double_quotes]. destruct (Ascii.eqb c quote_char);
    rewrite ?no_cr_cons, Hc, IH; auto.
Qed.

Lemma no_cr_write_field s : no_cr s = true -> no_cr (write_field s) = true.
Proof.
  intros H. unfold write_field. destruct (field_quoted s); auto.
  rewrite no_cr_cons, no_cr_app, no_cr_double_quotes; auto.
Qed.

Lemma no_cr_join (l : list string) :
  Forall (fun s => no_cr s = true) l -> no_cr (join "," l) = true.
Proof.
  induction l as [|x l IH]; intros H; [reflexivity|].
  inversion H as [|? ? Hx Hl]; subst. destruct l as [|y l]; [exact Hx|].
  change (join "," (x :: y :: l)) with (x ++ "," ++ join "," (y :: l))%string.
  rewrite !no_cr_app, Hx, IH; auto.
Qed.

Lemma translate_no_cr s rest :
  no_cr s = true -> translate_newlines (s ++ rest) = (s ++ translate_newlines rest)%string.
Proof.
  induction s as [|c s IH]; [reflexivity|].
  rewrite no_cr_cons. intros H. apply andb_true_iff in H as [Hc Hs].
  cbn [append translate_newlines]. rewrite Ascii.eqb_sym.
  apply negb_true_iff in Hc. rewrite Hc. now rewrite IH.
Qed.

Lemma translate_line body rest :
  no_cr body = true ->
  translate_newlines ((body ++ CRLF) ++ rest) =
  (body ++ String LF (translate_newlines rest))%string.
Proof.
  intros H. rewrite append_assoc, translate_no_cr by exact H. reflexivity.
Qed.

Lemma digits_no_cr s : all_chars is_digit s = true -> no_cr s = true.
Proof.
  induction s as [|c s IH]; [reflexivity|].
  simpl. intros H. apply andb_true_iff in H as [Hc Hs].
  rewrite no_cr_cons, (IH Hs), andb_true_r.
  destruct c as [[|] [|] [|] [|] [|] [|] [|] [|]]; try reflexivity; discriminate Hc.
Qed.

Lemma str_of_Z_digits n : 0 <= n -> all_chars is_digit (str_of_Z n) = true.
Proof.
  intros Hn. destruct n as [|p|p]; [reflexivity| |lia].
  unfold str_of_Z. simpl Z.to_int.
  change (NilZero.string_of_int (Decimal.Pos (Pos.to_uint p)))
    with (NilZero.string_of_uint (Pos.to_uint p)).
  unfold NilZero.string_of_uint.
  destruct (Pos.to_uint p) eqn:E; try reflexivity; rewrite <- E; apply uint_all_digits.
Qed.

(** ** The round trip *)

Lemma record_text_fields f n t cs mn mx :
  record_text (cells_of (snapshot_record f n t cs mn mx)) =
  (join "," (map write_field (row_fields f n t cs mn mx)) ++ CRLF)%string.
Proof. reflexivity. Qed.

Lemma row_fields_ok f n t cs mn mx :
  field_ok f -> field_ok n -> field_ok t -> field_ok cs ->
  0 <= mn -> 0 <= mx ->
  (len (str_of_Z mn) <= field_limit)%N ->
  (len (str_of_Z mx) <= field_limit)%N ->
  Forall field_ok (row_fields f n t cs mn mx).
Proof.
  intros. unfold row_fields. repeat constructor; try tauto;
    try (apply digits_no_cr, str_of_Z_digits; assumption); try apply H; auto.
  all: first [apply H0 | apply H1 | apply H2 | idtac].
Qed.

Lemma record_text_cells r :
  record_text (cells_of r) =
  (join "," (map write_field (fields_of_record r)) ++ CRLF)%string.
Proof. reflexivity. Qed.

Lemma snapshot_ok_fields r :
  snapshot_ok r ->
  Forall field_ok (fields_of_record r) /\
  exists f f' l, fields_of_record r = f :: f' :: l.
Proof.
  intros (f & n & t & cs & Hr & Hf & Hn & Ht & Hcs & Hb & Hmn & Hmx).
  destruct r as [svc st mn mx]. cbn [min_instances max_instances] in *.
  rewrite Hr. split.
  - change (Forall field_ok (row_fields f n t cs mn mx)).
    apply row_fields_ok; try assumption; lia.
  - eexists _, _, _. reflexivity.
Qed.

Lemma translate_rows_text records :
  Forall snapshot_ok records ->
  translate_newlines (rows_text (map cells_of records)) =
  rows_read (map fields_of_record records).
Proof.
  induction records as [|r records IH]; intros H; [reflexivity|].
  inversion H as [|? ? Hr Hrs]; subst.
  cbn [map]. rewrite rows_text_cons, record_text_cells, translate_line, IH; auto.
  apply no_cr_join. apply snapshot_ok_fields in Hr as [Hok _].
  induction Hok as [|x l [Hx _] _ IHl]; constructor; auto.
  now apply no_cr_write_field.
Qed.

Lemma stream_rows rows :
  Forall (fun fs => Forall (fun x => (len x <= field_limit)%N) fs /\
                    exists f f' l, fs = f :: f' :: l) rows ->
  stream parse_reset (rows_read rows) = map Ok rows.
Proof.
  induction rows as [|fs rows IH]; intros H; [reflexivity|].
  inversion H as [|? ? [Hok (f & f' & l & ->)] Hrows]; subst.
  cbn [rows_read]. rewrite stream_record by exact Hok. now rewrite IH.
Qed.

Lemma terminated_rows_read rows : terminated (rows_read rows) = true.
Proof.
  induction rows as [|fs rows IH]; [reflexivity|].
  cbn [rows_read]. rewrite terminated_app by discriminate.
  cbn [terminated]. destruct (rows_read rows); auto.
Qed.

Lemma fieldnames_fields_ok :
  Forall (fun x => (len x <= field_limit)%N) fieldnames.
Proof. repeat constructor; vm_compute; discriminate. Qed.

Lemma csv_reader_encode records :
  Forall snapshot_ok records ->
  csv_reader (translate_newlines (encode records)) =
  Ok fieldnames :: map Ok (map fields_of_record records).
Proof.
  intros H. unfold csv_reader, encode.
  change header_text
    with (join "," (map write_field fieldnames) ++ CRLF)%string.
  rewrite translate_line by reflexivity.
  rewrite translate_rows_text by exact H.
  change (join "," (map write_field fieldnames)
          ++ String LF (rows_read (map fields_of_record records)))%string
    with (rows_read (fieldnames :: map fields_of_record records)).
  rewrite read_records_stream by apply terminated_rows_read.
  rewrite stream_rows; [reflexivity|].
  constructor.
  - split; [exact fieldnames_fields_ok|]. eexists _, _, _. reflexivity.
  - apply Forall_map. eapply Forall_impl; [|exact H].
    intros r Hr. apply snapshot_ok_fields in Hr as [Hok Hshape]. split; auto.
    eapply Forall_impl; [|exact Hok]. intros x [_ Hx]. exact Hx.
Qed.

Lemma decode_row_fields f n t cs mn mx :
  0 <= mn -> 0 <= mx -> printable mn -> printable mx ->
  decode_row (row_dict fieldnames (row_fields f n t cs mn mx)) =
  Ok (snapshot_record f n t cs mn mx).
Proof.
  intros Hmn Hmx Pmn Pmx. unfold decode_row, row_dict, row_fields, fieldnames.
  cbn [zip_row set_item String.eqb Ascii.eqb Bool.eqb row_item lookup fold_left].
  cbn [py_int]. rewrite !int_of_text_str_of_Z by assumption. reflexivity.
Qed.

(** A bound of more than 4300 digits is refused by [int]. *)
Lemma decode_row_fields_cases f n t cs mn mx :
  0 <= mn -> 0 <= mx ->
  decode_row (row_dict fieldnames (row_fields f n t cs mn mx)) =
    Ok (snapshot_record f n t cs mn mx) \/
  decode_row (row_dict fieldnames (row_fields f n t cs mn mx)) = Raise ValueError.
Proof.
  intros Hmn Hmx. unfold decode_row, row_dict, row_fields, fieldnames.
  cbn [zip_row set_item String.eqb Ascii.eqb Bool.eqb row_item lookup fold_left].
  cbn [py_int]. rewrite !int_of_text_decimal by assumption.
  destruct (max_str_digits <? len (str_of_Z mn))%N; [now right|].
  destruct (max_str_digits <? len (str_of_Z mx))%N; [now right|now left].
Qed.

Lemma field_limit_digits n : printable n -> (len (str_of_Z n) <= field_limit)%N.
Proof. unfold printable, max_str_digits, field_limit. lia. Qed.

Lemma snapshot_safe_ok r : snapshot_safe r -> snapshot_ok r.
Proof.
  intros (f & n & t & cs & Hr & [Hf _] & [Hn _] & [Ht _] & [Hcs _] & Hb & Pmn & Pmx).
  exists f, n, t, cs. repeat split; try assumption; try apply Hb;
    first [apply Hf | apply Hn | apply Ht | apply Hcs | now apply field_limit_digits].
Qed.

Lemma Forall_snapshot_safe_ok records :
  Forall snapshot_safe records -> Forall snapshot_ok records.
Proof. intros H. eapply Forall_impl; [|exact H]. exact snapshot_safe_ok. Qed.


Ltac safe_records :=
  repeat constructor;
  (eexists _, _, _, _; split; [reflexivity|];
   repeat split; try reflexivity; try (vm_compute; discriminate)).




(** * Further properties of the manager *)

(** ** Steps that respect a relation between worlds *)

Section Respects.
Variable R : World -> World -> Prop.
Hypothesis R_refl : forall w, R w w.
Hypothesis R_trans : forall w1 w2 w3, R w1 w2 -> R w2 w3 -> R w1 w3.
Hypothesis R_print : forall s w, R w (snd (print s w)).
Hypothesis R_print_exn : forall s e w, R w (snd (print_exn s e w)).
Hypothesis R_enter : forall c w, R w (snd (enter c w)).
Variable Sends : request -> Prop.
Hypothesis R_send : forall r, Sends r -> forall w, R w (snd (send r w)).
Variable Writes : string -> Prop.
Hypothesis R_open : forall p, Writes p -> forall w, R w (snd (open_write p w)).
Hypothesis R_write : forall p, Writes p -> forall t w, R w (snd (write p t w)).

Lemma rs_ret {A} (a : A) : respects R (ret a).
Proof. intros w. apply R_refl. Qed.

Lemma rs_raise {A} e : respects R (@raise A e).
Proof. intros w. apply R_refl. Qed.

Lemma rs_lift {A} (x : res A) : respects R (lift x).
Proof. intros w. apply R_refl. Qed.

Lemma rs_print s : respects R (print s).
Proof. intros w. apply R_print. Qed.

Lemma rs_bind {A B} (m : M A) (k : A -> M B) :
  respects R m -> (forall a, respects R (k a)) -> respects R (bind m k).
Proof.
  intros Hm Hk w. unfold bind. specialize (Hm w).
  destruct (m w) as [[a|e] w1]; simpl in *; auto.
  eapply R_trans; [exact Hm|apply Hk].
Qed.

Lemma rs_bind_lift {A B} (x : res A) (k : A -> M B) :
  (forall a, x = Ok a -> respects R (k a)) -> respects R (bind (lift x) k).
Proof.
  intros Hk. destruct x as [a|e].
  - intros w. apply (Hk a eq_refl).
  - intros w. apply R_refl.
Qed.

Lemma rs_try {A} (m : M A) (h : exn -> M A) :
  respects R m -> (forall e, respects R (h e)) -> respects R (try_except m h).
Proof.
  intros Hm Hh w. unfold try_except. specialize (Hm w).
  destruct (m w) as [[a|e] w1]; simpl in *; auto.
  eapply R_trans; [exact Hm|apply Hh].
Qed.

Lemma rs_if {A} (b : bool) (m1 m2 : M A) :
  respects R m1 -> respects R m2 -> respects R (if b then m1 else m2).
Proof. now destruct b. Qed.

Lemma rs_make_request self endpoint data meth :
  (authenticated self -> Sends (request_of self endpoint data meth)) ->
  respects R (_make_request self endpoint data meth).
Proof.
  unfold authenticated, request_of, the_token, _make_request. intros HP.
  destruct (token self) as [[|c tok]|].
  - apply rs_bind; [apply rs_print|]. intros _. apply rs_ret.
  - apply rs_bind; [intros w; apply R_send; apply HP; exact I|].
    intros [e|d].
    + apply rs_bind; [apply rs_print|]. intros _. apply rs_ret.
    + destruct (has_key "error" d); [|apply rs_ret].
      apply rs_bind; [apply rs_lift|]. intros msg.
      apply rs_bind; [apply rs_print|]. intros _. apply rs_ret.
  - apply rs_bind; [apply rs_print|]. intros _. apply rs_ret.
Qed.

Lemma rs_get_folder_services self folders :
  (forall r, allowed self [KFolder] r -> Sends r) ->
  forall acc, respects R (get_folder_services self folders acc).
Proof.
  intros HP. induction folders as [|f folders IH]; intros acc; cbn [get_folder_services].
  - apply rs_ret.
  - apply rs_bind.
    + apply rs_make_request. intros Ha. apply HP. split; [exact Ha|].
      exists KFolder. split; [simpl; auto|]. apply sent_folder.
    + intros r. apply rs_bind; [apply rs_lift|]. intros more. apply IH.
Qed.

Lemma rs_get_services self :
  (forall r, allowed self [KRoot; KFolder] r -> Sends r) ->
  respects R (get_services self).
Proof.
  intros HP. unfold get_services. apply rs_bind.
  - apply rs_make_request. intros Ha. apply HP. split; [exact Ha|].
    exists KRoot. split; [simpl; auto|]. apply sent_root.
  - assert (Hf : forall folders acc, respects R (get_folder_services self folders acc)).
    { intros folders. apply rs_get_folder_services. intros r (Ha & k & [<-|[]] & Hk).
      apply HP. split; [exact Ha|]. exists KFolder. split; [simpl; auto|exact Hk]. }
    intros [d|]; (apply rs_bind; [apply rs_lift|]); intros svcs; [|apply rs_ret].
    destruct (lookup "folders" d); [|apply rs_ret].
    apply rs_bind; [apply rs_lift|]. intros fs. apply Hf.
Qed.

Lemma rs_get_service_details self s :
  (forall r, allowed self [KDetails] r -> Sends r) ->
  respects R (get_service_details self s).
Proof.
  intros HP. unfold get_service_details.
  apply rs_bind; [intros w; apply R_enter|]. intros _.
  apply rs_make_request. intros Ha. apply HP. split; [exact Ha|].
  exists KDetails. split; [simpl; auto|]. apply sent_details.
Qed.

Lemma rs_start_service self s :
  (forall r, allowed self [KStart] r -> Sends r) ->
  respects R (start_service self s).
Proof.
  intros HP. unfold start_service.
  apply rs_bind; [intros w; apply R_enter|]. intros _.
  apply rs_bind; [|intros r; apply rs_ret].
  apply rs_make_request. intros Ha. apply HP. split; [exact Ha|].
  exists KStart. split; [simpl; auto|]. apply sent_start.
Qed.

Lemma rs_stop_service self s :
  (forall r, allowed self [KStop] r -> Sends r) ->
  respects R (stop_service self s).
Proof.
  intros HP. unfold stop_service.
  apply rs_bind; [intros w; apply R_enter|]. intros _.
  apply rs_bind; [|intros r; apply rs_ret].
  apply rs_make_request. intros Ha. apply HP. split; [exact Ha|].
  exists KStop. split; [simpl; auto|]. apply sent_stop.
Qed.

Lemma rs_update_service_instances self s mn mx :
  (forall r, allowed self [KDetails; KEdit] r -> Sends r) ->
  respects R (update_service_instances self s mn mx).
Proof.
  intros HP. unfold update_service_instances.
  apply rs_bind; [intros w; apply R_enter|]. intros _.
  apply rs_bind.
  - apply rs_get_service_details. intros r (Ha & k & [<-|[]] & Hk).
    apply HP. split; [exact Ha|]. exists KDetails. split; [simpl; auto|exact Hk].
  - intros [[|kv d]|]; try apply rs_ret.
    apply rs_bind; [|intros r; apply rs_ret].
    apply rs_make_request. intros Ha. apply HP. split; [exact Ha|].
    exists KEdit. split; [simpl; auto|]. apply sent_edit.
Qed.

Lemma allowed_incl self ks ks' r :
  incl ks ks' -> allowed self ks r -> allowed self ks' r.
Proof. intros Hi (Ha & k & Hk & Hs). split; [exact Ha|]. exists k. split; auto. Qed.

Ltac kinds_incl :=
  let k := fresh "k" in
  let H := fresh "H" in
  intros k H; simpl in H |- *; tauto.

Lemma rs_writerow path names rowdict :
  Writes path -> respects R (DictWriter_writerow path names rowdict).
Proof.
  intros Hw. unfold DictWriter_writerow.
  destruct (forallb _ rowdict); [|apply rs_raise].
  apply rs_bind; [intros w; apply R_enter|]. intros _.
  intros w. now apply R_write.
Qed.

Lemma rs_save_loop self path svcs :
  (forall r, allowed self [KDetails] r -> Sends r) ->
  Writes path ->
  forall k, respects R (save_loop self path svcs k).
Proof.
  intros HP Hw. induction svcs as [|s svcs IH]; intros k; cbn [save_loop].
  - apply rs_ret.
  - apply rs_bind; [apply rs_lift|]. intros [|].
    + apply rs_bind; [apply rs_print|]. intros _. apply IH.
    + apply rs_bind; [now apply rs_get_service_details|].
      intros [[|kv d]|]; try apply IH.
      apply rs_bind; [now apply rs_writerow|]. intros _.
      apply rs_bind; [apply rs_print|]. intros _. apply IH.
Qed.

Lemma rs_save_services_state self path :
  (forall r, allowed self [KRoot; KFolder; KDetails] r -> Sends r) ->
  Writes path ->
  respects R (save_services_state self path).
Proof.
  intros HP Hw. unfold save_services_state. apply rs_bind.
  - apply rs_get_services. intros r Hr. apply HP.
    eapply allowed_incl; [|exact Hr]. kinds_incl.
  - intros [|s svcs].
    + apply rs_bind; [apply rs_print|]. intros _. apply rs_ret.
    + apply rs_try.
      * apply rs_bind; [intros w; now apply R_open|]. intros _.
        apply rs_bind; [intros w; now apply R_write|]. intros _.
        apply rs_bind.
        { apply rs_save_loop; auto. intros r Hr. apply HP.
          eapply allowed_incl; [|exact Hr]. kinds_incl. }
        intros _. apply rs_bind; [apply rs_print|]. intros _. apply rs_ret.
      * intros e. apply rs_bind; [intros w; apply R_print_exn|]. intros _. apply rs_ret.
Qed.

Lemma rs_stop_loop self keep svcs :
  (forall r, allowed self [KDetails; KEdit; KStart; KStop] r -> Sends r) ->
  forall found k, respects R (stop_loop self keep svcs found k).
Proof.
  intros HP. induction svcs as [|s svcs IH]; intros found k; cbn [stop_loop].
  - apply rs_ret.
  - apply rs_bind; [apply rs_lift|]. intros [|].
    + apply rs_bind; [apply rs_print|]. intros _. apply IH.
    + destruct (name_is s keep).
      * apply rs_bind; [apply rs_print|]. intros _.
        apply rs_bind.
        { apply rs_update_service_instances. intros r Hr. apply HP.
          eapply allowed_incl; [|exact Hr]. kinds_incl. }
        intros b1. apply rs_bind; [apply rs_if; apply rs_print|]. intros _.
        apply rs_bind.
        { apply rs_start_service. intros r Hr. apply HP.
          eapply allowed_incl; [|exact Hr]. kinds_incl. }
        intros b2. apply rs_bind; [apply rs_if; apply rs_print|]. intros _. apply IH.
      * apply rs_bind.
        { apply rs_stop_service. intros r Hr. apply HP.
          eapply allowed_incl; [|exact Hr]. kinds_incl. }
        intros b. apply rs_bind; [apply rs_if; apply rs_print|]. intros _. apply IH.
Qed.

Lemma rs_stop_all_except_one self keep :
  (forall r, allowed self [KRoot; KFolder; KDetails; KEdit; KStart; KStop] r -> Sends r) ->
  respects R (stop_all_except_one self keep).
Proof.
  intros HP. unfold stop_all_except_one. apply rs_bind.
  - apply rs_get_services. intros r Hr. apply HP.
    eapply allowed_incl; [|exact Hr]. kinds_incl.
  - intros [|s svcs].
    + apply rs_bind; [apply rs_print|]. intros _. apply rs_ret.
    + apply rs_bind.
      { apply rs_stop_loop. intros r Hr. apply HP.
        eapply allowed_incl; [|exact Hr]. kinds_incl. }
      intros found.
      apply rs_if; (apply rs_bind; [apply rs_print|]; intros _; apply rs_ret).
Qed.

Lemma rs_restore_row self rec counts :
  (forall r, allowed self [KDetails; KEdit; KStart; KStop] r -> Sends r) ->
  respects R (restore_row self rec counts).
Proof.
  intros HP. unfold restore_row. apply rs_bind; [apply rs_lift|]. intros [|].
  - apply rs_bind; [apply rs_print|]. intros _. apply rs_ret.
  - apply rs_bind.
    { apply rs_update_service_instances. intros r Hr. apply HP.
      eapply allowed_incl; [|exact Hr]. kinds_incl. }
    intros [|].
    + apply rs_bind; [apply rs_print|]. intros _.
      apply rs_bind; [apply rs_lift|]. intros [|].
      * apply rs_bind.
        { apply rs_start_service. intros r Hr. apply HP.
          eapply allowed_incl; [|exact Hr]. kinds_incl. }
        intros [|]; (apply rs_bind; [apply rs_print|]; intros _; apply rs_ret).
      * apply rs_bind.
        { apply rs_stop_service. intros r Hr. apply HP.
          eapply allowed_incl; [|exact Hr]. kinds_incl. }
        intros [|]; (apply rs_bind; [apply rs_print|]; intros _; apply rs_ret).
    + apply rs_bind; [apply rs_print|]. intros _. apply rs_ret.
Qed.

Lemma rs_restore_loop self names records :
  (forall r, allowed self [KDetails; KEdit; KStart; KStop] r -> Sends r) ->
  forall counts, respects R (restore_loop self names records counts).
Proof.
  intros HP. induction records as [|[row|e] records IH]; intros counts;
    cbn [restore_loop].
  - apply rs_ret.
  - destruct row as [|c row]; [apply IH|].
    apply rs_bind; [apply rs_lift|]. intros rec.
    apply rs_bind; [now apply rs_restore_row|]. intros counts'. apply IH.
  - apply rs_raise.
Qed.

Lemma rs_restore_services_state self input_file :
  (forall r, allowed self [KDetails; KEdit; KStart; KStop] r -> Sends r) ->
  respects R (restore_services_state self input_file).
Proof.
  intros HP. unfold restore_services_state. apply rs_try.
  - apply rs_bind.
    { intros w. unfold open_read. destruct (lookup input_file (files w)); apply R_refl. }
    intros text. apply rs_bind.
    { unfold restore_rows. destruct (csv_reader text) as [|[names|e] records].
      - apply rs_ret.
      - now apply rs_restore_loop.
      - apply rs_raise. }
    intros counts. apply rs_bind; [apply rs_print|]. intros _.
    apply rs_bind; [apply rs_if; [apply rs_print|apply rs_ret]|]. intros _.
    apply rs_ret.
  - intros e. destruct e;
      (apply rs_bind; [first [apply rs_print | intros w; apply R_print_exn]|];
       intros _; apply rs_ret).
Qed.
End Respects.

(** ** The requests of the calls *)




















Section Traced.
Variable self : ArcGISServerManager.








End Traced.




(** ** What the workflows send *)

Lemma log_grows_refl P w : log_grows P w w.
Proof. exists []. rewrite app_nil_r. auto. Qed.

Lemma log_grows_trans P w1 w2 w3 :
  log_grows P w1 w2 -> log_grows P w2 w3 -> log_grows P w1 w3.
Proof.
  intros (n1 & E1 & F1) (n2 & E2 & F2). exists (n1 ++ n2).
  rewrite E2, E1, app_assoc. split; auto. apply Forall_app; auto.
Qed.

Lemma log_grows_send (P : request -> Prop) r :
  P r -> forall w, log_grows P w (snd (send r w)).
Proof. intros H w. exists [(r, transport w (log w) r)]. simpl. auto. Qed.

Lemma log_grows_open P p w : log_grows P w (snd (open_write p w)).
Proof.
  unfold open_write. destruct (can_write w p); exists []; simpl;
    rewrite app_nil_r; auto.
Qed.

Ltac log_grows_side P HP :=
  first [ exact (log_grows_refl P)
        | exact (log_grows_trans P)
        | exact (log_grows_send P)
        | exact (fun p (_ : True) => log_grows_open P p)
        | exact HP
        | exact I
        | (intros; exists []; simpl; rewrite app_nil_r; split;
           [reflexivity | constructor]) ].

Lemma log_grows_save P self path :
  (forall r, allowed self [KRoot; KFolder; KDetails] r -> P r) ->
  respects (log_grows P) (save_services_state self path).
Proof.
  intros HP.
  apply rs_save_services_state with (Sends := P) (Writes := fun _ => True);
    log_grows_side P HP.
Qed.

Lemma log_grows_stop P self keep :
  (forall r, allowed self [KRoot; KFolder; KDetails; KEdit; KStart; KStop] r -> P r) ->
  respects (log_grows P) (stop_all_except_one self keep).
Proof.
  intros HP.
  apply rs_stop_all_except_one with (Sends := P); log_grows_side P HP.
Qed.

Lemma log_grows_restore P self input_file :
  (forall r, allowed self [KDetails; KEdit; KStart; KStop] r -> P r) ->
  respects (log_grows P) (restore_services_state self input_file).
Proof.
  intros HP.
  apply rs_restore_services_state with (Sends := P); log_grows_side P HP.
Qed.

Lemma prefix_app a b : String.prefix a (a ++ b) = true.
Proof.
  induction a as [|c a IH]; simpl; [now destruct b|].
  destruct (Ascii.ascii_dec c c); [exact IH|congruence].
Qed.

Lemma sent_as_admin_request self k r : sent_as self k r -> admin_request self r.
Proof.
  assert (Hurl : forall rest, String.prefix (server_url self ++ "/arcgis/admin/services")
                   (server_url self ++ "/arcgis/admin/" ++ "services" ++ rest) = true).
  { intros rest.
    replace (server_url self ++ "/arcgis/admin/" ++ "services" ++ rest)%string
      with ((server_url self ++ "/arcgis/admin/services") ++ rest)%string.
    - apply prefix_app.
    - rewrite append_assoc. reflexivity. }
  intros H. destruct H; unfold admin_request, root_request, folder_request,
    details_request, edit_request, start_request, stop_request, request_of;
    cbn [r_params r_url]; (split; [|split]);
    try (rewrite lookup_set_item_other by discriminate; apply lookup_set_item_same);
    try apply lookup_set_item_same.
  - apply (Hurl "").
  - apply (Hurl ("/" ++ py_str f)%string).
  - unfold endpoint_of. destruct (truthy (folder s)); apply Hurl.
  - unfold endpoint_of. destruct (truthy (folder s)); apply Hurl.
  - unfold endpoint_of. destruct (truthy (folder s)); apply Hurl.
  - unfold endpoint_of. destruct (truthy (folder s)); apply Hurl.
Qed.

(** X1. Every request that save, stop-all-but-one and restore send carries
    the manager's token and [f=json] among its parameters and goes to a URL
    under [{server_url}/arcgis/admin/services]. *)
Theorem workflow_requests_carry_token :
  forall self output_file keep_service input_file w,
    log_grows (admin_request self) w (snd (save_services_state self output_file w)) /\
    log_grows (admin_request self) w (snd (stop_all_except_one self keep_service w)) /\
    log_grows (admin_request self) w (snd (restore_services_state self input_file w)).
Proof.
  intros self output_file keep_service input_file w.
  assert (H : forall ks r, allowed self ks r -> admin_request self r).
  { intros ks r (_ & k & _ & Hk). eapply sent_as_admin_request; eauto. }
  split; [|split].
  - apply log_grows_save. apply H.
  - apply log_grows_stop. apply H.
  - apply log_grows_restore. apply H.
Qed.

(** X2. [save_services_state] only reads from the server: every request it
    sends is a GET. *)
Theorem save_sends_only_get :
  forall self output_file w,
    log_grows (fun r => r_method r = GET) w (snd (save_services_state self output_file w)).
Proof.
  intros self output_file w. apply log_grows_save.
  intros r (_ & k & Hk & Hs). simpl in Hk.
  destruct Hs; try reflexivity; exfalso; intuition discriminate.
Qed.

Lemma get_services_unauthenticated self w :
  ~ authenticated self ->
  exists w', get_services self w = (Ok [], w').
Proof.
  intros Hna. unfold get_services.
  destruct (_make_request self "services" [] GET w) as [r w1] eqn:E.
  pose proof (make_request_unauthenticated _ _ _ _ _ _ _ Hna E) as (_ & _ & _ & _ & ->).
  rewrite (bind_ok _ _ _ _ _ E). unfold bind, lift, ret. simpl. eauto.
Qed.

Lemma log_grows_nothing w w' : log_grows (fun _ => False) w w' -> log w' = log w.
Proof.
  intros (new & E & F). destruct new as [|x new]; [now rewrite app_nil_r in E|].
  inversion F as [|? ? []].
Qed.

(** X3. A manager that holds no token sends nothing: save and
    stop-all-but-one return [False] and restore runs to its end without a
    single request leaving. *)
Theorem no_token_no_request :
  forall self output_file keep_service input_file w,
    ~ authenticated self ->
    (save_services_state self output_file w
       = (Ok false, snd (save_services_state self output_file w)) /\
     log (snd (save_services_state self output_file w)) = log w) /\
    (stop_all_except_one self keep_service w
       = (Ok false, snd (stop_all_except_one self keep_service w)) /\
     log (snd (stop_all_except_one self keep_service w)) = log w) /\
    log (snd (restore_services_state self input_file w)) = log w.
Proof.
  intros self output_file keep_service input_file w Hna.
  assert (Hno : forall ks r, allowed self ks r -> False) by (intros ks r [Ha _]; auto).
  destruct (get_services_unauthenticated self w Hna) as [w1 Hget].
  split; [|split].
  - split.
    + unfold save_services_state. rewrite (bind_ok _ _ _ _ _ Hget). reflexivity.
    + apply log_grows_nothing. apply log_grows_save. apply Hno.
  - split.
    + unfold stop_all_except_one. rewrite (bind_ok _ _ _ _ _ Hget). reflexivity.
    + apply log_grows_nothing. apply log_grows_stop. apply Hno.
  - apply log_grows_nothing. apply log_grows_restore. apply Hno.
Qed.

Lemma no_token_no_request_witness :
  fst (save_services_state fresh_manager "services.csv" parcels_world) = Ok false /\
  log (snd (save_services_state fresh_manager "services.csv" parcels_world)) = [] /\
  fst (stop_all_except_one fresh_manager "Parcels" parcels_world) = Ok false /\
  log (snd (restore_services_state fresh_manager "services.csv"
              (world_of parcels_table [("services.csv", good_snapshot)]))) = [].
Proof.
  assert (Hna : ~ authenticated fresh_manager) by (intros H; exact H).
  destruct (no_token_no_request fresh_manager "services.csv" "Parcels" "services.csv"
              parcels_world Hna) as ((Hs & Hsl) & (Ht & _) & _).
  destruct (no_token_no_request fresh_manager "services.csv" "Parcels" "services.csv"
              (world_of parcels_table [("services.csv", good_snapshot)]) Hna)
    as (_ & _ & Hr).
  split; [|split; [|split]].
  - now rewrite Hs.
  - exact Hsl.
  - now rewrite Ht.
  - exact Hr.
Defined.

(** ** What the workflows write *)

Lemma files_agree_refl {X} (g : list (string * string) -> X) w : files_agree g w w.
Proof. reflexivity. Qed.

Lemma files_agree_trans {X} (g : list (string * string) -> X) w1 w2 w3 :
  files_agree g w1 w2 -> files_agree g w2 w3 -> files_agree g w1 w3.
Proof. unfold files_agree. congruence. Qed.

Lemma files_agree_open {X} (g : list (string * string) -> X) p :
  (forall t f, g (set_item p t f) = g f) ->
  forall w, files_agree g w (snd (open_write p w)).
Proof.
  intros Hg w. unfold files_agree, open_write.
  destruct (can_write w p); simpl; auto.
Qed.

Lemma files_agree_write {X} (g : list (string * string) -> X) p :
  (forall t f, g (set_item p t f) = g f) ->
  forall t w, files_agree g w (snd (write p t w)).
Proof. intros Hg t w. unfold files_agree, write. simpl. auto. Qed.

Ltac files_agree_side g :=
  first [ exact (files_agree_refl g)
        | exact (files_agree_trans g)
        | exact (files_agree_open g)
        | exact (files_agree_write g)
        | exact I
        | (intros; reflexivity)
        | (intros; assumption) ].

(** X4. stop-all-but-one and restore leave every file as it was, and save
    changes no file but its output file. *)
Theorem workflows_and_files :
  forall self output_file keep_service input_file w,
    files (snd (stop_all_except_one self keep_service w)) = files w /\
    files (snd (restore_services_state self input_file w)) = files w /\
    (forall p, p <> output_file ->
       lookup p (files (snd (save_services_state self output_file w))) = lookup p (files w)).
Proof.
  intros self output_file keep_service input_file w. split; [|split].
  - change (files_agree (fun f => f) w (snd (stop_all_except_one self keep_service w))).
    apply rs_stop_all_except_one with (Sends := fun _ => True);
      files_agree_side (fun f : list (string * string) => f).
  - change (files_agree (fun f => f) w (snd (restore_services_state self input_file w))).
    apply rs_restore_services_state with (Sends := fun _ => True);
      files_agree_side (fun f : list (string * string) => f).
  - intros p Hp.
    change (files_agree (lookup p) w (snd (save_services_state self output_file w))).
    apply rs_save_services_state
      with (Sends := fun _ => True)
           (Writes := fun q => forall (t : string) f, lookup p (set_item q t f) = lookup p f);
      try files_agree_side (@lookup string p).
    intros t f. now apply lookup_set_item_other.
Qed.

Lemma workflows_and_files_witness :
  lookup "notes.txt"
    (files (snd (save_services_state example_manager "services.csv"
                   (world_of parcels_table [("notes.txt", "keep me")]))))
  = Some "keep me".
Proof.
  destruct (workflows_and_files example_manager "services.csv" "Parcels" "services.csv"
              (world_of parcels_table [("notes.txt", "keep me")])) as (_ & _ & H).
  rewrite (H "notes.txt"); [reflexivity|discriminate].
Defined.

(** ** The calls of stop-all-but-one *)

Lemma authenticated_dec self : authenticated self \/ ~ authenticated self.
Proof. unfold authenticated. destruct (token self) as [[|c t]|]; tauto. Qed.

Lemma stop_loop_calls self keep :
  authenticated self ->
  forall svcs found k w x w',
    stop_loop self keep svcs found k w = (Ok x, w') ->
    calls w' = calls w ++ flat_map (keeper_calls keep) (kept self svcs).
Proof.
  intros Hauth. induction svcs as [|s svcs IH]; intros found k w x w' H;
    cbn [stop_loop] in H.
  - apply ret_spec in H as [_ ->]. simpl. now rewrite app_nil_r.
  - inv_ok H as H0. apply lift_spec in H0 as [Hex ->]. symmetry in Hex.
    rewrite kept_cons, (excluded_b_of _ _ _ Hex).
    destruct a.
    + inv_ok H as H0. apply print_spec in H0 as (_ & _ & _ & Ec & _).
      rewrite (IH _ _ _ _ _ H). congruence.
    + cbn [flat_map]. unfold keeper_calls at 1. destruct (name_is s keep).
      * inv_ok H as H0 wa. apply print_spec in H0 as (_ & _ & _ & Eca & _).
        inv_ok H as H1 wb. spec update_service_instances_spec in H1.
        destruct H1 as (_ & _ & Ecb & _).
        inv_ok H as H2 wc. apply print_either_spec in H2 as (_ & _ & _ & Ecc & _).
        inv_ok H as H3 wd. spec start_service_spec in H3.
        destruct H3 as (_ & _ & Ecd & _).
        inv_ok H as H4 we. apply print_either_spec in H4 as (_ & _ & _ & Ece & _).
        rewrite (IH _ _ _ _ _ H), Ece, Ecd, Ecc, Ecb, Eca.
        rewrite <- !app_assoc. reflexivity.
      * inv_ok H as H0 wa. spec stop_service_spec in H0.
        destruct H0 as (_ & _ & Eca & _).
        inv_ok H as H1 wb. apply print_either_spec in H1 as (_ & _ & _ & Ecb & _).
        rewrite (IH _ _ _ _ _ H), Ecb, Eca. rewrite <- !app_assoc. reflexivity.
Qed.

(** X5. When stop-all-but-one returns, the per-service methods it has
    entered are, for each discovered service outside the excluded folders
    in discovery order: the instance-bounds update to 1/1 followed by a
    start if the service's name is the keeper's (whatever its folder or
    type, and whether or not the update succeeded), a stop otherwise. *)
Theorem stop_acts_on_every_kept_service :
  forall self keep w svcs w1 b w',
    get_services self w = (Ok svcs, w1) ->
    stop_all_except_one self keep w = (Ok b, w') ->
    calls w' = calls w1 ++ flat_map (keeper_calls keep) (kept self svcs).
Proof.
  intros self keep w svcs w1 b w' Hget H.
  unfold stop_all_except_one in H. rewrite (bind_ok _ _ _ _ _ Hget) in H.
  destruct svcs as [|s svcs].
  - inv_ok H as H0. apply print_spec in H0 as (_ & _ & _ & Ec & _).
    apply ret_spec in H as [_ ->]. simpl. now rewrite app_nil_r.
  - destruct (authenticated_dec self) as [Hauth|Hna].
    + inv_ok H as H0 wa. apply (stop_loop_calls _ _ Hauth) in H0.
      assert (Ec : calls w' = calls wa).
      { destruct (fst a); inv_ok H as H1 wb;
          apply print_spec in H1 as (_ & _ & _ & Ec & _);
          apply ret_spec in H as [_ ->]; exact Ec. }
      now rewrite Ec.
    + destruct (get_services_unauthenticated self w Hna) as [w2 Hget2]. congruence.
Qed.

Lemma stop_acts_on_every_kept_service_witness :
  exists w',
    stop_all_except_one example_manager "Parcels" twin_world = (Ok true, w') /\
    calls w' = [CallStop roads;
                CallUpdate parcels 1 1; CallDetails parcels; CallStart parcels;
                CallUpdate vault 1 1; CallDetails vault; CallStart vault].
Proof.
  exists (snd (stop_all_except_one example_manager "Parcels" twin_world)).
  split; [vm_compute; reflexivity|].
  rewrite (stop_acts_on_every_kept_service example_manager "Parcels" twin_world
             [roads; parcels; vault]
             (snd (get_services example_manager twin_world)) true
             (snd (stop_all_except_one example_manager "Parcels" twin_world))).
  - reflexivity.
  - vm_compute. reflexivity.
  - vm_compute. reflexivity.
Defined.

(** ** restore of a snapshot that save wrote *)

Lemma restore_row_total self rec counts w :
  authenticated self ->
  envelope_ok (transport w) ->
  hashable (folder (row_service rec)) ->
  (exists cs, configured_state rec = JStr cs) ->
  exists c w', restore_row self rec counts w = (Ok c, w') /\ same_env w w'.
Proof.
  intros Hauth Henv Hh [cs Hcs]. unfold restore_row.
  destruct (in_excluded_hashable self _ Hh) as [b Hb].
  unfold bind at 1, lift. rewrite Hb. destruct b.
  - run_print. unfold ret. eauto.
  - destruct (update_service_instances_total self (row_service rec)
                (min_instances rec) (max_instances rec) w Hauth Henv)
      as (b & w1 & E & S1).
    rewrite (bind_ok _ _ _ _ _ E). destruct b.
    + run_print. rewrite Hcs. unfold bind at 1, lift. cbn [is_started].
      destruct (String.eqb (upper cs) "STARTED").
      * destruct (start_service_total self (row_service rec) w0 Hauth)
          as (b4 & w4 & E4 & S4); eauto using envelope_same_env.
        rewrite (bind_ok _ _ _ _ _ E4).
        destruct b4; run_print; unfold ret; eauto 8 using same_env_trans.
      * destruct (stop_service_total self (row_service rec) w0 Hauth)
          as (b4 & w4 & E4 & S4); eauto using envelope_same_env.
        rewrite (bind_ok _ _ _ _ _ E4).
        destruct b4; run_print; unfold ret; eauto 8 using same_env_trans.
    + run_print. unfold ret. eauto using same_env_trans.
Qed.

Ltac case_if H :=
  match type of H with
  | (if ?b then _ else _) _ = _ => destruct b
  end.

(** *** The requests of a service whose fields are text *)

Lemma signed_request_of self endpoint meth :
  request_of self endpoint [] meth =
  signed_request self meth (server_url self ++ "/arcgis/admin/" ++ endpoint)%string [].
Proof. reflexivity. Qed.

Lemma signed_edit_request_of self endpoint payload :
  request_of self endpoint [("service", payload)] POST =
  signed_request self POST (server_url self ++ "/arcgis/admin/" ++ endpoint)%string
    [("service", payload)].
Proof. reflexivity. Qed.

Lemma endpoint_url self f n t suffix :
  (server_url self ++ "/arcgis/admin/"
   ++ endpoint_of {| folder := JStr f; name := JStr n; type := JStr t |} suffix)%string
  = (service_url self {| folder := JStr f; name := JStr n; type := JStr t |}
     ++ suffix)%string.
Proof.
  unfold endpoint_of, service_url. cbn [folder name type truthy py_str text_of].
  destruct (String.eqb f "") eqn:E; cbn [negb].
  - rewrite !append_assoc. reflexivity.
  - rewrite !append_assoc. reflexivity.
Qed.

Lemma fetched_record_of resp x :
  result_of resp = Ok x ->
  fetched_record resp = match x with Some (kv :: d) => Some (kv :: d) | _ => None end.
Proof.
  unfold result_of, fetched_record. destruct resp as [e|d]; [now intros [= <-]|].
  destruct (has_key "error" d) eqn:E.
  - destruct (lookup "error" d) as [[]|]; intros [= <-]; destruct d; auto.
    now rewrite E.
  - intros [= <-]. destruct d as [|kv d]; auto. now rewrite E.
Qed.

Lemma succeeded_of resp b : status_of resp = Ok b -> succeeded resp = b.
Proof.
  unfold status_of, result_of, succeeded, reports_success.
  destruct resp as [e|d]; [now intros [= <-]|].
  destruct (has_key "error" d) eqn:E.
  - destruct (lookup "error" d) as [[]|]; intros [= <-]; reflexivity.
  - intros [= <-]. reflexivity.
Qed.

Lemma restore_row_replay self f n t cs mn mx counts w :
  authenticated self ->
  envelope_ok (transport w) ->
  exists c w',
    restore_row self (snapshot_record f n t cs mn mx) counts w = (Ok c, w') /\
    same_env w w' /\ files w' = files w /\
    calls w' = calls w ++
      fst (replay_record self (transport w) (log w) (snapshot_record f n t cs mn mx)) /\
    log w' = log w ++
      snd (replay_record self (transport w) (log w) (snapshot_record f n t cs mn mx)).
Proof.
  intros Hauth Henv.
  set (s := {| folder := JStr f; name := JStr n; type := JStr t |}).
  assert (Hget : signed_request self GET (service_url self s) [] = details_request self s).
  { unfold details_request. rewrite signed_request_of. unfold s.
    rewrite endpoint_url, append_empty_r. reflexivity. }
  assert (Hedit : forall d, signed_request self POST (service_url self s ++ "/edit")
                    [("service", JsonText (edit_payload d mn mx))]
                  = edit_request self s d mn mx).
  { intros d. unfold edit_request. rewrite signed_edit_request_of. unfold s.
    rewrite endpoint_url. reflexivity. }
  assert (Hpost : forall op, signed_request self POST (service_url self s ++ op) []
                  = request_of self (endpoint_of s op) [] POST).
  { intros op. rewrite signed_request_of. unfold s. rewrite endpoint_url. reflexivity. }
  unfold restore_row, replay_record. cbv zeta.
  change (row_service (snapshot_record f n t cs mn mx)) with s.
  change (min_instances (snapshot_record f n t cs mn mx)) with mn.
  change (max_instances (snapshot_record f n t cs mn mx)) with mx.
  change (configured_state (snapshot_record f n t cs mn mx)) with (JStr cs).
  rewrite Hget, Hpost.
  destruct (in_excluded_hashable self (folder s) I) as [b Hb].
  unfold bind at 1, lift. rewrite Hb, (excluded_b_of self s b Hb).
  destruct b.
  - unfold bind, print, ret. eexists _, _. split; [reflexivity|]. simpl.
    rewrite !app_nil_r. repeat split.
  - destruct (update_service_instances self s mn mx w) as [r0 w1] eqn:E.
    pose proof (update_service_instances_spec _ _ _ _ _ _ _ Hauth E) as (S1 & F1 & C1 & L1).
    cbv zeta in L1. fold (details_request self s) in L1.
    destruct (Henv (log w) (details_request self s)) as [x Hx].
    rewrite Hx in L1. rewrite (fetched_record_of _ _ Hx).
    destruct x as [[|kv d]|].
    + destruct L1 as [L1 ->]. rewrite (bind_ok _ _ _ _ _ E).
      unfold bind, print, ret. eexists _, _. split; [reflexivity|]. simpl.
      destruct S1 as [T1 W1]. repeat split; auto.
    + destruct L1 as [L1 ->]. rewrite Hedit.
      set (got := transport w (log w) (details_request self s)) in *.
      set (edit := edit_request self s (kv :: d) mn mx) in *.
      set (edited := transport w (log w ++ [(details_request self s, got)]) edit) in *.
      destruct (status_of_envelope _ (log w ++ [(details_request self s, got)]) edit Henv)
        as [b Hb1].
      fold edited in Hb1. rewrite Hb1 in E. rewrite (succeeded_of _ _ Hb1).
      rewrite (bind_ok _ _ _ _ _ E).
      destruct S1 as [T1 W1].
      destruct b.
      * destruct (print ("Updated instances for " ++ service_path s ++ ": "
                         ++ str_of_Z mn ++ "/" ++ str_of_Z mx)%string w1)
          as [r2 w2] eqn:P2.
        pose proof (print_spec _ _ _ _ P2) as (-> & [T2 W2] & F2 & C2 & L2).
        rewrite (bind_ok _ _ _ _ _ P2). unfold bind at 1. cbn [is_started].
        change (recorded_started (snapshot_record f n t cs mn mx))
          with (String.eqb (upper cs) "STARTED").
        assert (Henv2 : envelope_ok (transport w2)) by (rewrite T2, T1; exact Henv).
        destruct (String.eqb (upper cs) "STARTED").
        -- destruct (start_service self s w2) as [r3 w3] eqn:E3.
           pose proof (start_service_spec _ _ _ _ _ Hauth E3) as ([T3 W3] & F3 & C3 & L3 & R3).
           cbv zeta in L3, R3.
           destruct (status_of_envelope _ (log w2)
                       (request_of self (endpoint_of s "/start") [] POST) Henv2)
             as [b3 Hb3].
           rewrite Hb3 in R3. subst r3. rewrite (bind_ok _ _ _ _ _ E3).
           destruct b3; unfold bind, print, ret; (eexists _, _; split; [reflexivity|]);
             simpl; rewrite ?T3, ?T2, ?T1, ?W3, ?W2, ?W1, ?F3, ?F2, ?F1, ?C3, ?C2, ?C1,
               ?L3, ?L2, ?L1, ?T2, ?T1, <- ?app_assoc; repeat split.
        -- destruct (stop_service self s w2) as [r3 w3] eqn:E3.
           pose proof (stop_service_spec _ _ _ _ _ Hauth E3) as ([T3 W3] & F3 & C3 & L3 & R3).
           cbv zeta in L3, R3.
           destruct (status_of_envelope _ (log w2)
                       (request_of self (endpoint_of s "/stop") [] POST) Henv2)
             as [b3 Hb3].
           rewrite Hb3 in R3. subst r3. rewrite (bind_ok _ _ _ _ _ E3).
           destruct b3; unfold bind, print, ret; (eexists _, _; split; [reflexivity|]);
             simpl; rewrite ?T3, ?T2, ?T1, ?W3, ?W2, ?W1, ?F3, ?F2, ?F1, ?C3, ?C2, ?C1,
               ?L3, ?L2, ?L1, ?T2, ?T1, <- ?app_assoc; repeat split.
      * unfold bind, print, ret. eexists _, _. split; [reflexivity|]. simpl.
        repeat split; auto.
    + destruct L1 as [L1 ->]. rewrite (bind_ok _ _ _ _ _ E).
      unfold bind, print, ret. eexists _, _. split; [reflexivity|]. simpl.
      destruct S1 as [T1 W1]. repeat split; auto.
Qed.

Lemma restore_loop_replay self :
  authenticated self ->
  forall records counts w,
    Forall snapshot_safe records ->
    envelope_ok (transport w) ->
    exists c w',
      restore_loop self fieldnames (map Ok (map fields_of_record records)) counts w
        = (Ok c, w') /\
      same_env w w' /\ files w' = files w /\
      calls w' = calls w ++ fst (replay self (transport w) (log w) records) /\
      log w' = log w ++ snd (replay self (transport w) (log w) records).
Proof.
  intros Hauth. induction records as [|r records IH]; intros counts w Hok Henv.
  - exists counts, w. cbn. rewrite !app_nil_r. repeat split.
  - inversion Hok as [|? ? Hr Hrs]; subst.
    destruct Hr as (f & n & t & cs & Hr & _ & _ & _ & _ & Hb & Pmn & Pmx).
    destruct r as [svc st mn mx]. cbn [min_instances max_instances] in *.
    cbn [map]. rewrite Hr.
    change (fields_of_record (snapshot_record f n t cs mn mx))
      with (row_fields f n t cs mn mx).
    unfold row_fields at 1. cbn [restore_loop].
    change [f; n; t; cs; str_of_Z mn; str_of_Z mx] with (row_fields f n t cs mn mx).
    rewrite decode_row_fields by (try lia; assumption). unfold bind at 1, lift.
    destruct (restore_row_replay self f n t cs mn mx counts w Hauth Henv)
      as (c1 & w1 & E1 & S1 & F1 & C1 & L1).
    rewrite (bind_ok _ _ _ _ _ E1).
    destruct (IH c1 w1 Hrs (envelope_same_env _ _ S1 Henv))
      as (c & w' & E & S & F & C & L).
    exists c, w'. split; [exact E|]. split; [eapply same_env_trans; eauto|].
    split; [congruence|].
    destruct S1 as [T1 W1]. rewrite T1, L1 in C, L.
    cbn [replay]. cbv zeta. cbn [fst snd].
    rewrite C, L, C1, <- !app_assoc. split; reflexivity.
Qed.

(** X6. Restoring the snapshot that save wrote for records that go through
    the file unchanged (ASCII text, bounds of at most 4300 digits), with a
    token and a server whose answers are well formed, returns [True] and
    changes no file; the per-service methods it enters and the exchanges it
    makes are those of [replay]: per record in the order of the file,
    nothing for a service of an excluded folder; else the record is read
    and, if that gave one, sent back with exactly the recorded bounds, and
    only if that edit is answered with success the service is started when
    the recorded state is STARTED in any letter case and stopped
    otherwise. *)
Theorem restore_replays_snapshot :
  forall self input_file w records,
    authenticated self ->
    envelope_ok (transport w) ->
    Forall snapshot_safe records ->
    lookup input_file (files w) = Some (encode records) ->
    exists w',
      restore_services_state self input_file w = (Ok true, w') /\
      files w' = files w /\
      calls w' = calls w ++ fst (replay self (transport w) (log w) records) /\
      log w' = log w ++ snd (replay self (transport w) (log w) records).
Proof.
  intros self input_file w records Hauth Henv Hok Hfile.
  destruct (restore_loop_replay self Hauth records (0, 0) w Hok Henv)
    as (c & w1 & E & S & Ef & Ec & El).
  unfold restore_services_state, try_except, bind at 1, open_read.
  rewrite Hfile. unfold bind at 1, restore_rows.
  rewrite (csv_reader_encode records (Forall_snapshot_safe_ok _ Hok)), E.
  destruct (0 <? snd c); unfold bind, print, ret; simpl;
    eexists; (split; [reflexivity|]); simpl; auto.
Qed.

Lemma restore_replays_snapshot_witness :
  exists w',
    restore_services_state example_manager "services.csv"
      (world_of restore_table [("services.csv", encode mixed_records)]) = (Ok true, w') /\
    files w' = [("services.csv", encode mixed_records)] /\
    calls w' = [CallUpdate parcels 2 4; CallDetails parcels; CallStart parcels;
                CallUpdate main_roads 0 1; CallDetails main_roads; CallStop main_roads] /\
    wire (log w') =
      [(GET, "https://gis:6443/arcgis/admin/services/Parcels.MapServer");
       (POST, "https://gis:6443/arcgis/admin/services/Parcels.MapServer/edit");
       (POST, "https://gis:6443/arcgis/admin/services/Parcels.MapServer/start");
       (GET, "https://gis:6443/arcgis/admin/services/Transport/Roads, main.MapServer");
       (POST, "https://gis:6443/arcgis/admin/services/Transport/Roads, main.MapServer/edit");
       (POST, "https://gis:6443/arcgis/admin/services/Transport/Roads, main.MapServer/stop")].
Proof.
  destruct (restore_replays_snapshot example_manager "services.csv"
              (world_of restore_table [("services.csv", encode mixed_records)])
              mixed_records) as (w' & H & Hf & Hc & Hl).
  - exact I.
  - exact restore_table_envelope.
  - safe_records.
  - reflexivity.
  - exists w'. split; [exact H|]. split; [exact Hf|]. split.
    + rewrite Hc. vm_compute. reflexivity.
    + rewrite Hl. vm_compute. reflexivity.
Defined.

(** ** Exceptions and the workflows *)

Lemma try_except_returns {A} (m : M A) (h : exn -> M A) w :
  (forall e w1, exists a, fst (h e w1) = Ok a) ->
  exists a, fst (try_except m h w) = Ok a.
Proof.
  intros Hh. unfold try_except. destruct (m w) as [[a|e] w1]; [simpl; eauto|apply Hh].
Qed.

(** X7. No exception leaves [restore_services_state]: it always returns a
    boolean. [save_services_state] lets through the exceptions of the
    discovery of the services, raised before its [try], and no other: once
    [get_services] has returned, it returns a boolean. *)
Theorem restore_and_save_contain_exceptions :
  forall self path w,
    (exists b, fst (restore_services_state self path w) = Ok b) /\
    (exists b, fst (save_services_state self path w) =
               match fst (get_services self w) with
               | Ok _ => Ok b
               | Raise e => Raise e
               end).
Proof.
  intros self path w. split.
  - unfold restore_services_state. apply try_except_returns.
    intros e w1. exists false. destruct e; reflexivity.
  - unfold save_services_state, bind at 1.
    destruct (get_services self w) as [[[|s svcs]|e] w1]; cbn [fst].
    + exists false. reflexivity.
    + apply try_except_returns. intros e w2. exists false. reflexivity.
    + exists false. reflexivity.
Qed.

Lemma stop_loop_raises self keep s after e :
  authenticated self ->
  in_excluded self (folder s) = Ok false ->
  name_is s keep = false ->
  forall before found k w x w2,
    stop_loop self keep before found k w = (Ok x, w2) ->
    result_of (transport w2 (log w2) (stop_request self s)) = Raise e ->
    exists w',
      stop_loop self keep (before ++ s :: after) found k w = (Raise e, w') /\
      calls w' = calls w2 ++ [CallStop s] /\
      log w' = log w2 ++ [(stop_request self s,
                           transport w2 (log w2) (stop_request self s))].
Proof.
  intros Hauth Hex Hname.
  induction before as [|b before IH]; intros found k w x w2 H Hres;
    cbn [app stop_loop] in *.
  - apply ret_spec in H as [_ <-].
    unfold bind at 1, lift. rewrite Hex, Hname.
    destruct (stop_service self s w2) as [r w'] eqn:E.
    pose proof E as E'. spec stop_service_spec in E'.
    destruct E' as (_ & _ & Ec & El & Er).
    unfold status_of in Er. fold (stop_request self s) in Er, El.
    rewrite Hres in Er. subst r.
    rewrite (bind_raise _ _ _ _ _ E). eauto.
  - inv_ok H as H0. apply lift_spec in H0 as [Hb ->].
    unfold bind at 1, lift. rewrite <- Hb.
    destruct a.
    + inv_ok H as H0. rewrite (bind_ok _ _ _ _ _ H0). eapply IH; eauto.
    + destruct (name_is b keep).
      * inv_ok H as H0. rewrite (bind_ok _ _ _ _ _ H0).
        inv_ok H as H1. rewrite (bind_ok _ _ _ _ _ H1).
        inv_ok H as H2. rewrite (bind_ok _ _ _ _ _ H2).
        inv_ok H as H3. rewrite (bind_ok _ _ _ _ _ H3).
        inv_ok H as H4. rewrite (bind_ok _ _ _ _ _ H4).
        eapply IH; eauto.
      * inv_ok H as H0. rewrite (bind_ok _ _ _ _ _ H0).
        inv_ok H as H1. rewrite (bind_ok _ _ _ _ _ H1).
        eapply IH; eauto.
Qed.

(** X8. [stop_all_except_one] has no [try]: when the server answers the stop
    request of a service with an [error] member that is not an object, the
    exception that [_make_request] raises on it leaves the workflow. The
    services before that one have been handled, the stop request is the
    last exchange, and the services after it are not touched. *)
Theorem stop_lets_exceptions_through :
  forall self keep w before s after w1 x w2 e,
    authenticated self ->
    get_services self w = (Ok (before ++ s :: after), w1) ->
    stop_loop self keep before false 0 w1 = (Ok x, w2) ->
    in_excluded self (folder s) = Ok false ->
    name_is s keep = false ->
    result_of (transport w2 (log w2) (stop_request self s)) = Raise e ->
    exists w',
      stop_all_except_one self keep w = (Raise e, w') /\
      calls w' = calls w2 ++ [CallStop s] /\
      log w' = log w2 ++ [(stop_request self s,
                           transport w2 (log w2) (stop_request self s))].
Proof.
  intros self keep w before s after w1 x w2 e Hauth Hget Hloop Hex Hname Hres.
  destruct (stop_loop_raises self keep s after e Hauth Hex Hname
              before false 0 w1 x w2 Hloop Hres) as (w' & E & Ec & El).
  exists w'. split; [|auto].
  unfold stop_all_except_one. rewrite (bind_ok _ _ _ _ _ Hget).
  destruct (before ++ s :: after) eqn:Eapp.
  - destruct before; discriminate.
  - now rewrite (bind_raise _ _ _ _ _ E).
Qed.

Lemma stop_lets_exceptions_through_witness :
  exists w',
    stop_all_except_one example_manager "Parcels" busy_world = (Raise AttributeError, w') /\
    calls w' = calls (snd (get_services example_manager busy_world)) ++ [CallStop roads] /\
    log w' =
      log (snd (get_services example_manager busy_world)) ++
      [(stop_request example_manager roads,
        transport (snd (get_services example_manager busy_world))
          (log (snd (get_services example_manager busy_world)))
          (stop_request example_manager roads))].
Proof.
  apply (stop_lets_exceptions_through example_manager "Parcels" busy_world
           [] roads [parcels] (snd (get_services example_manager busy_world))
           (false, 0) (snd (get_services example_manager busy_world)) AttributeError).
  - exact I.
  - vm_compute. reflexivity.
  - reflexivity.
  - reflexivity.
  - reflexivity.
  - vm_compute. reflexivity.
Defined.

(** ** authenticate and main *)

Lemma authenticate_spec self w :
  let q := auth_request self in
  let resp := transport w (log w) q in
  fst (authenticate self w) = issued resp /\
  same_env w (snd (authenticate self w)) /\
  files (snd (authenticate self w)) = files w /\
  calls (snd (authenticate self w)) = calls w /\
  log (snd (authenticate self w)) = log w ++ [(q, resp)].
Proof.
  cbv zeta. unfold authenticate, auth_request.
  set (q := {| r_method := POST; r_url := _; r_params := _ |}).
  unfold bind, send, lift, print, ret, subscript, issued, get_default.
  cbn beta iota.
  destruct (transport w (log w) q) as [e|d]; [cbn; repeat split|].
  destruct (has_key "token" d) eqn:Hk.
  - destruct (lookup "token" d) as [tok|] eqn:Hl.
    + cbn. repeat split.
    + apply has_key_lookup in Hl. congruence.
  - apply has_key_lookup in Hk. rewrite Hk.
    destruct (lookup "error" d) as [[]|]; cbn; repeat split.
Qed.

Lemma log_grows_run_command self c :
  respects (log_grows (admin_request self)) (run_command self c).
Proof.
  assert (H : forall ks r, allowed self ks r -> admin_request self r).
  { intros ks r (_ & k & _ & Hk). eapply sent_as_admin_request; eauto. }
  destruct c; cbn [run_command].
  - apply log_grows_save. apply H.
  - apply log_grows_stop. apply H.
  - apply log_grows_restore. apply H.
Qed.

(** X9. If the token request fails, or its answer has no member [token] and
    an [error] member, if any, that is an object, [main] exits with status 1
    after that one exchange: no workflow runs and no file is touched. *)
Theorem main_stops_at_failed_authentication :
  forall args w,
    issued (transport w (log w) (auth_request (manager_of args))) = Ok None ->
    exists w',
      main args w = (Ok 1, w') /\
      log w' = log w ++ [(auth_request (manager_of args),
                          transport w (log w) (auth_request (manager_of args)))] /\
      calls w' = calls w /\
      files w' = files w.
Proof.
  intros args w Hno. unfold main. cbv zeta.
  change (init (arg_server args) (arg_username args) (arg_password args))
    with (manager_of args).
  destruct (authenticate_spec (manager_of args) w) as (Hr & _ & Hf & Hc & Hl).
  cbv zeta in Hr, Hl. rewrite Hno in Hr.
  unfold bind at 1.
  destruct (authenticate (manager_of args) w) as [r w1]. cbn [fst snd] in *. subst r.
  unfold bind, print, ret. eexists. split; [reflexivity|]. simpl. auto.
Qed.

Lemma main_stops_at_failed_authentication_witness :
  exists w',
    main save_args parcels_world = (Ok 1, w') /\
    log w' = log parcels_world ++
             [(auth_request (manager_of save_args),
               transport parcels_world (log parcels_world)
                 (auth_request (manager_of save_args)))] /\
    calls w' = calls parcels_world /\
    files w' = files parcels_world.
Proof.
  apply (main_stops_at_failed_authentication save_args parcels_world).
  vm_compute. reflexivity.
Defined.

(** X10. If the answer to the token request carries a text token, [main]
    runs the command with a manager that holds this token: its exit status
    is 0 if the workflow returns [True] and 1 if it returns [False], an
    exception of the workflow leaves [main], and every request after the
    token request carries the issued token and [f=json] and goes to a URL
    under the server argument, stripped of its trailing slashes, followed
    by [/arcgis/admin/services]. *)
Theorem main_runs_command_with_issued_token :
  forall args w result t,
    transport w (log w) (auth_request (manager_of args)) = Body result ->
    lookup "token" result = Some (JStr t) ->
    let manager := set_token (manager_of args) (JStr t) in
    let run := run_command manager (arg_command args)
                 (snd (authenticate (manager_of args) w)) in
    fst (main args w) = exit_status (fst run) /\
    exists new,
      log (snd (main args w)) =
        log w ++ (auth_request (manager_of args), Body result) :: new /\
      Forall (fun x => admin_request manager (fst x)) new.
Proof.
  intros args w result t Hresp Htok manager run.
  destruct (authenticate_spec (manager_of args) w) as (Hr & _ & _ & _ & Hl).
  cbv zeta in Hr, Hl. rewrite Hresp in Hr, Hl. unfold issued in Hr. rewrite Htok in Hr.
  destruct (log_grows_run_command manager (arg_command args)
              (snd (authenticate (manager_of args) w))) as (new & Hnew & Hall).
  assert (Em : main args w =
                 bind (run_command manager (arg_command args))
                      (fun success : bool => ret (if success then 0 else 1))
                      (snd (authenticate (manager_of args) w))).
  { unfold main. cbv zeta.
    change (init (arg_server args) (arg_username args) (arg_password args))
      with (manager_of args).
    destruct (authenticate (manager_of args) w) as [r w1] eqn:E.
    cbn [fst snd] in *. subst r. now rewrite (bind_ok _ _ _ _ _ E). }
  rewrite Em. subst run. unfold bind.
  destruct (run_command manager (arg_command args)
              (snd (authenticate (manager_of args) w))) as [[b|e] w2];
    cbn [fst snd exit_status ret] in *.
  - split; [now destruct b|]. exists new. split; [|exact Hall].
    rewrite Hnew, Hl, <- app_assoc. reflexivity.
  - split; [reflexivity|]. exists new. split; [|exact Hall].
    rewrite Hnew, Hl, <- app_assoc. reflexivity.
Qed.

Lemma main_runs_command_with_issued_token_witness :
  let w := world_of token_table [] in
  let manager := set_token (manager_of save_args) (JStr "T0K3N") in
  let run := run_command manager (arg_command save_args)
               (snd (authenticate (manager_of save_args) w)) in
  fst (main save_args w) = exit_status (fst run) /\
  exists new,
    log (snd (main save_args w)) =
      log w ++ (auth_request (manager_of save_args), Body [("token", JStr "T0K3N")]) :: new /\
    Forall (fun x => admin_request manager (fst x)) new.
Proof.
  apply (main_runs_command_with_issued_token save_args (world_of token_table [])
           [("token", JStr "T0K3N")] "T0K3N").
  - reflexivity.
  - reflexivity.
Defined.

Lemma authenticate_issues self w result tok :
  transport w (log w) (auth_request self) = Body result ->
  lookup "token" result = Some tok ->
  exists w1,
    authenticate self w = (Ok (Some tok), w1) /\
    log w1 = log w ++ [(auth_request self, Body result)] /\
    out w1 = out w ++ [Say "Authentication successful"] /\
    files w1 = files w /\ calls w1 = calls w.
Proof.
  intros Hresp Htok. unfold authenticate.
  change {| r_method := POST; r_url := _; r_params := _ |} with (auth_request self).
  unfold bind at 1, send. rewrite Hresp.
  destruct (has_key "token" result) eqn:Hk.
  - unfold bind, lift, subscript, print, ret. rewrite Htok.
    eexists. split; [reflexivity|]. simpl. auto.
  - apply has_key_lookup in Hk. congruence.
Qed.

Lemma get_services_no_token self w :
  ~ authenticated self ->
  get_services self w =
    (Ok [], snd (print "Not authenticated. Call authenticate() first." w)).
Proof.
  unfold authenticated, get_services, _make_request.
  destruct (token self) as [[|c t]|]; try tauto; intros _; reflexivity.
Qed.

(** X11. A token that the server issues but that is empty (or any value
    that counts as false) passes [authenticate], which only looks for the
    member, and is rejected by [_make_request]: for save and
    stop-all-but-one [main] prints the success of the authentication, then
    that it is not authenticated and that no services were found, and exits
    with status 1; the token request is its only exchange. *)
Theorem main_with_rejected_token :
  forall args w result tok,
    transport w (log w) (auth_request (manager_of args)) = Body result ->
    lookup "token" result = Some tok ->
    truthy tok = false ->
    (forall input, arg_command args <> Restore input) ->
    exists w',
      main args w = (Ok 1, w') /\
      log w' = log w ++ [(auth_request (manager_of args), Body result)] /\
      out w' = out w ++ [Say "Authentication successful";
                         Say "Not authenticated. Call authenticate() first.";
                         Say "No services found or failed to retrieve services"] /\
      files w' = files w /\ calls w' = calls w.
Proof.
  intros args w result tok Hresp Htok Hfalse Hcmd.
  destruct (authenticate_issues (manager_of args) w result tok Hresp Htok)
    as (w1 & E & Hl & Ho & Hf & Hc).
  assert (Hna : ~ authenticated (set_token (manager_of args) tok)).
  { unfold authenticated, set_token. cbn [token]. rewrite Hfalse. auto. }
  unfold main. cbv zeta.
  change (init (arg_server args) (arg_username args) (arg_password args))
    with (manager_of args).
  rewrite (bind_ok _ _ _ _ _ E).
  pose proof (get_services_no_token _ w1 Hna) as Hget.
  destruct (arg_command args) as [output|keep|input] eqn:Ecmd.
  - cbn [run_command]. unfold save_services_state.
    rewrite (bind_ok _ _ _ _ _ (bind_ok _ _ _ _ _ Hget)).
    unfold bind, print, ret. eexists. split; [reflexivity|]. simpl.
    rewrite Hl, Ho, <- !app_assoc. repeat split; auto.
  - cbn [run_command]. unfold stop_all_except_one.
    rewrite (bind_ok _ _ _ _ _ (bind_ok _ _ _ _ _ Hget)).
    unfold bind, print, ret. eexists. split; [reflexivity|]. simpl.
    rewrite Hl, Ho, <- !app_assoc. repeat split; auto.
  - exfalso. eapply Hcmd. reflexivity.
Qed.

Lemma main_with_rejected_token_witness :
  exists w',
    main save_args (world_of empty_token_table []) = (Ok 1, w') /\
    log w' = [] ++ [(auth_request (manager_of save_args), Body [("token", JStr "")])] /\
    out w' = [] ++ [Say "Authentication successful";
                    Say "Not authenticated. Call authenticate() first.";
                    Say "No services found or failed to retrieve services"] /\
    files w' = [] /\ calls w' = [].
Proof.
  apply (main_with_rejected_token save_args (world_of empty_token_table [])
           [("token", JStr "")] (JStr "")).
  - reflexivity.
  - reflexivity.
  - reflexivity.
  - intros input H. discriminate H.
Defined.

(** ** The manager as [__init__] builds it *)

Lemma rstrip_slash_slashes url : exists n, url = (rstrip_slash url ++ slashes n)%string.
Proof.
  induction url as [|c r [n IH]]; [exists O; reflexivity|].
  cbn [rstrip_slash]. destruct (rstrip_slash r) as [|d r'] eqn:E.
  - destruct (Ascii.eqb c "/") eqn:Ec.
    + apply Ascii.eqb_eq in Ec. subst c. exists (S n). simpl in *. now rewrite <- IH.
    + exists n. simpl in *. now rewrite <- IH.
  - exists n. simpl in *. now rewrite <- IH.
Qed.

Lemma rstrip_slash_end url : ends_with_slash (rstrip_slash url) = false.
Proof.
  induction url as [|c r IH]; [reflexivity|].
  cbn [rstrip_slash]. destruct (rstrip_slash r) as [|d r'] eqn:E.
  - destruct (Ascii.eqb c "/") eqn:Ec; [reflexivity|]. simpl. exact Ec.
  - exact IH.
Qed.

(** X12. The manager that [__init__] builds keeps the server URL without
    its trailing slashes, and only those are removed: the argument is the
    kept URL followed by slashes. It holds no token, so that no request can
    be made before [authenticate]. *)
Theorem init_strips_trailing_slashes :
  forall url user pw,
    (exists n, url = (server_url (init url user pw) ++ slashes n)%string) /\
    ends_with_slash (server_url (init url user pw)) = false /\
    ~ authenticated (init url user pw).
Proof.
  intros url user pw. split; [|split].
  - apply rstrip_slash_slashes.
  - apply rstrip_slash_end.
  - intros H. exact H.
Qed.

(** ** A discovery that fails *)

Lemma get_services_root_failed self w :
  authenticated self ->
  result_of (transport w (log w) (root_request self)) = Ok None ->
  exists w1,
    get_services self w = (Ok [], w1) /\
    log w1 = log w ++ [(root_request self, transport w (log w) (root_request self))] /\
    files w1 = files w /\ calls w1 = calls w.
Proof.
  intros Hauth Hroot. unfold get_services.
  destruct (_make_request self "services" [] GET w) as [r w1] eqn:E.
  pose proof (make_request_spec _ _ _ _ _ _ _ Hauth E) as (_ & Hf & Hc & Hl & Hr).
  cbv zeta in Hl, Hr.
  change (request_of self "services" [] GET) with (root_request self) in Hl, Hr.
  rewrite Hroot in Hr. subst r.
  rewrite (bind_ok _ _ _ _ _ E). unfold bind, lift, ret. simpl. eauto.
Qed.

(** X13. If the listing of the root folder fails (the request fails or the
    server answers with an error payload), save and stop-all-but-one return
    [False] after that one request: no folder is listed, no per-service
    method is entered, and save neither creates nor truncates its output
    file. *)
Theorem failed_discovery_ends_save_and_stop :
  forall self output_file keep_service w,
    authenticated self ->
    result_of (transport w (log w) (root_request self)) = Ok None ->
    exists w1 w2,
      save_services_state self output_file w = (Ok false, w1) /\
      stop_all_except_one self keep_service w = (Ok false, w2) /\
      log w1 = log w ++ [(root_request self, transport w (log w) (root_request self))] /\
      log w2 = log w1 /\
      files w1 = files w /\ files w2 = files w /\
      calls w1 = calls w /\ calls w2 = calls w.
Proof.
  intros self output_file keep_service w Hauth Hroot.
  destruct (get_services_root_failed self w Hauth Hroot) as (w0 & E & Hl & Hf & Hc).
  unfold save_services_state, stop_all_except_one.
  rewrite !(bind_ok _ _ _ _ _ E).
  unfold bind, print, ret. eexists _, _.
  split; [reflexivity|]. split; [reflexivity|]. simpl. repeat split; auto.
Qed.

Lemma failed_discovery_ends_save_and_stop_witness :
  exists w1 w2,
    save_services_state example_manager "services.csv" unreachable_world = (Ok false, w1) /\
    stop_all_except_one example_manager "Parcels" unreachable_world = (Ok false, w2) /\
    log w1 = log unreachable_world ++
             [(root_request example_manager,
               transport unreachable_world (log unreachable_world)
                 (root_request example_manager))] /\
    log w2 = log w1 /\
    files w1 = files unreachable_world /\ files w2 = files unreachable_world /\
    calls w1 = calls unreachable_world /\ calls w2 = calls unreachable_world.
Proof.
  apply (failed_discovery_ends_save_and_stop example_manager "services.csv" "Parcels"
           unreachable_world).
  - exact I.
  - reflexivity.
Defined.

(** ** Columns are read by name *)

Lemma lookup_combine_JStr names : forall (row : list string) k,
  lookup k (combine names (map JStr row)) = option_map JStr (lookup k (combine names row)).
Proof.
  induction names as [|n names IH]; intros [|v row] k; try reflexivity.
  cbn [map combine lookup]. destruct (String.eqb k n); [reflexivity|apply IH].
Qed.

Lemma lookup_zip_row names : forall (row : list string) d k,
  NoDup names ->
  List.length row = List.length names ->
  lookup k (zip_row names row d) =
  match lookup k (combine names (map JStr row)) with
  | Some v => Some v
  | None => lookup k d
  end.
Proof.
  induction names as [|n names IH]; intros [|v row] d k Hnd Hlen;
    try discriminate Hlen; [reflexivity|].
  inversion Hnd as [|? ? Hn Hnd']; subst. injection Hlen as Hlen.
  cbn [zip_row map combine lookup]. rewrite IH by assumption.
  destruct (String.eqb k n) eqn:E.
  - apply String.eqb_eq in E. subst k.
    rewrite lookup_absent.
    + apply lookup_set_item_same.
    + intros Hin. apply Hn. clear - Hin.
      revert Hin. generalize (map JStr row). induction names as [|a names IH];
        intros [|x l]; simpl; try tauto.
      intros [H|H]; eauto.
  - apply String.eqb_neq in E.
    destruct (lookup k (combine names (map JStr row))); [reflexivity|].
    now apply lookup_set_item_other.
Qed.

(** X14. restore finds the cells of a row by the names in the header of the
    file, not by position: two complete rows under headers without repeated
    names that give the same text to each of the six columns of the
    snapshot are read as the same record (or fail alike), whatever the order
    of the columns and whatever other columns there are. *)
Theorem restore_reads_columns_by_name :
  forall names row names' row',
    NoDup names -> NoDup names' ->
    List.length row = List.length names ->
    List.length row' = List.length names' ->
    (forall k, In k fieldnames ->
       lookup k (combine names row) = lookup k (combine names' row')) ->
    decode_row (row_dict names row) = decode_row (row_dict names' row').
Proof.
  intros names row names' row' Hnd Hnd' Hlen Hlen' Hsame.
  assert (Hitem : forall k, In k fieldnames ->
            row_item (row_dict names row) k = row_item (row_dict names' row') k).
  { intros k Hk. unfold row_item, row_dict.
    rewrite !lookup_zip_row, !lookup_combine_JStr, (Hsame k Hk) by assumption.
    reflexivity. }
  unfold decode_row.
  rewrite (Hitem "folder"), (Hitem "service_name"), (Hitem "service_type"),
    (Hitem "configured_state"), (Hitem "min_instances"), (Hitem "max_instances");
    try reflexivity; unfold fieldnames; simpl; tauto.
Qed.

Lemma restore_reads_columns_by_name_witness :
  decode_row (row_dict fieldnames parcels_cells) =
  decode_row (row_dict shuffled_names shuffled_cells).
Proof.
  apply (restore_reads_columns_by_name fieldnames parcels_cells
           shuffled_names shuffled_cells).
  - unfold fieldnames. repeat constructor; simpl; intuition discriminate.
  - unfold shuffled_names. repeat constructor; simpl; intuition discriminate.
  - reflexivity.
  - reflexivity.
  - intros k Hk. unfold fieldnames in Hk. simpl in Hk.
    repeat (destruct Hk as [<-|Hk]; [reflexivity|]). contradiction.
Defined.

(** ** save, then restore *)

Lemma same_env_save self path : respects same_env (save_services_state self path).
Proof.
  apply rs_save_services_state with (Sends := fun _ => True) (Writes := fun _ => True);
    first [ exact same_env_refl
          | exact same_env_trans
          | exact I
          | (intros; split; reflexivity)
          | (intros; unfold open_write; destruct (can_write _ _); split; reflexivity) ].
Qed.

(** X15. save followed by restore of the file it wrote: when the records
    that the server reported to save go through the file unchanged (ASCII
    text, bounds of at most 4300 digits) and the server's answers are well
    formed, save returns [True], restore returns [True], and what restore
    does is the [replay] of the records save read, in the order of the
    discovery: per record the service's record is read and sent back with
    exactly the bounds save read, and only if that edit is answered with
    success the service is started or stopped by the state save read. *)
Theorem save_then_restore :
  forall self path w svcs w1 records,
    authenticated self ->
    well_behaved (transport w) ->
    can_write w path = true ->
    svcs <> [] ->
    get_services self w = (Ok svcs, w1) ->
    fetched_rows
      (combine (kept self svcs)
         (replies (transport w) (log w1)
            (map (details_request self) (kept self svcs)))) = map cells_of records ->
    Forall snapshot_safe records ->
    exists w2 w3,
      save_services_state self path w = (Ok true, w2) /\
      restore_services_state self path w2 = (Ok true, w3) /\
      calls w3 = calls w2 ++ fst (replay self (transport w) (log w2) records) /\
      log w3 = log w2 ++ snd (replay self (transport w) (log w2) records).
Proof.
  intros self path w svcs w1 records Hauth Hwb Hcw Hne Hget Hrows Hok.
  destruct (save_services_state_total self path w svcs w1 Hauth Hget Hne Hcw Hwb)
    as [w2 Hsave].
  destruct (save_services_state_ok self path w svcs w1 w2 Hauth Hget Hsave)
    as [_ Hfile].
  rewrite Hrows in Hfile. fold (encode records) in Hfile.
  pose proof (same_env_save self path w) as Hs. rewrite Hsave in Hs.
  cbn [snd] in Hs.
  assert (Henv : envelope_ok (transport w2)).
  { eapply envelope_same_env; [exact Hs|]. now apply well_behaved_envelope. }
  destruct (restore_loop_replay self Hauth records (0, 0) w2 Hok Henv)
    as (c & w3 & E & S & Ef & Ec & El).
  destruct Hs as [Ht _]. rewrite Ht in Ec, El.
  exists w2.
  unfold restore_services_state, try_except, bind at 1, open_read.
  rewrite Hfile. unfold bind at 1, restore_rows.
  rewrite (csv_reader_encode records (Forall_snapshot_safe_ok _ Hok)), E.
  destruct (0 <? snd c); unfold bind, print, ret; simpl;
    eexists; (split; [exact Hsave|]); (split; [reflexivity|]);
    simpl; auto.
Qed.

Lemma save_then_restore_witness :
  exists w2 w3,
    save_services_state example_manager "services.csv" (world_of restore_table [])
      = (Ok true, w2) /\
    restore_services_state example_manager "services.csv" w2 = (Ok true, w3) /\
    calls w3 = calls w2 ++
               [CallUpdate parcels 2 4; CallDetails parcels; CallStart parcels] /\
    wire (log w3) = wire (log w2) ++
      [(GET, "https://gis:6443/arcgis/admin/services/Parcels.MapServer");
       (POST, "https://gis:6443/arcgis/admin/services/Parcels.MapServer/edit");
       (POST, "https://gis:6443/arcgis/admin/services/Parcels.MapServer/start")].
Proof.
  destruct (save_then_restore example_manager "services.csv" (world_of restore_table [])
              [parcels; hosted_x]
              (snd (get_services example_manager (world_of restore_table [])))
              [snapshot_record "" "Parcels" "MapServer" "STARTED" 2 4])
    as (w2 & w3 & Hsave & Hrestore & Hc & Hl).
  - exact I.
  - exact restore_table_well_behaved.
  - reflexivity.
  - discriminate.
  - vm_compute. reflexivity.
  - vm_compute. reflexivity.
  - safe_records.
  - exists w2, w3. split; [exact Hsave|]. split; [exact Hrestore|].
    split.
    + rewrite Hc. f_equal; vm_compute; reflexivity.
    + rewrite Hl. unfold wire. rewrite map_app. f_equal; vm_compute; reflexivity.
Defined.


(** ** The path of a service, printed and requested *)

Lemma endpoint_of_path s suffix :
  endpoint_of s suffix = ("services/" ++ service_path s ++ suffix)%string.
Proof.
  unfold endpoint_of, service_path. destruct (truthy (folder s)).
  - rewrite !append_assoc. reflexivity.
  - rewrite !append_assoc. reflexivity.
Qed.

(** X16. The URL of each per-service request is built from the path that
    the workflows print for the service: services with the same printed
    path are sent the same requests, whatever their folder fields are. (A
    service of the root folder named [Hosted/X] is thus addressed as X of
    the folder Hosted, while the exclusion test looks at the folder field
    only.) *)
Theorem service_requests_follow_printed_path :
  forall self s s',
    service_path s = service_path s' ->
    details_request self s = details_request self s' /\
    start_request self s = start_request self s' /\
    stop_request self s = stop_request self s' /\
    (forall d mn mx, edit_request self s d mn mx = edit_request self s' d mn mx).
Proof.
  intros self s s' H.
  unfold details_request, start_request, stop_request, edit_request.
  rewrite !endpoint_of_path, H. repeat split.
Qed.

Lemma service_requests_follow_printed_path_witness :
  excluded_b example_manager hosted_alias = false /\
  excluded_b example_manager hosted_x = true /\
  details_request example_manager hosted_alias = details_request example_manager hosted_x /\
  start_request example_manager hosted_alias = start_request example_manager hosted_x /\
  stop_request example_manager hosted_alias = stop_request example_manager hosted_x /\
  (forall d mn mx,
     edit_request example_manager hosted_alias d mn mx =
     edit_request example_manager hosted_x d mn mx).
Proof.
  split; [reflexivity|]. split; [reflexivity|].
  apply (service_requests_follow_printed_path example_manager hosted_alias hosted_x).
  reflexivity.
Defined.

(** ** The counters of restore *)

Lemma restore_row_counts self rec counts w c w' :
  restore_row self rec counts w = (Ok c, w') ->
  if excluded_b self (row_service rec)
  then c = (fst counts, snd counts + 1)
  else snd c = snd counts /\ fst counts <= fst c <= fst counts + 1.
Proof.
  intros H. unfold restore_row in H.
  inv_ok H as H0. apply lift_spec in H0 as [Hex ->]. symmetry in Hex.
  rewrite (excluded_b_of _ _ _ Hex). destruct a.
  - inv_ok H as H0. apply ret_spec in H as [[= ->] _]. reflexivity.
  - inv_ok H as H1 wa. case_if H.
    + inv_ok H as H2 wb. inv_ok H as H3 wc. case_if H.
      * inv_ok H as H4 wd. case_if H; inv_ok H as H5 we;
          apply ret_spec in H as [[= ->] _]; simpl; lia.
      * inv_ok H as H4 wd. case_if H; inv_ok H as H5 we;
          apply ret_spec in H as [[= ->] _]; simpl; lia.
    + inv_ok H as H2 wb. apply ret_spec in H as [[= ->] _]. lia.
Qed.

Lemma restore_loop_counts self :
  forall records counts w c w',
    Forall snapshot_ok records ->
    restore_loop self fieldnames (map Ok (map fields_of_record records)) counts w
      = (Ok c, w') ->
    snd c = snd counts + Z.of_nat (List.length (skipped_of self records)) /\
    fst counts <= fst c <= fst counts + Z.of_nat (List.length (handled_of self records)).
Proof.
  induction records as [|r records IH]; intros counts w c w' Hok H.
  - apply ret_spec in H as [[= <-] _]. simpl. lia.
  - inversion Hok as [|? ? Hr Hrs]; subst.
    destruct Hr as (f & n & t & cs & Hr & _ & _ & _ & _ & Hb & _).
    destruct r as [svc st mn mx]. cbn [min_instances max_instances] in *.
    cbn [map] in H. rewrite Hr in H.
    change (fields_of_record (snapshot_record f n t cs mn mx))
      with (row_fields f n t cs mn mx) in H.
    unfold row_fields at 1 in H. cbn [restore_loop] in H.
    change [f; n; t; cs; str_of_Z mn; str_of_Z mx] with (row_fields f n t cs mn mx) in H.
    destruct (decode_row_fields_cases f n t cs mn mx) as [Hd|Hd]; try lia;
      rewrite Hd in H; unfold bind at 1, lift in H; [|discriminate H].
    inv_ok H as H1 w1. apply restore_row_counts in H1.
    apply IH in H; [|exact Hrs]. destruct H as [Hs Hf].
    rewrite Hr. unfold skipped_of, handled_of in *. cbn [filter].
    cbn [row_service snapshot_record] in H1 |- *.
    destruct (excluded_b self _); cbn [negb List.length].
    + subst a. cbn [fst snd] in *. lia.
    + destruct H1 as [H1s H1f]. lia.
Qed.

(** X17. The counters of restore: when restore of a snapshot that save
    wrote returns [True], the summary it prints counts as skipped exactly
    the records of the excluded folders, and as restored at most the other
    records (those whose update and start or stop succeeded). *)
Theorem restore_counts_skipped_records :
  forall self input_file w records w',
    Forall snapshot_ok records ->
    lookup input_file (files w) = Some (encode records) ->
    restore_services_state self input_file w = (Ok true, w') ->
    exists restored,
      0 <= restored <= Z.of_nat (List.length (handled_of self records)) /\
      In (restore_summary restored (Z.of_nat (List.length (skipped_of self records))))
         (out w').
Proof.
  intros self input_file w records w' Hok Hfile H.
  destruct (restore_loop self fieldnames (map Ok (map fields_of_record records)) (0, 0) w)
    as [[c|e] w1] eqn:E.
  - assert (Hrun : exists w2,
               restore_services_state self input_file w = (Ok true, w2) /\
               In (restore_summary (fst c) (snd c)) (out w2)).
    { unfold restore_services_state, try_except, bind at 1, open_read.
      rewrite Hfile. unfold bind at 1, restore_rows.
      rewrite (csv_reader_encode records Hok), E. unfold restore_summary.
      destruct (0 <? snd c); unfold bind, print, ret; cbn beta iota zeta;
        (eexists; split; [reflexivity|]); cbn [out]; rewrite ?in_app_iff.
      - left. right. left. reflexivity.
      - right. left. reflexivity. }
    destruct Hrun as (w2 & Hrun & Hin). rewrite Hrun in H. injection H as <-.
    apply (restore_loop_counts self records (0, 0) w c w1 Hok) in E.
    cbn [fst snd] in E. destruct E as [Es Ef].
    exists (fst c). split; [lia|].
    rewrite <- (Z.add_0_l (Z.of_nat _)), <- Es. exact Hin.
  - assert (Hrun : fst (restore_services_state self input_file w) = Ok false).
    { unfold restore_services_state, try_except, bind at 1, open_read.
      rewrite Hfile. unfold bind at 1, restore_rows.
      rewrite (csv_reader_encode records Hok), E.
      destruct e; reflexivity. }
    rewrite H in Hrun. discriminate Hrun.
Qed.

Lemma restore_counts_skipped_records_witness :
  exists w' restored,
    restore_services_state example_manager "services.csv"
      (world_of parcels_table [("services.csv", encode mixed_records)]) = (Ok true, w') /\
    0 <= restored <= Z.of_nat (List.length (handled_of example_manager mixed_records)) /\
    In (restore_summary restored
          (Z.of_nat (List.length (skipped_of example_manager mixed_records))))
       (out w').
Proof.
  assert (Hok : Forall snapshot_ok mixed_records).
  { repeat constructor;
      (eexists _, _, _, _; split; [reflexivity|];
       repeat split; try reflexivity; try (vm_compute; discriminate)). }
  assert (Hrun : restore_services_state example_manager "services.csv"
                   (world_of parcels_table [("services.csv", encode mixed_records)])
                 = (Ok true,
                    snd (restore_services_state example_manager "services.csv"
                           (world_of parcels_table
                              [("services.csv", encode mixed_records)])))).
  { vm_compute. reflexivity. }
  destruct (restore_counts_skipped_records example_manager "services.csv"
              (world_of parcels_table [("services.csv", encode mixed_records)])
              mixed_records _ Hok eq_refl Hrun) as [restored H].
  eexists _, restored. split; [exact Hrun|exact H].
Defined.
